(** * The OSQP boundary adapter [com_d3x_osqp_OsqpModel.c]

    A shallow embedding of the JNI entry point
    [Java_com_d3x_osqp_OsqpModel_run] and of its static helpers, with the
    properties of the design document stated over it.

    The C functions run against three collaborators that the source file
    only calls: the Java runtime (JNI), the C allocator and the OSQP
    library.  Their effects are threaded through an explicit [World]: the
    Java arrays reachable from the call, a counter of native blocks and a
    chronological [trace] of every call made to a collaborator.  Whatever
    the collaborators decide on their own (whether an allocation succeeds,
    what the solver answers) is taken from a [Platform] record, so that the
    embedding can be run on a concrete platform and reasoned about for all
    of them. *)

From Stdlib Require Import ZArith String Ascii Lia.
From Stdlib Require Import Floats.PrimFloat Floats.SpecFloat Floats.FloatOps.
From stdpp Require Import gmap strings list.

Set Warnings "-inexact-float".
Open Scope Z_scope.

(** ** Machine numbers *)

(** [jint], [jsize] and C's [int] are 32-bit signed; [jlong] is 64-bit and
    [c_int] has the width of [long] once the width check of the entry point
    has passed.  All are carried as [Z]; the one narrowing conversion of the
    source, to [jint] / [jsize], is written out. *)
Abbreviation jint := Z (only parsing).
Abbreviation jsize := Z (only parsing).
Abbreviation jlong := Z (only parsing).
Abbreviation c_int := Z (only parsing).
Abbreviation jdouble := float (only parsing).
Abbreviation c_float := float (only parsing).

Definition JINT_MIN : Z := - 2 ^ 31.
Definition JINT_MAX : Z := 2 ^ 31 - 1.

Definition fits_jint (z : Z) : bool := (JINT_MIN <=? z) && (z <=? JINT_MAX).

(** Conversion of a wider integer to a 32-bit signed one: the value is
    reduced modulo 2^32 into [JINT_MIN .. JINT_MAX]. *)
Definition to_jint (z : Z) : jint := (z + 2 ^ 31) `mod` 2 ^ 32 - 2 ^ 31.

(** [round] of <math.h> on a binary64 value, as an exact integer: the
    nearest integer, halfway cases away from zero.  Infinities and NaN have
    no integer value. *)
Definition c_round (value : jdouble) : option Z :=
  match Prim2SF value with
  | S754_zero _ => Some 0
  | S754_finite s m e =>
      let mag := if 0 <=? e then Z.pos m * 2 ^ e
                 else (Z.pos m + 2 ^ (- e - 1)) `div` 2 ^ (- e) in
      Some (if s then - mag else mag)
  | S754_infinity _ => None
  | S754_nan => None
  end.

(** [(int) round(value)].  The conversion to [int] is defined by C only for
    a value in the range of [int]; [None] stands for the undefined cases. *)
Definition d3x_to_int (value : jdouble) : option Z :=
  match c_round value with
  | Some z => if fits_jint z then Some z else None
  | None => None
  end.

(** ** Data of the solver interface, as far as the source touches it *)

Abbreviation jarray := nat (only parsing).
Abbreviation block := nat (only parsing).

(** [csc] of OSQP: the dimensions, the entry counts and the three arrays.
    [csc_block] is the native block that holds the structure.  The arrays
    [p], [i] and [x] are carried by their content; [csc_store] names the
    three native blocks they occupy when the library allocated them, and is
    [None] for a structure laid over arrays the caller owns. *)
Record csc := mk_csc {
  csc_block : block;
  csc_m : c_int;
  csc_n : c_int;
  csc_nzmax : c_int;
  csc_nz : c_int;
  csc_p : list c_int;
  csc_i : list c_int;
  csc_x : list c_float;
  csc_store : option (block * block * block)
}.

Record OSQPData := mk_data {
  data_block : block;
  data_n : c_int;
  data_m : c_int;
  data_P : option csc;
  data_A : option csc;
  data_q : list c_float;
  data_l : list c_float;
  data_u : list c_float
}.

(** The fields of [OSQPSettings] that the source assigns. *)
Record OSQPSettings := mk_settings {
  rho : c_float;
  sigma : c_float;
  alpha : c_float;
  polish : c_int;
  max_iter : c_int;
  eps_abs : c_float;
  eps_rel : c_float;
  eps_prim_inf : c_float;
  eps_dual_inf : c_float
}.

Record OSQPSolution := mk_solution {
  x : list c_float;
  y : list c_float
}.

Record OSQPInfo := mk_info {
  status_val : c_int
}.

Record OSQPWorkspace := mk_workspace {
  work_block : block;
  work_data : OSQPData;
  work_settings : OSQPSettings;
  solution : OSQPSolution;
  info : OSQPInfo
}.

(** ** The world outside the source file *)

(** One entry per call to a collaborator, in the order of the calls. *)
Inductive event : Type :=
| EvStderr (msg : string)
| EvAlloc (b : block)
| EvFree (p : option block)
| EvGetDoubles (a : jarray)
| EvReleaseDoubles (a : jarray)
| EvGetLongs (a : jarray)
| EvReleaseLongs (a : jarray)
| EvGetChars (s : string)
| EvReleaseChars (s : string)
| EvOpenLog (path : string)
| EvCloseLog
| EvSetup (work : option block) (exitflag : c_int)
| EvSolve (work : block) (exitflag : c_int) (sol : OSQPSolution) (inf : OSQPInfo)
| EvCleanup (work : block)
| EvSetRegion (a : jarray) (start len : jsize)
| EvThrow (exn : string).

Record World := mk_world {
  jdoubles : gmap jarray (list jdouble);
  jlongs : gmap jarray (list Z);
  next_block : block;
  trace : list event
}.

(** What the collaborators decide: the widths of the platform's types, the
    fate of each allocation request (numbered in order), the defaults of the
    library, the compressed form the library computes for a triplet matrix,
    and the answers of [osqp_setup] and [osqp_solve]. *)
Record Platform := mk_platform {
  sizeof_c_int : Z;
  sizeof_long : Z;
  sizeof_c_float : Z;
  sizeof_double : Z;
  malloc_succeeds : block -> bool;
  default_settings : OSQPSettings;
  compress : csc -> option (list c_int * list c_int * list c_float);
  setup_answer : OSQPData -> OSQPSettings -> option (OSQPSolution * OSQPInfo) * c_int;
  solve_answer : OSQPWorkspace -> c_int * OSQPSolution * OSQPInfo
}.

(** ** A state monad with undefined behaviour

    A computation maps a world to a result and a new world, or to [None]
    where C or JNI give the call no meaning (a read outside a buffer, a
    conversion outside the range of [int], a dangling array handle). *)
Definition M (A : Type) : Type := World -> option (A * World).

Definition ret {A} (a : A) : M A := fun w => Some (a, w).

Definition bind {A B} (m : M A) (k : A -> M B) : M B :=
  fun w => match m w with
           | Some (a, w') => k a w'
           | None => None
           end.

Definition undefined {A} : M A := fun _ => None.

Definition lift {A} (o : option A) : M A :=
  fun w => match o with Some a => Some (a, w) | None => None end.

Declare Scope m_scope.
Delimit Scope m_scope with M.
Notation "x <- c1 ;; c2" := (bind c1 (fun x => c2))
  (at level 100, c1 at next level, right associativity) : m_scope.
Notation "c1 ;; c2" := (bind c1 (fun _ => c2))
  (at level 100, right associativity) : m_scope.
Open Scope m_scope.

Definition emit (e : event) : M unit :=
  fun w => Some (tt, mk_world (jdoubles w) (jlongs w) (next_block w) (trace w ++ [e])).

Definition fresh_block : M block :=
  fun w => Some (next_block w,
                 mk_world (jdoubles w) (jlongs w) (S (next_block w)) (trace w)).

Definition newline : string := String "010"%char EmptyString.

Definition fprintf_stderr (msg : string) : M unit := emit (EvStderr msg).

(** ** JNI functions used by the source *)

(** The elements of an array are handed out as a direct view of the array;
    the matching release (mode 0) ends the view and leaves the array as it
    is. *)
Definition read_doubles (a : jarray) : M (list jdouble) :=
  fun w => match jdoubles w !! a with
           | Some l => Some (l, w)
           | None => None
           end.

Definition read_longs (a : jarray) : M (list jlong) :=
  fun w => match jlongs w !! a with
           | Some l => Some (l, w)
           | None => None
           end.

(** [GetArrayLength], which the source calls on a [jdoubleArray] and on the
    array of names (there it is the [length] of the list). *)
Definition GetArrayLength (a : jarray) : M jsize :=
  l <- read_doubles a ;; ret (Z.of_nat (length l)).

Definition GetDoubleArrayElements (a : jarray) : M (list jdouble) :=
  l <- read_doubles a ;; emit (EvGetDoubles a) ;; ret l.

Definition ReleaseDoubleArrayElements (a : jarray) (elems : list jdouble) (mode : jint) : M unit :=
  emit (EvReleaseDoubles a).

Definition GetLongArrayElements (a : jarray) : M (list jlong) :=
  l <- read_longs a ;; emit (EvGetLongs a) ;; ret l.

Definition ReleaseLongArrayElements (a : jarray) (elems : list jlong) (mode : jint) : M unit :=
  emit (EvReleaseLongs a).

(** A [jstring] is carried as its modified UTF-8 bytes, which contain no
    zero byte; they are what [GetStringUTFChars] hands out. *)
Definition GetStringUTFLength (s : string) : M jsize :=
  ret (Z.of_nat (String.length s)).

Definition GetStringUTFChars (s : string) : M string :=
  emit (EvGetChars s) ;; ret s.

Definition ReleaseStringUTFChars (s : string) (chars : string) : M unit :=
  emit (EvReleaseChars s).

(** An exception that a JNI function raises is not thrown in the native
    code: it stays pending until the native code clears it, which the
    source never does, or until the native method returns, when it is
    thrown in the Java caller in place of the value returned.  So an
    exception is pending exactly when the trace records one raised.  A
    native method is entered with none pending, and of the JNI functions
    the source calls only [SetDoubleArrayRegion] raises one: the calls that
    can follow a raised exception are the second [SetDoubleArrayRegion]
    and the [Release] functions of the teardown. *)
Definition throw_event (e : event) : bool :=
  match e with EvThrow _ => true | _ => false end.

Definition exception_pending (w : World) : bool := existsb throw_event (trace w).

(** [SetDoubleArrayRegion a start len buf] copies [len] elements of [buf]
    over [a[start .. start+len)].  A region that does not lie inside the
    array raises [ArrayIndexOutOfBoundsException] and copies nothing; a
    buffer shorter than [len] is read past its end.  While an exception is
    pending JNI gives a meaning only to the calls it lists as safe, the
    [Release] functions among them; [SetDoubleArrayRegion] is not one of
    them. *)
Definition SetDoubleArrayRegion (a : jarray) (start len : jsize) (buf : list jdouble) : M unit :=
  fun w =>
    if exception_pending w then None else
    match jdoubles w !! a with
    | None => None
    | Some arr =>
        if (0 <=? start) && (0 <=? len) && (start + len <=? Z.of_nat (length arr)) then
          if Z.of_nat (length buf) <? len then None
          else
            let arr' := take (Z.to_nat start) arr ++ take (Z.to_nat len) buf
                          ++ drop (Z.to_nat (start + len)) arr in
            Some (tt, mk_world (<[a := arr']> (jdoubles w)) (jlongs w) (next_block w)
                               (trace w ++ [EvSetRegion a start len]))
        else emit (EvThrow "ArrayIndexOutOfBoundsException") w
    end.

(** ** The source file *)

Section Adapter.

Variable P : Platform.

(** *** Allocator and OSQP library *)

(** [c_malloc]: request number [next_block] of the call; a request that
    succeeds hands out the block of that number. *)
Definition c_malloc : M (option block) :=
  b <- fresh_block ;;
  if malloc_succeeds P b then emit (EvAlloc b) ;; ret (Some b)
  else ret None.

(** [c_free]: gives back the one block its argument points to; nothing
    for a null pointer. *)
Definition c_free (p : option block) : M unit := emit (EvFree p).

(** [csc_matrix] of the library: a fresh structure around the arrays it is
    given, with [nz = -1]; [OSQP_NULL] when the allocation fails. *)
Definition csc_matrix (m n nzmax : c_int) (cx : list c_float) (ci cp : list c_int)
  : M (option csc) :=
  b <- c_malloc ;;
  match b with
  | Some b => ret (Some (mk_csc b m n nzmax (-1) cp ci cx None))
  | None => ret None
  end.

(** What [triplet_to_csc] reads of a triplet matrix without a check: the
    first [nz] entries of its three arrays.  Each of these column indices
    addresses one of the [n] column counters of the conversion, and each of
    these row indices is stored as it is, to address the solver's vectors
    of length [m] afterwards. *)
Definition triplet_readable (T : csc) : bool :=
  (csc_nz T <=? Z.of_nat (length (csc_i T)))
  && (csc_nz T <=? Z.of_nat (length (csc_p T)))
  && (csc_nz T <=? Z.of_nat (length (csc_x T)))
  && forallb (fun j => (0 <=? j) && (j <? csc_n T)) (take (Z.to_nat (csc_nz T)) (csc_p T))
  && forallb (fun i => (0 <=? i) && (i <? csc_m T)) (take (Z.to_nat (csc_nz T)) (csc_i T)).

(** [triplet_to_csc (T, OSQP_NULL)] of the library.  The result is
    allocated by [csc_spalloc]: the structure, then its arrays [p], [i]
    and [x], four allocations, with [nzmax = max (nz, 1)] and [nz = -1];
    the arrays are then filled from the triplet, [compress] giving their
    content.  [OSQP_NULL] is returned, with nothing left allocated, when
    the library cannot allocate; [compress] decides that too.  (The
    column counters, allocated and freed inside the conversion, are not
    recorded.) *)
Definition triplet_to_csc (T : csc) : M (option csc) :=
  match compress P T with
  | Some (cp, ci, cx) =>
      if triplet_readable T then
        b <- fresh_block ;;
        emit (EvAlloc b) ;;
        bp <- fresh_block ;;
        emit (EvAlloc bp) ;;
        bi <- fresh_block ;;
        emit (EvAlloc bi) ;;
        bx <- fresh_block ;;
        emit (EvAlloc bx) ;;
        ret (Some (mk_csc b (csc_m T) (csc_n T) (Z.max (csc_nz T) 1) (-1) cp ci cx
                     (Some (bp, bi, bx))))
      else undefined
  | None => ret None
  end.

Definition osqp_set_default_settings : M OSQPSettings := ret (default_settings P).

Definition osqp_open_log (path : string) : M unit := emit (EvOpenLog path).

Definition osqp_close_log : M unit := emit EvCloseLog.

(** [osqp_setup (&work, data, settings)]: the workspace pointer it stores,
    if any, and its exit flag. *)
Definition osqp_setup (data : OSQPData) (settings : OSQPSettings)
  : M (option OSQPWorkspace * c_int) :=
  match setup_answer P data settings with
  | (Some (sol, inf), exitflag) =>
      b <- fresh_block ;;
      emit (EvSetup (Some b) exitflag) ;;
      ret (Some (mk_workspace b data settings sol inf), exitflag)
  | (None, exitflag) =>
      emit (EvSetup None exitflag) ;;
      ret (None, exitflag)
  end.

(** [osqp_solve (work)]: the exit flag, and the workspace with the solution
    and the information the solver left in it. *)
Definition osqp_solve (work : OSQPWorkspace) : M (c_int * OSQPWorkspace) :=
  match solve_answer P work with
  | (exitflag, sol, inf) =>
      emit (EvSolve (work_block work) exitflag sol inf) ;;
      ret (exitflag,
           mk_workspace (work_block work) (work_data work) (work_settings work) sol inf)
  end.

Definition osqp_cleanup (work : OSQPWorkspace) : M unit :=
  emit (EvCleanup (work_block work)).

(** *** [d3x_create_csc] *)

Definition d3x_create_csc (nrow ncol : jlong) (rowind colind coeffs : jarray)
  : M (option csc) :=
  (* Acquire Java array data. *)
  nnz <- GetArrayLength coeffs ;;
  Ti <- GetLongArrayElements rowind ;;
  Tj <- GetLongArrayElements colind ;;
  Tx <- GetDoubleArrayElements coeffs ;;
  (* Convert from triplet to compressed column format. *)
  triplet <- csc_matrix nrow ncol nnz Tx Ti Tj ;;
  match triplet with
  | None => undefined  (* [triplet->nz = nnz] through a null pointer *)
  | Some triplet =>
      let triplet := mk_csc (csc_block triplet) (csc_m triplet) (csc_n triplet)
                       (csc_nzmax triplet) nnz (csc_p triplet) (csc_i triplet)
                       (csc_x triplet) (csc_store triplet) in
      compcol <- triplet_to_csc triplet ;;
      c_free (Some (csc_block triplet)) ;;
      (* Release Java array data. *)
      ReleaseLongArrayElements rowind Ti 0 ;;
      ReleaseLongArrayElements colind Tj 0 ;;
      ReleaseDoubleArrayElements coeffs Tx 0 ;;
      ret compcol
  end.

(** *** [d3x_create_data] and [d3x_free_data] *)

Definition d3x_create_data (numVar numDual : jlong)
  (linObjCoeff quadObjRowInd quadObjColInd quadObjCoeff
   linConRowInd linConColInd linConCoeff linConLower linConUpper : jarray)
  : M (option OSQPData) :=
  (* Allocate data structure. *)
  data <- c_malloc ;;
  match data with
  | None =>
      fprintf_stderr ("Failed to allocate OSQPData structure." ++ newline) ;;
      ret None
  | Some data =>
      (* Populate problem data. *)
      q <- GetDoubleArrayElements linObjCoeff ;;
      l <- GetDoubleArrayElements linConLower ;;
      u <- GetDoubleArrayElements linConUpper ;;
      A <- d3x_create_csc numDual numVar linConRowInd linConColInd linConCoeff ;;
      Pm <- d3x_create_csc numVar numVar quadObjRowInd quadObjColInd quadObjCoeff ;;
      ret (Some (mk_data data numVar numDual Pm A q l u))
  end.

Definition d3x_free_data (linObjCoeff linConLower linConUpper : jarray) (data : OSQPData)
  : M unit :=
  (* "Release" in exact correspondence to "Get" *)
  ReleaseDoubleArrayElements linObjCoeff (data_q data) 0 ;;
  ReleaseDoubleArrayElements linConLower (data_l data) 0 ;;
  ReleaseDoubleArrayElements linConUpper (data_u data) 0 ;;
  c_free (csc_block <$> data_A data) ;;
  c_free (csc_block <$> data_P data) ;;
  c_free (Some (data_block data)).

(** *** Settings *)

(** [strcmp (str1, str2) == 0] on strings without zero bytes. *)
Definition d3x_string_match (str1 str2 : string) : bool := String.eqb str1 str2.

Definition d3x_assign_setting (paramName : string) (paramValue : jdouble)
  (settings : OSQPSettings) : M OSQPSettings :=
  rawName <- GetStringUTFChars paramName ;;
  settings' <-
    (let s := settings in
     if d3x_string_match rawName "RHO" then
       ret (mk_settings paramValue (sigma s) (alpha s) (polish s) (max_iter s)
              (eps_abs s) (eps_rel s) (eps_prim_inf s) (eps_dual_inf s))
     else if d3x_string_match rawName "SIGMA" then
       ret (mk_settings (rho s) paramValue (alpha s) (polish s) (max_iter s)
              (eps_abs s) (eps_rel s) (eps_prim_inf s) (eps_dual_inf s))
     else if d3x_string_match rawName "ALPHA" then
       ret (mk_settings (rho s) (sigma s) paramValue (polish s) (max_iter s)
              (eps_abs s) (eps_rel s) (eps_prim_inf s) (eps_dual_inf s))
     else if d3x_string_match rawName "POLISH" then
       i <- lift (d3x_to_int paramValue) ;;
       ret (mk_settings (rho s) (sigma s) (alpha s) i (max_iter s)
              (eps_abs s) (eps_rel s) (eps_prim_inf s) (eps_dual_inf s))
     else if d3x_string_match rawName "MAX_ITER" then
       i <- lift (d3x_to_int paramValue) ;;
       ret (mk_settings (rho s) (sigma s) (alpha s) (polish s) i
              (eps_abs s) (eps_rel s) (eps_prim_inf s) (eps_dual_inf s))
     else if d3x_string_match rawName "EPS_ABS" then
       ret (mk_settings (rho s) (sigma s) (alpha s) (polish s) (max_iter s)
              paramValue (eps_rel s) (eps_prim_inf s) (eps_dual_inf s))
     else if d3x_string_match rawName "EPS_REL" then
       ret (mk_settings (rho s) (sigma s) (alpha s) (polish s) (max_iter s)
              (eps_abs s) paramValue (eps_prim_inf s) (eps_dual_inf s))
     else if d3x_string_match rawName "EPS_PRIM_INF" then
       ret (mk_settings (rho s) (sigma s) (alpha s) (polish s) (max_iter s)
              (eps_abs s) (eps_rel s) paramValue (eps_dual_inf s))
     else if d3x_string_match rawName "EPS_DUAL_INF" then
       ret (mk_settings (rho s) (sigma s) (alpha s) (polish s) (max_iter s)
              (eps_abs s) (eps_rel s) (eps_prim_inf s) paramValue)
     else
       fprintf_stderr ("Unknown setting parameter: [" ++ rawName ++ "]." ++ newline) ;;
       ret s) ;;
  ReleaseStringUTFChars paramName rawName ;;
  ret settings'.

(** The [for] loop of [d3x_create_settings]: [remaining] iterations are
    left, the next one at [paramIndex]. *)
Fixpoint d3x_assign_overrides (remaining : nat) (paramIndex : nat)
  (paramNames : list string) (nativeParams : list jdouble) (settings : OSQPSettings)
  : M OSQPSettings :=
  match remaining with
  | O => ret settings
  | S remaining' =>
      paramName <- lift (paramNames !! paramIndex) ;;
      paramValue <- lift (nativeParams !! paramIndex) ;;
      settings' <- d3x_assign_setting paramName paramValue settings ;;
      d3x_assign_overrides remaining' (S paramIndex) paramNames nativeParams settings'
  end.

(** The result pairs the block of the settings structure with its content;
    [None] is [OSQP_NULL]. *)
Definition d3x_create_settings (paramNames : list string) (paramValues : jarray)
  : M (option (block * OSQPSettings)) :=
  (* Allocate data structure. *)
  settings <- c_malloc ;;
  match settings with
  | None =>
      fprintf_stderr ("Failed to allocate OSQPSettings structure." ++ newline) ;;
      ret None
  | Some b =>
      (* Assign default settings. *)
      s <- osqp_set_default_settings ;;
      let s := mk_settings (rho s) (sigma s) (alpha s) 1 (max_iter s)
                 (eps_abs s) (eps_rel s) (eps_prim_inf s) (eps_dual_inf s) in
      (* Assign user-defined overrides. *)
      let paramCount := length paramNames in
      nativeParams <- GetDoubleArrayElements paramValues ;;
      s <- d3x_assign_overrides paramCount 0 paramNames nativeParams s ;;
      ReleaseDoubleArrayElements paramValues nativeParams 0 ;;
      ret (Some (b, s))
  end.

(** *** [d3x_create_workspace] *)

Definition d3x_create_workspace (data : OSQPData) (settings : OSQPSettings)
  : M (option OSQPWorkspace) :=
  r <- osqp_setup data settings ;;
  match r.1 with
  | None =>
      fprintf_stderr ("Failed to allocate OSQPWorkspace structure." ++ newline) ;;
      ret None
  | Some work =>
      (* Setup error codes are positive integers. *)
      if negb (r.2 =? 0) then
        fprintf_stderr ("Problm setup failed." ++ newline) ;;
        osqp_cleanup work ;;
        ret None
      else ret (Some work)
  end.

(** *** The entry point *)

Definition SETUP_ERROR : jlong := -1.

Definition Java_com_d3x_osqp_OsqpModel_run
  (numVar numDual : jlong) (logName : string)
  (linObjCoeff quadObjRowInd quadObjColInd quadObjCoeff
   linConRowInd linConColInd linConCoeff linConLower linConUpper
   optPrimal optDual : jarray)
  (paramNames : list string) (paramValues : jarray) : M jint :=
  (* Verify that OSQP has been compiled with DLONG on and DFLOAT off. *)
  if negb (sizeof_c_int P =? sizeof_long P) then
    fprintf_stderr ("OSQP must be compiled with DLONG defined." ++ newline) ;;
    ret (to_jint SETUP_ERROR)
  else if negb (sizeof_c_float P =? sizeof_double P) then
    fprintf_stderr ("OSQP must be compiled with DFLOAT undefined." ++ newline) ;;
    ret (to_jint SETUP_ERROR)
  else
    (* Copy problem data and settings. *)
    data <- d3x_create_data numVar numDual linObjCoeff
              quadObjRowInd quadObjColInd quadObjCoeff
              linConRowInd linConColInd linConCoeff linConLower linConUpper ;;
    settings <- d3x_create_settings paramNames paramValues ;;
    match data, settings with
    | Some data, Some (settings_block, settings) =>
        (* Capture console output in the specified log file. *)
        len <- GetStringUTFLength logName ;;
        (if 0 <? len then
           rawLogName <- GetStringUTFChars logName ;;
           osqp_open_log rawLogName ;;
           ReleaseStringUTFChars logName rawLogName
         else ret tt) ;;
        (* Create solver workspace. *)
        workspace <- d3x_create_workspace data settings ;;
        match workspace with
        | None =>
            osqp_close_log ;;
            ret (to_jint SETUP_ERROR)
        | Some workspace =>
            (* Solve problem and assign solution. *)
            r <- osqp_solve workspace ;;
            let status := r.1 in
            let workspace := r.2 in
            status <-
              (if status =? 0 then
                 SetDoubleArrayRegion optPrimal 0 (to_jint numVar) (x (solution workspace)) ;;
                 SetDoubleArrayRegion optDual 0 (to_jint numDual) (y (solution workspace)) ;;
                 ret (status_val (info workspace))
               else ret status) ;;
            (* Cleanup allocated items. *)
            osqp_cleanup workspace ;;
            c_free (Some settings_block) ;;
            d3x_free_data linObjCoeff linConLower linConUpper data ;;
            osqp_close_log ;;
            ret (to_jint status)
        end
    | _, _ => ret (to_jint SETUP_ERROR)
    end.

End Adapter.

(** ** Vocabulary of the statements *)

(** [steps w w' evs k]: from [w] to [w'] the Java arrays are untouched, the
    calls [evs] were made and [k] block numbers were consumed. *)
Definition steps (w w' : World) (evs : list event) (k : nat) : Prop :=
  jdoubles w' = jdoubles w /\ jlongs w' = jlongs w /\
  trace w' = trace w ++ evs /\ next_block w' = (next_block w + k)%nat.

(** The blocks of the arrays of a matrix, and the allocations that make a
    matrix: its structure, then its arrays. *)
Definition store_blocks (c : csc) : list block :=
  match csc_store c with
  | Some (bp, bi, bx) => [bp; bi; bx]
  | None => []
  end.

Definition matrix_allocs (r : option csc) : list event :=
  match r with
  | Some c => EvAlloc (csc_block c) :: map EvAlloc (store_blocks c)
  | None => []
  end.

(** The calls made by one run of the matrix builder: [tb] is the block of
    the triplet shell, [r] the compressed matrix. *)
Definition csc_events (rowind colind coeffs : jarray) (tb : block) (r : option csc)
  : list event :=
  [EvGetLongs rowind; EvGetLongs colind; EvGetDoubles coeffs; EvAlloc tb]
  ++ matrix_allocs r
  ++ [EvFree (Some tb); EvReleaseLongs rowind; EvReleaseLongs colind;
      EvReleaseDoubles coeffs].

Definition blocks_of (r : option csc) : nat :=
  match r with Some c => S (length (store_blocks c)) | None => 0%nat end.

(** A matrix allocated from block [b] on: the structure in [b], the arrays
    in the three blocks after it. *)
Definition matrix_at (b : block) (m : csc) : Prop :=
  csc_block m = b /\ csc_store m = Some (S b, S (S b), S (S (S b))).

(** The names [d3x_assign_setting] compares against, in its order. *)
Definition known_names : list string :=
  ["RHO"; "SIGMA"; "ALPHA"; "POLISH"; "MAX_ITER"; "EPS_ABS"; "EPS_REL";
   "EPS_PRIM_INF"; "EPS_DUAL_INF"]%string.

Definition recognized (name : string) : bool :=
  existsb (String.eqb name) known_names.

Definition unknown_message (name : string) : string :=
  "Unknown setting parameter: [" ++ name ++ "]." ++ newline.

(** The calls made while one entry, and a list of entries, is assigned. *)
Definition setting_events (name : string) : list event :=
  [EvGetChars name]
  ++ (if recognized name then [] else [EvStderr (unknown_message name)])
  ++ [EvReleaseChars name].

Definition settings_events (names : list string) : list event :=
  flat_map setting_events names.

(** The value paired with the last occurrence of [name], names and values
    being paired by position. *)
Fixpoint last_value (name : string) (names : list string) (values : list jdouble)
  : option jdouble :=
  match names, values with
  | n :: names', v :: values' =>
      match last_value name names' values' with
      | Some v' => Some v'
      | None => if String.eqb n name then Some v else None
      end
  | _, _ => None
  end.

(** A field of the record [s] resolved from [s0] by the entries: it holds
    what the last entry of its name assigns, and its value in [s0] when
    there is no such entry. *)
Definition float_field (name : string) (get : OSQPSettings -> c_float)
  (names : list string) (values : list jdouble) (s0 s : OSQPSettings) : Prop :=
  get s = match last_value name names values with
          | Some v => v
          | None => get s0
          end.

Definition int_field (name : string) (get : OSQPSettings -> c_int)
  (names : list string) (values : list jdouble) (s0 s : OSQPSettings) : Prop :=
  match last_value name names values with
  | Some v => d3x_to_int v = Some (get s)
  | None => get s = get s0
  end.

Definition resolved (names : list string) (values : list jdouble)
  (s0 s : OSQPSettings) : Prop :=
  float_field "RHO" rho names values s0 s /\
  float_field "SIGMA" sigma names values s0 s /\
  float_field "ALPHA" alpha names values s0 s /\
  int_field "POLISH" polish names values s0 s /\
  int_field "MAX_ITER" max_iter names values s0 s /\
  float_field "EPS_ABS" eps_abs names values s0 s /\
  float_field "EPS_REL" eps_rel names values s0 s /\
  float_field "EPS_PRIM_INF" eps_prim_inf names values s0 s /\
  float_field "EPS_DUAL_INF" eps_dual_inf names values s0 s.

(** The library defaults with the product default [polish = 1] on top. *)
Definition forced_defaults (P : Platform) : OSQPSettings :=
  let s := default_settings P in
  mk_settings (rho s) (sigma s) (alpha s) 1 (max_iter s)
    (eps_abs s) (eps_rel s) (eps_prim_inf s) (eps_dual_inf s).

(** The entries on which the resolver has defined behaviour: there is a
    value for every name, and the value of an integer-coded name rounds
    into the range of [int]. *)
Definition integer_coded (name : string) : bool :=
  String.eqb name "POLISH" || String.eqb name "MAX_ITER".

Definition entry_defined (name : string) (value : jdouble) : bool :=
  if integer_coded name then
    match d3x_to_int value with Some _ => true | None => false end
  else true.

Fixpoint entries_defined (names : list string) (values : list jdouble) : bool :=
  match names, values with
  | [], _ => true
  | n :: names', v :: values' => entry_defined n v && entries_defined names' values'
  | _ :: _, [] => false
  end.

(** What one call of [d3x_assign_setting] does to the record. *)
Definition assigned (name : string) (v : jdouble) (s s' : OSQPSettings) : Prop :=
  rho s' = (if String.eqb name "RHO" then v else rho s) /\
  sigma s' = (if String.eqb name "SIGMA" then v else sigma s) /\
  alpha s' = (if String.eqb name "ALPHA" then v else alpha s) /\
  (if String.eqb name "POLISH" then d3x_to_int v = Some (polish s')
   else polish s' = polish s) /\
  (if String.eqb name "MAX_ITER" then d3x_to_int v = Some (max_iter s')
   else max_iter s' = max_iter s) /\
  eps_abs s' = (if String.eqb name "EPS_ABS" then v else eps_abs s) /\
  eps_rel s' = (if String.eqb name "EPS_REL" then v else eps_rel s) /\
  eps_prim_inf s' = (if String.eqb name "EPS_PRIM_INF" then v else eps_prim_inf s) /\
  eps_dual_inf s' = (if String.eqb name "EPS_DUAL_INF" then v else eps_dual_inf s).

(** *** One call of the entry point *)

(** The arguments of [Java_com_d3x_osqp_OsqpModel_run]. *)
Record Call := mk_call {
  numVar : jlong;
  numDual : jlong;
  logName : string;
  linObjCoeff : jarray;
  quadObjRowInd : jarray;
  quadObjColInd : jarray;
  quadObjCoeff : jarray;
  linConRowInd : jarray;
  linConColInd : jarray;
  linConCoeff : jarray;
  linConLower : jarray;
  linConUpper : jarray;
  optPrimal : jarray;
  optDual : jarray;
  paramNames : list string;
  paramValues : jarray
}.

Definition run (P : Platform) (c : Call) : M jint :=
  Java_com_d3x_osqp_OsqpModel_run P (numVar c) (numDual c) (logName c)
    (linObjCoeff c) (quadObjRowInd c) (quadObjColInd c) (quadObjCoeff c)
    (linConRowInd c) (linConColInd c) (linConCoeff c) (linConLower c) (linConUpper c)
    (optPrimal c) (optDual c) (paramNames c) (paramValues c).

Definition int_width_message : string :=
  "OSQP must be compiled with DLONG defined." ++ newline.
Definition float_width_message : string :=
  "OSQP must be compiled with DFLOAT undefined." ++ newline.
Definition data_message : string :=
  "Failed to allocate OSQPData structure." ++ newline.
Definition settings_message : string :=
  "Failed to allocate OSQPSettings structure." ++ newline.
Definition workspace_message : string :=
  "Failed to allocate OSQPWorkspace structure." ++ newline.
Definition setup_message : string :=
  "Problm setup failed." ++ newline.

(** Calls made by [d3x_create_data] when its first block is [db], and the
    block numbers it consumes. *)
Definition builder_events (c : Call) (db : block) (rd : option OSQPData) : list event :=
  match rd with
  | None => [EvStderr data_message]
  | Some d =>
      [EvAlloc db; EvGetDoubles (linObjCoeff c); EvGetDoubles (linConLower c);
       EvGetDoubles (linConUpper c)]
      ++ csc_events (linConRowInd c) (linConColInd c) (linConCoeff c)
           (db + 1) (data_A d)
      ++ csc_events (quadObjRowInd c) (quadObjColInd c) (quadObjCoeff c)
           (db + 2 + blocks_of (data_A d)) (data_P d)
  end.

Definition builder_blocks (rd : option OSQPData) : nat :=
  match rd with
  | None => 1
  | Some d => 3 + blocks_of (data_A d) + blocks_of (data_P d)
  end.

(** Where the blocks of a problem instance built from block [db] lie. *)
Definition data_at (db : block) (d : OSQPData) : Prop :=
  data_block d = db /\
  (forall m, data_A d = Some m -> matrix_at (db + 2) m) /\
  (forall m, data_P d = Some m -> matrix_at (db + 3 + blocks_of (data_A d)) m).

(** Calls made by [d3x_create_settings] when its block is [sb]. *)
Definition resolver_events (c : Call) (sb : block) (rs : option (block * OSQPSettings))
  : list event :=
  match rs with
  | None => [EvStderr settings_message]
  | Some _ =>
      [EvAlloc sb; EvGetDoubles (paramValues c)] ++ settings_events (paramNames c)
      ++ [EvReleaseDoubles (paramValues c)]
  end.

Definition log_events (c : Call) : list event :=
  if 0 <? Z.of_nat (String.length (logName c)) then
    [EvGetChars (logName c); EvOpenLog (logName c); EvReleaseChars (logName c)]
  else [].

(** Everything up to the call of [osqp_setup], when both structures were
    created. *)
Definition prepared_events (c : Call) (db : block) (d : OSQPData)
  (rs : block * OSQPSettings) : list event :=
  builder_events c db (Some d)
  ++ resolver_events c (db + builder_blocks (Some d)) (Some rs)
  ++ log_events c.

(** The cleanup block at the end of the entry point. *)
Definition teardown_events (c : Call) (wb sb : block) (d : OSQPData) : list event :=
  [EvCleanup wb; EvFree (Some sb);
   EvReleaseDoubles (linObjCoeff c); EvReleaseDoubles (linConLower c);
   EvReleaseDoubles (linConUpper c);
   EvFree (csc_block <$> data_A d); EvFree (csc_block <$> data_P d);
   EvFree (Some (data_block d)); EvCloseLog].

(** The paths through the entry point, each with the status it returns and
    the world it leaves. *)
Inductive run_path (P : Platform) (c : Call) (w : World) : jint -> World -> Prop :=
| path_int_width w' :
    sizeof_c_int P <> sizeof_long P ->
    steps w w' [EvStderr int_width_message] 0 ->
    run_path P c w (-1) w'
| path_float_width w' :
    sizeof_c_int P = sizeof_long P ->
    sizeof_c_float P <> sizeof_double P ->
    steps w w' [EvStderr float_width_message] 0 ->
    run_path P c w (-1) w'
| path_alloc_failed rd rs k w' :
    rd = None \/ rs = None ->
    (forall d, rd = Some d -> data_at (next_block w) d) ->
    steps w w'
      (builder_events c (next_block w) rd
       ++ resolver_events c (next_block w + builder_blocks rd) rs) k ->
    run_path P c w (-1) w'
| path_no_workspace d sb s exitflag k w' :
    data_at (next_block w) d ->
    sb = (next_block w + builder_blocks (Some d))%nat ->
    setup_answer P d s = (None, exitflag) ->
    steps w w'
      (prepared_events c (next_block w) d (sb, s)
       ++ [EvSetup None exitflag; EvStderr workspace_message; EvCloseLog]) k ->
    run_path P c w (-1) w'
| path_setup_rejected d sb s wb init exitflag k w' :
    data_at (next_block w) d ->
    sb = (next_block w + builder_blocks (Some d))%nat ->
    wb = S sb ->
    setup_answer P d s = (Some init, exitflag) ->
    exitflag <> 0 ->
    steps w w'
      (prepared_events c (next_block w) d (sb, s)
       ++ [EvSetup (Some wb) exitflag; EvStderr setup_message; EvCleanup wb;
           EvCloseLog]) k ->
    run_path P c w (-1) w'
| path_solve_error d sb s wb init exitflag sol inf k w' :
    data_at (next_block w) d ->
    sb = (next_block w + builder_blocks (Some d))%nat ->
    wb = S sb ->
    setup_answer P d s = (Some init, 0) ->
    solve_answer P (mk_workspace wb d s init.1 init.2) = (exitflag, sol, inf) ->
    exitflag <> 0 ->
    steps w w'
      (prepared_events c (next_block w) d (sb, s)
       ++ [EvSetup (Some wb) 0; EvSolve wb exitflag sol inf]
       ++ teardown_events c wb sb d) k ->
    run_path P c w (to_jint exitflag) w'
| path_solved d sb s wb init sol inf k w1 w2 w3 w' :
    data_at (next_block w) d ->
    sb = (next_block w + builder_blocks (Some d))%nat ->
    wb = S sb ->
    setup_answer P d s = (Some init, 0) ->
    solve_answer P (mk_workspace wb d s init.1 init.2) = (0, sol, inf) ->
    steps w w1
      (prepared_events c (next_block w) d (sb, s)
       ++ [EvSetup (Some wb) 0; EvSolve wb 0 sol inf]) k ->
    SetDoubleArrayRegion (optPrimal c) 0 (to_jint (numVar c)) (x sol) w1 = Some (tt, w2) ->
    SetDoubleArrayRegion (optDual c) 0 (to_jint (numDual c)) (y sol) w2 = Some (tt, w3) ->
    steps w3 w' (teardown_events c wb sb d) 0 ->
    run_path P c w (to_jint (status_val inf)) w'.

(** *** Classes of events *)

(** Calls into the solver proper. *)
Definition solver_event (e : event) : bool :=
  match e with
  | EvSetup _ _ | EvSolve _ _ _ _ | EvCleanup _ => true
  | _ => false
  end.

(** What a region copy leaves in the trace. *)
Definition copy_event (e : event) : bool :=
  match e with
  | EvSetRegion _ _ _ | EvThrow _ => true
  | _ => false
  end.

(** The other calls: allocator, JNI views, log and error stream. *)
Definition quiet_event (e : event) : bool :=
  negb (solver_event e) && negb (copy_event e).

(** *** Resources held across calls *)

Inductive resource : Type :=
| RBlock (b : block)
| RDoubles (a : jarray)
| RLongs (a : jarray)
| RChars (s : string).

#[global] Instance resource_eq_dec : EqDecision resource.
Proof. solve_decision. Defined.

Definition ind (b : bool) : Z := if b then 1 else 0.

(** The change an event makes to the number of times [r] is held: blocks
    are taken by an allocation or by [osqp_setup] and given back by
    [c_free] or [osqp_cleanup]; array and string views are taken by the
    JNI [Get] calls and given back by the [Release] calls. *)
Definition delta (r : resource) (e : event) : Z :=
  match e with
  | EvAlloc b => ind (bool_decide (r = RBlock b))
  | EvFree (Some b) => - ind (bool_decide (r = RBlock b))
  | EvSetup (Some b) _ => ind (bool_decide (r = RBlock b))
  | EvCleanup b => - ind (bool_decide (r = RBlock b))
  | EvGetDoubles a => ind (bool_decide (r = RDoubles a))
  | EvReleaseDoubles a => - ind (bool_decide (r = RDoubles a))
  | EvGetLongs a => ind (bool_decide (r = RLongs a))
  | EvReleaseLongs a => - ind (bool_decide (r = RLongs a))
  | EvGetChars s => ind (bool_decide (r = RChars s))
  | EvReleaseChars s => - ind (bool_decide (r = RChars s))
  | _ => 0
  end.

(** How many times [r] is held after the calls [evs]. *)
Fixpoint balance (r : resource) (evs : list event) : Z :=
  match evs with
  | [] => 0
  | e :: evs' => delta r e + balance r evs'
  end.

Definition acquired (e : event) : list resource :=
  match e with
  | EvAlloc b => [RBlock b]
  | EvSetup (Some b) _ => [RBlock b]
  | EvGetDoubles a => [RDoubles a]
  | EvGetLongs a => [RLongs a]
  | EvGetChars s => [RChars s]
  | _ => []
  end.

(** The resources taken during [evs] that are still held at its end. *)
Definition leaked (evs : list event) : list resource :=
  filter (fun r => 0 < balance r evs) (remove_dups (flat_map acquired evs)).

(** *** What the caller receives *)

(** A native method hands its caller the value it returns, unless an
    exception is pending when it returns: then that exception is thrown in
    the caller and the value is dropped. *)
Inductive outcome : Type :=
| Returned (status : jint)
| Raised (exn : string).

(** The exception raised first among the calls [evs]. *)
Fixpoint raised (evs : list event) : option string :=
  match evs with
  | [] => None
  | EvThrow exn :: _ => Some exn
  | _ :: evs' => raised evs'
  end.

Definition received (st : jint) (evs : list event) : outcome :=
  match raised evs with
  | Some exn => Raised exn
  | None => Returned st
  end.

(** The status the source computes from what the solve step left. *)
Definition solver_code (exitflag : c_int) (inf : OSQPInfo) : c_int :=
  if exitflag =? 0 then status_val inf else exitflag.

(** *** A concrete platform and a concrete call

    The one-variable, one-constraint problem of the design document:
    minimise [x] subject to [lower <= x <= upper], with an empty quadratic
    objective.  The platform is LP64 with the library defaults of OSQP; its
    allocator and solver answer as the arguments say. *)

Definition osqp_defaults : OSQPSettings :=
  mk_settings 0.1 1e-6 1.6 0 4000 1e-3 1e-3 1e-4 1e-4.

(** Compressed form of a triplet matrix with a single column. *)
Definition one_column (T : csc) : option (list c_int * list c_int * list c_float) :=
  Some ([0; csc_nz T], csc_i T, csc_x T).

Definition lp64 (malloc : block -> bool)
  (setup : option (OSQPSolution * OSQPInfo) * c_int)
  (solve : c_int * OSQPSolution * OSQPInfo) : Platform :=
  mk_platform 8 8 8 8 malloc osqp_defaults one_column (fun _ _ => setup) (fun _ => solve).

Definition always : block -> bool := fun _ => true.

Definition unsolved : OSQPSolution * OSQPInfo := (mk_solution [] [], mk_info (-10)).

Definition qp_world (lower upper : jdouble) (values : list jdouble) : World :=
  mk_world
    (list_to_map [(1%nat, [1%float]); (2%nat, []); (3%nat, [1%float]);
                  (4%nat, [lower]); (5%nat, [upper]);
                  (6%nat, [7%float]); (7%nat, [7%float]); (8%nat, values)])
    (list_to_map [(11%nat, []); (12%nat, []); (13%nat, [0]); (14%nat, [0])])
    0 [].

Definition qp_call (names : list string) : Call :=
  mk_call 1 1 EmptyString 1 11 12 2 13 14 3 4 5 6 7 names 8.

(** An infeasible problem that has every lower bound below its upper
    bound, so that it passes the validation of the data: minimise [x]
    subject to [5 <= x <= 10] and [0 <= x <= 1]. *)
Definition two_row_world : World :=
  mk_world
    (list_to_map [(1%nat, [1%float]); (2%nat, []); (3%nat, [1%float; 1%float]);
                  (4%nat, [5%float; 0%float]); (5%nat, [10%float; 1%float]);
                  (6%nat, [7%float]); (7%nat, [7%float; 7%float]); (8%nat, [])])
    (list_to_map [(11%nat, []); (12%nat, []); (13%nat, [0; 1]); (14%nat, [0; 0])])
    0 [].

Definition two_row_call : Call :=
  mk_call 1 2 EmptyString 1 11 12 2 13 14 3 4 5 6 7 [] 8.

(** *** Resources of the problem instance *)

(** How many times [r] is held with a matrix: as the block of its
    structure, as one of the blocks of its arrays, and both together. *)
Definition held_struct (r : resource) (m : option csc) : Z :=
  match m with
  | Some m => ind (bool_decide (r = RBlock (csc_block m)))
  | None => 0
  end.

Definition held_arrays (r : resource) (m : option csc) : Z :=
  match m with
  | Some m =>
      match csc_store m with
      | Some (bp, bi, bx) =>
          ind (bool_decide (r = RBlock bp)) + ind (bool_decide (r = RBlock bi))
          + ind (bool_decide (r = RBlock bx))
      | None => 0
      end
  | None => 0
  end.

Definition held_block (r : resource) (m : option csc) : Z :=
  held_struct r m + held_arrays r m.

Definition matrix_block (m : option csc) : list resource :=
  match m with
  | Some m => RBlock (csc_block m) :: map RBlock (store_blocks m)
  | None => []
  end.

(** What a problem instance holds: its own block, the views of the three
    arrays it borrows, and the blocks of its two matrices. *)
Definition problem_resources (c : Call) (d : OSQPData) : list resource :=
  [RBlock (data_block d); RDoubles (linObjCoeff c); RDoubles (linConLower c);
   RDoubles (linConUpper c)]
  ++ matrix_block (data_A d) ++ matrix_block (data_P d).

(** The status code OSQP gives a primal infeasible problem. *)
Definition OSQP_PRIMAL_INFEASIBLE : c_int := -3.

(** The field of [s] that carries [name] holds what the assignment of
    [value] under that name gives: the value itself for the floating-point
    fields, its rounding to [int] for the integer-coded ones. *)
Definition holds_entry (name : string) (value : jdouble) (s : OSQPSettings) : Prop :=
  (name = "RHO"%string -> rho s = value) /\
  (name = "SIGMA"%string -> sigma s = value) /\
  (name = "ALPHA"%string -> alpha s = value) /\
  (name = "POLISH"%string -> d3x_to_int value = Some (polish s)) /\
  (name = "MAX_ITER"%string -> d3x_to_int value = Some (max_iter s)) /\
  (name = "EPS_ABS"%string -> eps_abs s = value) /\
  (name = "EPS_REL"%string -> eps_rel s = value) /\
  (name = "EPS_PRIM_INF"%string -> eps_prim_inf s = value) /\
  (name = "EPS_DUAL_INF"%string -> eps_dual_inf s = value).

(** *** Calls within defined behaviour

    Sufficient conditions for a call to have a meaning.  No exception is
    pending when the native method is entered.  Every array handle of the
    call denotes an array.  Each triplet has a row and a column index for
    every coefficient, inside the shape of its matrix: the conversion reads
    them without a check.  The two triplet shells, dereferenced without a
    check, can be allocated: they are the first and the second or sixth
    request after that of the problem structure.  The settings entries are
    defined.  When the solve step succeeds, the solver leaves solution
    vectors as long as the regions the entry point copies from them, and
    the primal buffer has room for its region: after a copy that raised,
    the copy into the dual buffer would be a JNI call with an exception
    pending. *)
Definition triplet_defined (w : World) (nrow ncol : jlong)
  (rowind colind coeffs : jarray) : Prop :=
  exists Ti Tj Tx,
    jlongs w !! rowind = Some Ti /\ jlongs w !! colind = Some Tj /\
    jdoubles w !! coeffs = Some Tx /\
    (length Tx <= length Ti)%nat /\ (length Tx <= length Tj)%nat /\
    Forall (fun i => 0 <= i < nrow) (take (length Tx) Ti) /\
    Forall (fun j => 0 <= j < ncol) (take (length Tx) Tj).

Definition call_defined (P : Platform) (c : Call) (w : World) : Prop :=
  exception_pending w = false /\
  (forall a,
     In a [linObjCoeff c; linConLower c; linConUpper c; optPrimal c; optDual c] ->
     is_Some (jdoubles w !! a)) /\
  triplet_defined w (numDual c) (numVar c)
    (linConRowInd c) (linConColInd c) (linConCoeff c) /\
  triplet_defined w (numVar c) (numVar c)
    (quadObjRowInd c) (quadObjColInd c) (quadObjCoeff c) /\
  (forall k, In k [1; 2; 6]%nat -> malloc_succeeds P (next_block w + k) = true) /\
  (exists vals,
     jdoubles w !! paramValues c = Some vals /\
     entries_defined (paramNames c) vals = true) /\
  (forall work,
     (solve_answer P work).1.1 = 0 ->
     to_jint (numVar c) <= Z.of_nat (length (x (solve_answer P work).1.2)) /\
     to_jint (numDual c) <= Z.of_nat (length (y (solve_answer P work).1.2)) /\
     exists primal,
       jdoubles w !! optPrimal c = Some primal /\
       0 <= to_jint (numVar c) <= Z.of_nat (length primal)).

(** *** The calls of a run

    Classes of events, and the sequences of calls a run can make. *)

(** Calls that reach neither the solver nor the log and copy no region:
    the allocator, the JNI views and the error stream. *)
Definition housekeeping_event (e : event) : bool :=
  match e with
  | EvStderr _ | EvAlloc _ | EvFree _ | EvGetDoubles _ | EvReleaseDoubles _
  | EvGetLongs _ | EvReleaseLongs _ | EvGetChars _ | EvReleaseChars _ => true
  | _ => false
  end.

Definition setup_event (e : event) : bool :=
  match e with EvSetup _ _ => true | _ => false end.

Definition solve_event (e : event) : bool :=
  match e with EvSolve _ _ _ _ => true | _ => false end.

Definition alloc_event (e : event) : bool :=
  match e with EvAlloc _ => true | _ => false end.

Definition log_event (e : event) : bool :=
  match e with EvOpenLog _ | EvCloseLog => true | _ => false end.

(** The call that opens the log, made for a log name that is not empty. *)
Definition opened_log (c : Call) : list event :=
  if 0 <? Z.of_nat (String.length (logName c)) then [EvOpenLog (logName c)] else [].

(** The messages written when a call is given up. *)
Definition diagnostics : list string :=
  [int_width_message; float_width_message; data_message; settings_message;
   workspace_message; setup_message].

Definition diagnostic_event (e : event) : bool :=
  match e with
  | EvStderr m => existsb (String.eqb m) diagnostics
  | _ => false
  end.

(** What [SetDoubleArrayRegion a 0 len] leaves in the trace for an array
    of [n] elements. *)
Definition copy_outcome (a : jarray) (len : jsize) (n : nat) : event :=
  if (0 <=? len) && (len <=? Z.of_nat n) then EvSetRegion a 0 len
  else EvThrow "ArrayIndexOutOfBoundsException".

(** The lowest number of times [r] is held at any point of [evs], counted
    from 0 at its start: it is negative when [r] is given back at a point
    where it is not held. *)
Fixpoint lowest (r : resource) (evs : list event) : Z :=
  match evs with
  | [] => 0
  | e :: evs' => Z.min 0 (delta r e + lowest r evs')
  end.

(** The sequences of calls of the entry point started in [w], each with
    the status returned.  The copy into the primal buffer is one that
    succeeded: after one that raised, the copy into the dual buffer would be
    a JNI call with an exception pending. *)
Inductive run_events (c : Call) (w : World) : jint -> list event -> Prop :=
| events_int_width :
    run_events c w (-1) [EvStderr int_width_message]
| events_float_width :
    run_events c w (-1) [EvStderr float_width_message]
| events_alloc_failed rd rs :
    rd = None \/ rs = None ->
    (forall d, rd = Some d -> data_block d = next_block w) ->
    run_events c w (-1)
      (builder_events c (next_block w) rd
       ++ resolver_events c (next_block w + builder_blocks rd) rs)
| events_no_workspace d sb s exitflag :
    data_block d = next_block w ->
    sb = (next_block w + builder_blocks (Some d))%nat ->
    run_events c w (-1)
      (prepared_events c (next_block w) d (sb, s)
       ++ [EvSetup None exitflag; EvStderr workspace_message; EvCloseLog])
| events_setup_rejected d sb s wb exitflag :
    data_block d = next_block w ->
    sb = (next_block w + builder_blocks (Some d))%nat ->
    exitflag <> 0 ->
    run_events c w (-1)
      (prepared_events c (next_block w) d (sb, s)
       ++ [EvSetup (Some wb) exitflag; EvStderr setup_message; EvCleanup wb;
           EvCloseLog])
| events_solve_error d sb s wb exitflag sol inf :
    data_block d = next_block w ->
    sb = (next_block w + builder_blocks (Some d))%nat ->
    exitflag <> 0 ->
    run_events c w (to_jint exitflag)
      (prepared_events c (next_block w) d (sb, s)
       ++ [EvSetup (Some wb) 0; EvSolve wb exitflag sol inf]
       ++ teardown_events c wb sb d)
| events_solved d sb s wb sol inf primal dual :
    data_block d = next_block w ->
    sb = (next_block w + builder_blocks (Some d))%nat ->
    jdoubles w !! optPrimal c = Some primal ->
    jdoubles w !! optDual c = Some dual ->
    0 <= to_jint (numVar c) <= Z.of_nat (length primal) ->
    run_events c w (to_jint (status_val inf))
      (prepared_events c (next_block w) d (sb, s)
       ++ [EvSetup (Some wb) 0; EvSolve wb 0 sol inf;
           EvSetRegion (optPrimal c) 0 (to_jint (numVar c));
           copy_outcome (optDual c) (to_jint (numDual c)) (length dual)]
       ++ teardown_events c wb sb d).
(** ** Reasoning about computations *)

Lemma steps_refl w : steps w w [] 0.
Proof.
  unfold steps. rewrite app_nil_r. repeat split; auto.
Qed.

Lemma steps_trans w1 w2 w3 e1 e2 k1 k2 :
  steps w1 w2 e1 k1 -> steps w2 w3 e2 k2 -> steps w1 w3 (e1 ++ e2) (k1 + k2).
Proof.
  intros (Hd1 & Hl1 & Ht1 & Hn1) (Hd2 & Hl2 & Ht2 & Hn2).
  unfold steps. rewrite Hd2, Hl2, Ht2, Hn2, Hd1, Hl1, Ht1, Hn1.
  rewrite app_assoc. repeat split; auto. lia.
Qed.

Lemma steps_next w w' evs k : steps w w' evs k -> next_block w' = (next_block w + k)%nat.
Proof. intros (_ & _ & _ & H). exact H. Qed.

Lemma steps_eq w w' e e' k k' : steps w w' e k -> e = e' -> k = k' -> steps w w' e' k'.
Proof. intros H -> ->. exact H. Qed.

(** Composes consecutive [steps] hypotheses, keeping the block counter of
    every intermediate world. *)
Ltac chain :=
  repeat match goal with
  | A : steps ?a ?b ?e1 ?k1, B : steps ?b ?c ?e2 ?k2 |- _ =>
      let N := fresh "N" in
      let T := fresh "T" in
      pose proof (steps_next _ _ _ _ A) as N;
      pose proof (steps_trans _ _ _ _ _ _ _ A B) as T; clear A B
  end.

(** Expresses every block counter through that of the first world. *)
Ltac blocks :=
  repeat match goal with
  | N : next_block ?b = _ |- _ => try rewrite N in *; clear N
  end;
  rewrite ?Nat.add_0_r in *.

Lemma bind_inv {A B} (m : M A) (k : A -> M B) w b w' :
  bind m k w = Some (b, w') ->
  exists a w1, m w = Some (a, w1) /\ k a w1 = Some (b, w').
Proof.
  unfold bind. destruct (m w) as [[a w1]|]; [|discriminate].
  intros H. exists a, w1. auto.
Qed.

Lemma ret_inv {A} (a b : A) w w' : ret a w = Some (b, w') -> b = a /\ w' = w.
Proof. unfold ret. intros H. inversion H. auto. Qed.

Lemma lift_inv {A} (o : option A) a w w' :
  lift o w = Some (a, w') -> o = Some a /\ w' = w.
Proof. unfold lift. destruct o; intros H; inversion H. auto. Qed.

Lemma emit_inv e u w w' : emit e w = Some (u, w') -> steps w w' [e] 0.
Proof.
  unfold emit. intros H. inversion H. unfold steps. simpl.
  repeat split; auto.
Qed.

Lemma fresh_block_inv b w w' :
  fresh_block w = Some (b, w') -> b = next_block w /\ steps w w' [] 1.
Proof.
  unfold fresh_block. intros H. inversion H. unfold steps. simpl.
  rewrite app_nil_r. repeat split; auto. lia.
Qed.

Lemma read_doubles_inv a l w w' :
  read_doubles a w = Some (l, w') -> jdoubles w !! a = Some l /\ w' = w.
Proof.
  unfold read_doubles. destruct (jdoubles w !! a); intros H; inversion H. auto.
Qed.

Lemma read_longs_inv a l w w' :
  read_longs a w = Some (l, w') -> jlongs w !! a = Some l /\ w' = w.
Proof.
  unfold read_longs. destruct (jlongs w !! a); intros H; inversion H. auto.
Qed.

(** Peels the first computation off a sequence in hypothesis [H]. *)
Ltac peel H a w1 H1 :=
  apply bind_inv in H; destruct H as (a & w1 & H1 & H).

Lemma GetDoubleArrayElements_inv a l w w' :
  GetDoubleArrayElements a w = Some (l, w') ->
  jdoubles w !! a = Some l /\ steps w w' [EvGetDoubles a] 0.
Proof.
  unfold GetDoubleArrayElements. intros H.
  peel H l0 w1 H1. apply read_doubles_inv in H1 as [Hl ->].
  peel H u w2 H2. apply emit_inv in H2. apply ret_inv in H as [-> ->]. auto.
Qed.

Lemma GetLongArrayElements_inv a l w w' :
  GetLongArrayElements a w = Some (l, w') ->
  jlongs w !! a = Some l /\ steps w w' [EvGetLongs a] 0.
Proof.
  unfold GetLongArrayElements. intros H.
  peel H l0 w1 H1. apply read_longs_inv in H1 as [Hl ->].
  peel H u w2 H2. apply emit_inv in H2. apply ret_inv in H as [-> ->]. auto.
Qed.

Lemma GetArrayLength_inv a n w w' :
  GetArrayLength a w = Some (n, w') ->
  (exists l, jdoubles w !! a = Some l /\ n = Z.of_nat (length l)) /\ w' = w.
Proof.
  unfold GetArrayLength. intros H.
  peel H l0 w1 H1. apply read_doubles_inv in H1 as [Hl ->].
  apply ret_inv in H as [-> ->]. eauto.
Qed.

Section AdapterFacts.

Variable P : Platform.

Lemma c_malloc_inv p w w' :
  c_malloc P w = Some (p, w') ->
  (p = Some (next_block w) /\ steps w w' [EvAlloc (next_block w)] 1) \/
  (p = None /\ steps w w' [] 1).
Proof.
  unfold c_malloc. intros H.
  peel H b w1 H1. apply fresh_block_inv in H1 as [-> H1].
  destruct (malloc_succeeds P (next_block w)).
  - peel H u w2 H2. apply emit_inv in H2. apply ret_inv in H as [-> ->].
    left. split; [reflexivity|]. apply (steps_trans _ _ _ _ _ _ _ H1 H2).
  - apply ret_inv in H as [-> ->]. right. auto.
Qed.

Lemma triplet_to_csc_inv T r w w' :
  triplet_to_csc P T w = Some (r, w') ->
  steps w w' (matrix_allocs r) (blocks_of r) /\
  (forall c, r = Some c -> matrix_at (next_block w) c).
Proof.
  unfold triplet_to_csc. intros H.
  destruct (compress P T) as [[[cp ci] cx]|].
  - destruct (triplet_readable T); [|discriminate H].
    peel H b w1 H1. apply fresh_block_inv in H1 as [-> H1].
    peel H u w2 H2. apply emit_inv in H2.
    peel H bp w3 H3. apply fresh_block_inv in H3 as [-> H3].
    peel H u1 w4 H4. apply emit_inv in H4.
    peel H bi w5 H5. apply fresh_block_inv in H5 as [-> H5].
    peel H u2 w6 H6. apply emit_inv in H6.
    peel H bx w7 H7. apply fresh_block_inv in H7 as [-> H7].
    peel H u3 w8 H8. apply emit_inv in H8.
    apply ret_inv in H as [-> ->].
    assert (N2 : next_block w2 = S (next_block w)).
    { rewrite (steps_next _ _ _ _ H2), (steps_next _ _ _ _ H1). lia. }
    assert (N4 : next_block w4 = S (S (next_block w))).
    { rewrite (steps_next _ _ _ _ H4), (steps_next _ _ _ _ H3), N2. lia. }
    assert (N6 : next_block w6 = S (S (S (next_block w)))).
    { rewrite (steps_next _ _ _ _ H6), (steps_next _ _ _ _ H5), N4. lia. }
    rewrite N2, N4, N6 in *.
    chain. split.
    + eapply steps_eq; [eassumption | reflexivity | cbn; lia].
    + intros c Hc. inversion Hc. split; reflexivity.
  - apply ret_inv in H as [-> ->]. split; [apply steps_refl | discriminate].
Qed.

Lemma d3x_create_csc_inv nrow ncol rowind colind coeffs r w w' :
  d3x_create_csc P nrow ncol rowind colind coeffs w = Some (r, w') ->
  steps w w' (csc_events rowind colind coeffs (next_block w) r) (1 + blocks_of r) /\
  (forall c, r = Some c -> matrix_at (S (next_block w)) c).
Proof.
  unfold d3x_create_csc. intros H.
  peel H nnz w1 H1. apply GetArrayLength_inv in H1 as [_ ->].
  peel H Ti w1 H1. apply GetLongArrayElements_inv in H1 as [_ S1].
  peel H Tj w2 H2. apply GetLongArrayElements_inv in H2 as [_ S2].
  peel H Tx w3 H3. apply GetDoubleArrayElements_inv in H3 as [_ S3].
  peel H t w4 H4. unfold csc_matrix in H4.
  peel H4 b w4' H4'. apply c_malloc_inv in H4' as [[-> S4]|[-> S4]];
    apply ret_inv in H4 as [-> ->]; [|discriminate H].
  peel H c w5 H5. apply triplet_to_csc_inv in H5 as [S5 Hc].
  peel H u w6 H6. apply emit_inv in H6.
  peel H u1 w7 H7. apply emit_inv in H7.
  peel H u2 w8 H8. apply emit_inv in H8.
  peel H u3 w9 H9. apply emit_inv in H9.
  apply ret_inv in H as [-> ->].
  chain. blocks. split.
  - eapply steps_eq; [eassumption | | lia].
    unfold csc_events. cbn [csc_block app]. rewrite <- ?app_assoc. reflexivity.
  - intros c0 Hr. specialize (Hc c0 Hr).
    match type of Hc with
    | matrix_at ?b _ => replace b with (S (next_block w)) in Hc by lia
    end.
    exact Hc.
Qed.

End AdapterFacts.

(** ** Settings resolver *)

Section SettingsFacts.

Variable P : Platform.

Lemma d3x_assign_setting_inv name v s s' w w' :
  d3x_assign_setting name v s w = Some (s', w') ->
  assigned name v s s' /\ steps w w' (setting_events name) 0.
Proof.
  unfold d3x_assign_setting, GetStringUTFChars, ReleaseStringUTFChars. intros H.
  peel H raw w1 H1. peel H1 u w0 H0. apply emit_inv in H0.
  apply ret_inv in H1 as [-> ->].
  peel H s1 w2 H2. peel H u1 w3 H3. apply emit_inv in H3.
  apply ret_inv in H as [-> ->].
  unfold d3x_string_match, setting_events, recognized, known_names in *.
  cbn [existsb].
  destruct (String.eqb name "RHO") eqn:E0.
  { apply String.eqb_eq in E0 as ->. apply ret_inv in H2 as [-> ->].
    chain. split; [|exact T]. unfold assigned; cbn. repeat split; auto. }
  destruct (String.eqb name "SIGMA") eqn:E1.
  { apply String.eqb_eq in E1 as ->. apply ret_inv in H2 as [-> ->].
    chain. split; [|exact T]. unfold assigned; cbn. repeat split; auto. }
  destruct (String.eqb name "ALPHA") eqn:E2.
  { apply String.eqb_eq in E2 as ->. apply ret_inv in H2 as [-> ->].
    chain. split; [|exact T]. unfold assigned; cbn. repeat split; auto. }
  destruct (String.eqb name "POLISH") eqn:E3.
  { apply String.eqb_eq in E3 as ->. peel H2 i w4 H4.
    apply lift_inv in H4 as [Hi ->]. apply ret_inv in H2 as [-> ->].
    chain. split; [|exact T]. unfold assigned; cbn. repeat split; auto. }
  destruct (String.eqb name "MAX_ITER") eqn:E4.
  { apply String.eqb_eq in E4 as ->. peel H2 i w4 H4.
    apply lift_inv in H4 as [Hi ->]. apply ret_inv in H2 as [-> ->].
    chain. split; [|exact T]. unfold assigned; cbn. repeat split; auto. }
  destruct (String.eqb name "EPS_ABS") eqn:E5.
  { apply String.eqb_eq in E5 as ->. apply ret_inv in H2 as [-> ->].
    chain. split; [|exact T]. unfold assigned; cbn. repeat split; auto. }
  destruct (String.eqb name "EPS_REL") eqn:E6.
  { apply String.eqb_eq in E6 as ->. apply ret_inv in H2 as [-> ->].
    chain. split; [|exact T]. unfold assigned; cbn. repeat split; auto. }
  destruct (String.eqb name "EPS_PRIM_INF") eqn:E7.
  { apply String.eqb_eq in E7 as ->. apply ret_inv in H2 as [-> ->].
    chain. split; [|exact T]. unfold assigned; cbn. repeat split; auto. }
  destruct (String.eqb name "EPS_DUAL_INF") eqn:E8.
  { apply String.eqb_eq in E8 as ->. apply ret_inv in H2 as [-> ->].
    chain. split; [|exact T]. unfold assigned; cbn. repeat split; auto. }
  peel H2 u2 w4 H4. apply emit_inv in H4. apply ret_inv in H2 as [-> ->].
  chain. split; [|exact T0].
  unfold assigned. rewrite E0, E1, E2, E3, E4, E5, E6, E7, E8. repeat split; auto.
Qed.

Lemma float_field_nil name get vals s : float_field name get [] vals s s.
Proof. unfold float_field. reflexivity. Qed.

Lemma int_field_nil name get vals s : int_field name get [] vals s s.
Proof. unfold int_field. reflexivity. Qed.

Lemma float_field_cons name get n v ns vs s s1 s' :
  get s1 = (if String.eqb n name then v else get s) ->
  float_field name get ns vs s1 s' ->
  float_field name get (n :: ns) (v :: vs) s s'.
Proof.
  unfold float_field. cbn [last_value]. intros H1 H2.
  destruct (last_value name ns vs); [exact H2|].
  rewrite H2, H1. destruct (String.eqb n name); reflexivity.
Qed.

Lemma int_field_cons name get n v ns vs s s1 s' :
  (if String.eqb n name then d3x_to_int v = Some (get s1) else get s1 = get s) ->
  int_field name get ns vs s1 s' ->
  int_field name get (n :: ns) (v :: vs) s s'.
Proof.
  unfold int_field. cbn [last_value]. intros H1 H2.
  destruct (last_value name ns vs); [exact H2|].
  rewrite H2. destruct (String.eqb n name); exact H1.
Qed.

Lemma resolved_nil vals s : resolved [] vals s s.
Proof.
  unfold resolved.
  repeat split; first [apply float_field_nil | apply int_field_nil].
Qed.

Lemma resolved_cons n v ns vs s s1 s' :
  assigned n v s s1 -> resolved ns vs s1 s' -> resolved (n :: ns) (v :: vs) s s'.
Proof.
  intros (A1 & A2 & A3 & A4 & A5 & A6 & A7 & A8 & A9)
         (R1 & R2 & R3 & R4 & R5 & R6 & R7 & R8 & R9).
  unfold resolved.
  repeat split;
    first [eapply float_field_cons; eassumption
          | eapply int_field_cons; eassumption].
Qed.

Lemma d3x_assign_overrides_inv names vals :
  forall remaining i s s' w w',
    d3x_assign_overrides remaining i names vals s w = Some (s', w') ->
    (remaining + i)%nat = length names ->
    resolved (drop i names) (drop i vals) s s' /\
    steps w w' (settings_events (drop i names)) 0.
Proof.
  induction remaining as [|remaining IH]; intros i s s' w w' H Hlen.
  - apply ret_inv in H as [-> ->]. simpl in Hlen. subst i.
    rewrite drop_all. split; [apply resolved_nil | apply steps_refl].
  - cbn [d3x_assign_overrides] in H.
    peel H n w1 H1. apply lift_inv in H1 as [Hn ->].
    peel H v w1 H1. apply lift_inv in H1 as [Hv ->].
    peel H s1 w1 H1. apply d3x_assign_setting_inv in H1 as [Ha S1].
    apply IH in H as [Hr S2]; [|lia].
    rewrite (drop_S _ _ _ Hn), (drop_S _ _ _ Hv). split.
    + eapply resolved_cons; eassumption.
    + unfold settings_events. cbn [flat_map].
      eapply steps_eq; [exact (steps_trans _ _ _ _ _ _ _ S1 S2) | reflexivity | lia].
Qed.

(** The two outcomes of [d3x_create_settings]: the allocation fails, or the
    record of block [next_block w] is resolved from the forced defaults. *)
Lemma d3x_create_settings_inv names pv r w w' :
  d3x_create_settings P names pv w = Some (r, w') ->
  (r = None /\
   steps w w' [EvStderr ("Failed to allocate OSQPSettings structure." ++ newline)] 1) \/
  (exists s vals,
     r = Some (next_block w, s) /\ jdoubles w !! pv = Some vals /\
     resolved names vals (forced_defaults P) s /\
     steps w w' ([EvAlloc (next_block w); EvGetDoubles pv] ++ settings_events names
                 ++ [EvReleaseDoubles pv]) 1).
Proof.
  unfold d3x_create_settings. intros H.
  peel H p w1 H1. apply c_malloc_inv in H1 as [[-> S1]|[-> S1]].
  - right. peel H s0 w2 H2. apply ret_inv in H2 as [-> ->].
    peel H vals w2 H2. apply GetDoubleArrayElements_inv in H2 as [Hv S2].
    peel H s w3 H3. apply d3x_assign_overrides_inv in H3 as [Hr S3]; [|lia].
    peel H u w4 H4. apply emit_inv in H4. apply ret_inv in H as [-> ->].
    rewrite !drop_0 in *.
    exists s, vals. split; [reflexivity|]. split.
    + destruct S1 as (<- & _). exact Hv.
    + split; [exact Hr|]. chain.
      eapply steps_eq; [eassumption | | lia].
      reflexivity.
  - left. peel H u w2 H2. apply emit_inv in H2. apply ret_inv in H as [-> ->].
    split; [reflexivity|]. chain.
    eapply steps_eq; [eassumption | reflexivity | lia].
Qed.

(** *** The resolver is defined on all defined entries *)

Lemma recognized_false name :
  recognized name = false ->
  String.eqb name "RHO" = false /\ String.eqb name "SIGMA" = false /\
  String.eqb name "ALPHA" = false /\ String.eqb name "POLISH" = false /\
  String.eqb name "MAX_ITER" = false /\ String.eqb name "EPS_ABS" = false /\
  String.eqb name "EPS_REL" = false /\ String.eqb name "EPS_PRIM_INF" = false /\
  String.eqb name "EPS_DUAL_INF" = false.
Proof.
  unfold recognized, known_names. cbn [existsb]. intros H.
  repeat (apply orb_false_elim in H; destruct H as [? H]).
  repeat split; assumption.
Qed.

Lemma d3x_assign_setting_unknown name v s w :
  recognized name = false ->
  exists w',
    d3x_assign_setting name v s w = Some (s, w') /\
    steps w w' [EvGetChars name; EvStderr (unknown_message name); EvReleaseChars name] 0.
Proof.
  intros H. apply recognized_false in H as (E0 & E1 & E2 & E3 & E4 & E5 & E6 & E7 & E8).
  unfold d3x_assign_setting, d3x_string_match, GetStringUTFChars,
    ReleaseStringUTFChars, fprintf_stderr, bind, emit, ret.
  cbn. rewrite E0, E1, E2, E3, E4, E5, E6, E7, E8. cbn.
  eexists. split; [reflexivity|].
  unfold steps, unknown_message. cbn. rewrite <- !app_assoc.
  repeat split; auto.
Qed.

Lemma d3x_assign_setting_defined name v s w :
  entry_defined name v = true ->
  exists s' w', d3x_assign_setting name v s w = Some (s', w').
Proof.
  unfold entry_defined, integer_coded. intros H.
  unfold d3x_assign_setting, d3x_string_match, GetStringUTFChars,
    ReleaseStringUTFChars, fprintf_stderr, bind, emit, ret, lift.
  cbn.
  destruct (String.eqb name "RHO"); [eauto|].
  destruct (String.eqb name "SIGMA"); [eauto|].
  destruct (String.eqb name "ALPHA"); [eauto|].
  destruct (String.eqb name "POLISH").
  { cbn in H. destruct (d3x_to_int v); [eauto | discriminate]. }
  destruct (String.eqb name "MAX_ITER").
  { cbn in H. destruct (d3x_to_int v); [eauto | discriminate]. }
  destruct (String.eqb name "EPS_ABS"); [eauto|].
  destruct (String.eqb name "EPS_REL"); [eauto|].
  destruct (String.eqb name "EPS_PRIM_INF"); [eauto|].
  destruct (String.eqb name "EPS_DUAL_INF"); eauto.
Qed.

Lemma d3x_assign_overrides_defined names vals :
  forall remaining i s w,
    (remaining + i)%nat = length names ->
    entries_defined (drop i names) (drop i vals) = true ->
    exists s' w', d3x_assign_overrides remaining i names vals s w = Some (s', w').
Proof.
  induction remaining as [|remaining IH]; intros i s w Hlen Hd.
  - cbn. unfold ret. eauto.
  - assert (Hi : (i < length names)%nat) by lia.
    apply lookup_lt_is_Some_2 in Hi as [n Hn].
    rewrite (drop_S _ _ _ Hn) in Hd.
    destruct (vals !! i) as [v|] eqn:Hv.
    + rewrite (drop_S _ _ _ Hv) in Hd. cbn [entries_defined] in Hd.
      apply andb_prop in Hd as [Hd1 Hd2].
      destruct (d3x_assign_setting_defined n v s w Hd1) as (s1 & w1 & H1).
      destruct (IH (S i) s1 w1 ltac:(lia) Hd2) as (s' & w' & H').
      exists s', w'. cbn [d3x_assign_overrides]. unfold bind, lift.
      rewrite Hn, Hv, H1. exact H'.
    + apply lookup_ge_None_1 in Hv. rewrite (drop_ge vals i Hv) in Hd.
      cbn in Hd. discriminate.
Qed.

Lemma d3x_create_settings_defined names pv vals w :
  malloc_succeeds P (next_block w) = true ->
  jdoubles w !! pv = Some vals ->
  entries_defined names vals = true ->
  exists s w', d3x_create_settings P names pv w = Some (Some (next_block w, s), w').
Proof.
  intros Hm Hv Hd.
  unfold d3x_create_settings, c_malloc, fresh_block, osqp_set_default_settings,
    GetDoubleArrayElements, read_doubles, ReleaseDoubleArrayElements, bind, emit, ret.
  cbn. rewrite Hm. cbn. rewrite Hv.
  match goal with
  | |- context [d3x_assign_overrides ?r ?i ?n ?v ?s ?w0] =>
      destruct (d3x_assign_overrides_defined n v r i s w0) as (s' & w' & H)
  end.
  - lia.
  - rewrite !drop_0. exact Hd.
  - rewrite H. eauto.
Qed.

End SettingsFacts.

(** ** The entry point, path by path *)

Section RunFacts.

Variable P : Platform.

Lemma d3x_create_data_inv (c : Call) rd w w' :
  d3x_create_data P (numVar c) (numDual c) (linObjCoeff c)
    (quadObjRowInd c) (quadObjColInd c) (quadObjCoeff c)
    (linConRowInd c) (linConColInd c) (linConCoeff c)
    (linConLower c) (linConUpper c) w = Some (rd, w') ->
  steps w w' (builder_events c (next_block w) rd) (builder_blocks rd) /\
  (forall d, rd = Some d -> data_at (next_block w) d).
Proof.
  unfold d3x_create_data. intros H.
  peel H p w1 H1. apply c_malloc_inv in H1 as [[-> S1]|[-> S1]].
  - peel H q w2 H2. apply GetDoubleArrayElements_inv in H2 as [_ S2].
    peel H l w3 H3. apply GetDoubleArrayElements_inv in H3 as [_ S3].
    peel H u w4 H4. apply GetDoubleArrayElements_inv in H4 as [_ S4].
    peel H A w5 H5. apply d3x_create_csc_inv in H5 as [S5 HA].
    peel H Pm w6 H6. apply d3x_create_csc_inv in H6 as [S6 HP].
    apply ret_inv in H as [-> ->].
    assert (N4 : next_block w4 = (next_block w + 1)%nat).
    { rewrite (steps_next _ _ _ _ S4), (steps_next _ _ _ _ S3),
        (steps_next _ _ _ _ S2), (steps_next _ _ _ _ S1). lia. }
    assert (N5 : next_block w5 = (next_block w + 2 + blocks_of A)%nat).
    { rewrite (steps_next _ _ _ _ S5), N4. lia. }
    rewrite N4 in S5, HA. rewrite N5 in S6, HP.
    chain. split.
    + eapply steps_eq; [eassumption | | cbn; lia].
      cbn [builder_events data_A data_P]. reflexivity.
    + intros d Hd. inversion Hd; subst d. unfold data_at. cbn.
      split; [reflexivity|]. split.
      * intros m Hm. specialize (HA m Hm).
        replace (next_block w + 2)%nat with (S (next_block w + 1)) by lia. exact HA.
      * intros m Hm. specialize (HP m Hm).
        replace (next_block w + 3 + blocks_of A)%nat
          with (S (next_block w + 2 + blocks_of A)) by lia.
        exact HP.
  - peel H u w2 H2. apply emit_inv in H2. apply ret_inv in H as [-> ->].
    chain. split.
    + eapply steps_eq; [eassumption | reflexivity | cbn; lia].
    + discriminate.
Qed.

Lemma d3x_free_data_inv (c : Call) d u w w' :
  d3x_free_data (linObjCoeff c) (linConLower c) (linConUpper c) d w = Some (u, w') ->
  steps w w'
    [EvReleaseDoubles (linObjCoeff c); EvReleaseDoubles (linConLower c);
     EvReleaseDoubles (linConUpper c);
     EvFree (csc_block <$> data_A d); EvFree (csc_block <$> data_P d);
     EvFree (Some (data_block d))] 0.
Proof.
  unfold d3x_free_data, ReleaseDoubleArrayElements, c_free. intros H.
  peel H u1 w1 H1. apply emit_inv in H1.
  peel H u2 w2 H2. apply emit_inv in H2.
  peel H u3 w3 H3. apply emit_inv in H3.
  peel H u4 w4 H4. apply emit_inv in H4.
  peel H u5 w5 H5. apply emit_inv in H5.
  apply emit_inv in H.
  chain. eapply steps_eq; [eassumption | reflexivity | lia].
Qed.

(** The three outcomes of [d3x_create_workspace]. *)
Lemma d3x_create_workspace_inv d s r w w' :
  d3x_create_workspace P d s w = Some (r, w') ->
  (exists exitflag,
     r = None /\ setup_answer P d s = (None, exitflag) /\
     steps w w' [EvSetup None exitflag; EvStderr workspace_message] 0) \/
  (exists init exitflag,
     r = None /\ setup_answer P d s = (Some init, exitflag) /\ exitflag <> 0 /\
     steps w w' [EvSetup (Some (next_block w)) exitflag; EvStderr setup_message;
                 EvCleanup (next_block w)] 1) \/
  (exists init,
     r = Some (mk_workspace (next_block w) d s init.1 init.2) /\
     setup_answer P d s = (Some init, 0) /\
     steps w w' [EvSetup (Some (next_block w)) 0] 1).
Proof.
  unfold d3x_create_workspace, osqp_setup, osqp_cleanup. intros H.
  peel H r0 w1 H1.
  destruct (setup_answer P d s) as [[[sol inf]|] exitflag] eqn:Ha.
  - peel H1 b w2 H2. apply fresh_block_inv in H2 as [-> S2].
    peel H1 u w3 H3. apply emit_inv in H3. apply ret_inv in H1 as [-> ->].
    cbn [fst snd] in H. destruct (Z.eqb_spec exitflag 0) as [->|Hne]; cbn [negb] in H.
    + apply ret_inv in H as [-> ->]. right. right. exists (sol, inf).
      split; [reflexivity|]. split; [reflexivity|]. chain.
      eapply steps_eq; [eassumption | reflexivity | lia].
    + peel H u1 w4 H4. apply emit_inv in H4.
      peel H u2 w5 H5. apply emit_inv in H5. apply ret_inv in H as [-> ->].
      right. left. exists (sol, inf), exitflag.
      split; [reflexivity|]. split; [reflexivity|]. split; [exact Hne|]. chain.
      eapply steps_eq; [eassumption | reflexivity | lia].
  - peel H1 u w2 H2. apply emit_inv in H2. apply ret_inv in H1 as [-> ->].
    cbn [fst snd] in H.
    peel H u1 w3 H3. apply emit_inv in H3. apply ret_inv in H as [-> ->].
    left. exists exitflag. split; [reflexivity|]. split; [reflexivity|]. chain.
    eapply steps_eq; [eassumption | reflexivity | lia].
Qed.

Lemma osqp_solve_inv work r w w' :
  osqp_solve P work w = Some (r, w') ->
  exists exitflag sol inf,
    solve_answer P work = (exitflag, sol, inf) /\
    r = (exitflag, mk_workspace (work_block work) (work_data work)
                     (work_settings work) sol inf) /\
    steps w w' [EvSolve (work_block work) exitflag sol inf] 0.
Proof.
  unfold osqp_solve. intros H.
  destruct (solve_answer P work) as [[exitflag sol] inf].
  peel H u w1 H1. apply emit_inv in H1. apply ret_inv in H as [-> ->].
  exists exitflag, sol, inf. auto.
Qed.

Lemma open_log_inv (c : Call) u w w' :
  (if 0 <? Z.of_nat (String.length (logName c)) then
     rawLogName <- GetStringUTFChars (logName c) ;;
     osqp_open_log rawLogName ;;
     ReleaseStringUTFChars (logName c) rawLogName
   else ret tt) w = Some (u, w') ->
  steps w w' (log_events c) 0.
Proof.
  unfold GetStringUTFChars, osqp_open_log, ReleaseStringUTFChars, log_events.
  intros H. destruct (0 <? Z.of_nat (String.length (logName c))).
  - peel H raw w1 H1. peel H1 u1 w2 H2. apply emit_inv in H2.
    apply ret_inv in H1 as [-> ->].
    peel H u2 w3 H3. apply emit_inv in H3. apply emit_inv in H.
    chain. eapply steps_eq; [eassumption | reflexivity | lia].
  - apply ret_inv in H as [-> ->]. apply steps_refl.
Qed.

Lemma teardown_inv (c : Call) work sb d (status st : Z) w w' :
  (osqp_cleanup work ;;
   c_free (Some sb) ;;
   d3x_free_data (linObjCoeff c) (linConLower c) (linConUpper c) d ;;
   osqp_close_log ;;
   ret (to_jint status)) w = Some (st, w') ->
  st = to_jint status /\ steps w w' (teardown_events c (work_block work) sb d) 0.
Proof.
  unfold osqp_cleanup, c_free, osqp_close_log. intros H.
  peel H u1 w1 H1. apply emit_inv in H1.
  peel H u2 w2 H2. apply emit_inv in H2.
  peel H u3 w3 H3. apply d3x_free_data_inv in H3.
  peel H u4 w4 H4. apply emit_inv in H4.
  apply ret_inv in H as [-> ->]. split; [reflexivity|].
  chain. eapply steps_eq; [eassumption | reflexivity | lia].
Qed.

(** Every defined run of the entry point follows one of the paths. *)
Lemma run_inv (c : Call) st w w' :
  run P c w = Some (st, w') -> run_path P c w st w'.
Proof.
  unfold run, Java_com_d3x_osqp_OsqpModel_run. intros H.
  destruct (Z.eqb_spec (sizeof_c_int P) (sizeof_long P)) as [Hi|Hi]; cbn [negb] in H.
  2: { peel H u w1 H1. apply emit_inv in H1. apply ret_inv in H as [-> ->].
       apply path_int_width; assumption. }
  destruct (Z.eqb_spec (sizeof_c_float P) (sizeof_double P)) as [Hf|Hf]; cbn [negb] in H.
  2: { peel H u w1 H1. apply emit_inv in H1. apply ret_inv in H as [-> ->].
       apply path_float_width; assumption. }
  peel H rd w1 H1. apply d3x_create_data_inv in H1 as [S1 Hd].
  peel H rs w2 H2. pose proof (steps_next _ _ _ _ S1) as N1.
  apply d3x_create_settings_inv in H2 as [[-> S2] | (s & vals & -> & Hv & Hr & S2)].
  { assert (H' : ret (to_jint SETUP_ERROR) w2 = Some (st, w')) by (destruct rd; exact H).
    apply ret_inv in H' as [-> ->].
    eapply (path_alloc_failed P c w rd None);
      [right; reflexivity | exact Hd |].
    exact (steps_trans _ _ _ _ _ _ _ S1 S2). }
  destruct rd as [d|].
  2: { apply ret_inv in H as [-> ->].
       eapply (path_alloc_failed P c w None (Some (next_block w1, s)));
         [left; reflexivity | exact Hd |].
       eapply steps_eq; [exact (steps_trans _ _ _ _ _ _ _ S1 S2) | | reflexivity].
       rewrite N1. reflexivity. }
  specialize (Hd d eq_refl). rewrite N1 in *.
  set (sb := (next_block w + builder_blocks (Some d))%nat) in *.
  peel H len w3 H3. apply ret_inv in H3 as [-> ->].
  peel H u w3 H3. apply open_log_inv in H3.
  pose proof (steps_trans _ _ _ _ _ _ _ (steps_trans _ _ _ _ _ _ _ S1 S2) H3) as S3.
  pose proof (steps_next _ _ _ _ S3) as N3.
  assert (Hprep : steps w w3 (prepared_events c (next_block w) d (sb, s))
                    (builder_blocks (Some d) + 1)).
  { eapply steps_eq; [exact S3 | | lia].
    unfold prepared_events, resolver_events. fold sb.
    rewrite <- ?app_assoc. reflexivity. }
  assert (N3' : next_block w3 = S sb) by (subst sb; lia).
  clear S1 S2 H3 S3 N3.
  peel H work w4 H4.
  apply d3x_create_workspace_inv in H4
    as [(ef & -> & Ha & S4) | [(init & ef & -> & Ha & Hne & S4) | (init & -> & Ha & S4)]].
  - peel H u1 w5 H5. apply emit_inv in H5. apply ret_inv in H as [-> ->].
    eapply (path_no_workspace P c w d sb s ef); [exact Hd | reflexivity | exact Ha |].
    chain. eapply steps_eq; [eassumption | | reflexivity].
    rewrite <- ?app_assoc. reflexivity.
  - peel H u1 w5 H5. apply emit_inv in H5. apply ret_inv in H as [-> ->].
    rewrite N3' in S4.
    eapply (path_setup_rejected P c w d sb s (S sb) init ef);
      [exact Hd | reflexivity | reflexivity | exact Ha | exact Hne |].
    chain. eapply steps_eq; [eassumption | | reflexivity].
    rewrite <- ?app_assoc. reflexivity.
  - rewrite N3' in *.
    peel H r w5 H5. apply osqp_solve_inv in H5 as (ef & sol & inf & Hs & -> & S5).
    cbn [fst snd work_block solution info x y status_val] in *.
    destruct (Z.eqb_spec ef 0) as [->|Hne].
    + peel H st0 w6 H6.
      peel H6 u1 w7 H7. peel H6 u2 w8 H8. apply ret_inv in H6 as [-> ->].
      destruct u1, u2.
      apply teardown_inv in H as [-> H9]. cbn [work_block] in H9.
      eapply (path_solved P c w d sb s (S sb) init sol inf);
        [exact Hd | reflexivity | reflexivity | exact Ha | exact Hs | | exact H7
        | exact H8 | exact H9].
      chain. eapply steps_eq; [eassumption | | reflexivity].
      rewrite <- ?app_assoc. reflexivity.
    + peel H st0 w6 H6. apply ret_inv in H6 as [-> ->].
      apply teardown_inv in H as [-> H9]. cbn [work_block] in H9.
      eapply (path_solve_error P c w d sb s (S sb) init ef sol inf);
        [exact Hd | reflexivity | reflexivity | exact Ha | exact Hs | exact Hne |].
      chain. eapply steps_eq; [eassumption | | reflexivity].
      rewrite <- ?app_assoc. reflexivity.
Qed.

End RunFacts.

(** ** Traces of the entry point *)

Lemma SetDoubleArrayRegion_trace a start len buf u w w' :
  SetDoubleArrayRegion a start len buf w = Some (u, w') ->
  exists e, trace w' = trace w ++ [e] /\ copy_event e = true.
Proof.
  unfold SetDoubleArrayRegion. intros H.
  destruct (exception_pending w); [discriminate|].
  destruct (jdoubles w !! a) as [arr|]; [|discriminate].
  destruct ((0 <=? start) && (0 <=? len) && (start + len <=? Z.of_nat (length arr))).
  - destruct (Z.of_nat (length buf) <? len); [discriminate|].
    inversion H; subst; cbn. eauto.
  - unfold emit in H. inversion H; subst; cbn. eauto.
Qed.

(** A region copy that lies inside the array and inside the buffer puts
    the first [len] elements of the buffer over the first [len] elements of
    the array. *)
Lemma SetDoubleArrayRegion_inside a len buf arr u w w' :
  SetDoubleArrayRegion a 0 len buf w = Some (u, w') ->
  jdoubles w !! a = Some arr ->
  0 <= len <= Z.of_nat (length arr) ->
  (Z.to_nat len <= length buf)%nat /\
  jdoubles w' = <[a := take (Z.to_nat len) buf ++ drop (Z.to_nat len) arr]> (jdoubles w).
Proof.
  unfold SetDoubleArrayRegion. intros H Ha Hlen.
  destruct (exception_pending w); [discriminate|]. rewrite Ha in H.
  replace ((0 <=? 0) && (0 <=? len) && (0 + len <=? Z.of_nat (length arr))) with true in H.
  2: { symmetry. rewrite !andb_true_iff, !Z.leb_le. lia. }
  destruct (Z.ltb_spec (Z.of_nat (length buf)) len) as [|Hb]; [discriminate|].
  inversion H; subst; cbn. split; [lia|]. reflexivity.
Qed.

(** Outside the array nothing is copied. *)
Lemma SetDoubleArrayRegion_outside a start len buf arr u w w' :
  SetDoubleArrayRegion a start len buf w = Some (u, w') ->
  jdoubles w !! a = Some arr ->
  (0 <=? start) && (0 <=? len) && (start + len <=? Z.of_nat (length arr)) = false ->
  jdoubles w' = jdoubles w.
Proof.
  unfold SetDoubleArrayRegion. intros H Ha Hlen.
  destruct (exception_pending w); [discriminate|]. rewrite Ha, Hlen in H.
  unfold emit in H. inversion H; subst; cbn. reflexivity.
Qed.

Lemma csc_events_quiet ri ci co tb r e :
  In e (csc_events ri ci co tb r) -> quiet_event e = true.
Proof.
  unfold csc_events, matrix_allocs, store_blocks.
  destruct r as [m|]; [destruct (csc_store m) as [[[bp bi] bx]|]|]; cbn; intros H;
    repeat (destruct H as [<-|H]; [reflexivity|]); destruct H.
Qed.

Lemma settings_events_quiet names e :
  In e (settings_events names) -> quiet_event e = true.
Proof.
  unfold settings_events. rewrite in_flat_map. intros (n & _ & H).
  unfold setting_events in H. destruct (recognized n); cbn in H;
    repeat (destruct H as [<-|H]; [reflexivity|]); destruct H.
Qed.

Lemma builder_events_quiet c db rd e :
  In e (builder_events c db rd) -> quiet_event e = true.
Proof.
  destruct rd as [d|]; cbn [builder_events].
  - rewrite !in_app_iff. intros [H|[H|H]].
    + cbn in H. repeat (destruct H as [<-|H]; [reflexivity|]). destruct H.
    + eapply csc_events_quiet; eassumption.
    + eapply csc_events_quiet; eassumption.
  - cbn. intros [<-|[]]. reflexivity.
Qed.

Lemma resolver_events_quiet c sb rs e :
  In e (resolver_events c sb rs) -> quiet_event e = true.
Proof.
  destruct rs as [p|]; cbn [resolver_events].
  - rewrite !in_app_iff. intros [H|[H|H]].
    + cbn in H. repeat (destruct H as [<-|H]; [reflexivity|]). destruct H.
    + eapply settings_events_quiet; eassumption.
    + cbn in H. repeat (destruct H as [<-|H]; [reflexivity|]). destruct H.
  - cbn. intros [<-|[]]. reflexivity.
Qed.

Lemma log_events_quiet c e : In e (log_events c) -> quiet_event e = true.
Proof.
  unfold log_events. destruct (0 <? Z.of_nat (String.length (logName c))); cbn; intros H;
    repeat (destruct H as [<-|H]; [reflexivity|]); destruct H.
Qed.

Lemma prepared_events_quiet c db d rs e :
  In e (prepared_events c db d rs) -> quiet_event e = true.
Proof.
  unfold prepared_events. rewrite !in_app_iff. intros [H|[H|H]].
  - eapply builder_events_quiet; eassumption.
  - eapply resolver_events_quiet; eassumption.
  - eapply log_events_quiet; eassumption.
Qed.

(** The shape of every run that reaches the solve step. *)
Lemma run_reaches_solve P (c : Call) st w w' evs wb exitflag sol inf :
  run P c w = Some (st, w') ->
  trace w' = trace w ++ evs ->
  In (EvSolve wb exitflag sol inf) evs ->
  exists d sb s copies,
    data_at (next_block w) d /\
    sb = (next_block w + builder_blocks (Some d))%nat /\
    evs = prepared_events c (next_block w) d (sb, s)
          ++ [EvSetup (Some wb) 0; EvSolve wb exitflag sol inf]
          ++ copies ++ teardown_events c wb sb d /\
    (forall e, In e copies -> copy_event e = true) /\
    st = to_jint (solver_code exitflag inf) /\
    (exitflag <> 0 -> copies = [] /\ jdoubles w' = jdoubles w) /\
    (exitflag = 0 ->
     exists w1 w2 w3,
       jdoubles w1 = jdoubles w /\
       SetDoubleArrayRegion (optPrimal c) 0 (to_jint (numVar c)) (x sol) w1 = Some (tt, w2) /\
       SetDoubleArrayRegion (optDual c) 0 (to_jint (numDual c)) (y sol) w2 = Some (tt, w3) /\
       jdoubles w' = jdoubles w3).
Proof.
  intros Hrun Htr Hin. apply run_inv in Hrun.
  destruct Hrun as
    [ w' Hw S | w' Hw1 Hw2 S | rd rs k w' Hn Hd S
    | d sb s ef k w' Hd Hsb Ha S | d sb s wb' init ef k w' Hd Hsb Hwb Ha Hne S
    | d sb s wb' init ef sol' inf' k w' Hd Hsb Hwb Ha Hs Hne S
    | d sb s wb' init sol' inf' k w1 w2 w3 w' Hd Hsb Hwb Ha Hs S H2 H3 S' ].
  - destruct S as (_ & _ & S & _). rewrite S in Htr. apply app_inv_head in Htr. subst evs.
    cbn in Hin. destruct Hin as [Hin|[]]. discriminate.
  - destruct S as (_ & _ & S & _). rewrite S in Htr. apply app_inv_head in Htr. subst evs.
    cbn in Hin. destruct Hin as [Hin|[]]. discriminate.
  - destruct S as (_ & _ & S & _). rewrite S in Htr. apply app_inv_head in Htr. subst evs.
    apply in_app_iff in Hin as [Hin|Hin].
    + apply builder_events_quiet in Hin. discriminate Hin.
    + apply resolver_events_quiet in Hin. discriminate Hin.
  - destruct S as (_ & _ & S & _). rewrite S in Htr. apply app_inv_head in Htr. subst evs.
    apply in_app_iff in Hin as [Hin|Hin].
    + apply prepared_events_quiet in Hin. discriminate Hin.
    + cbn in Hin. repeat (destruct Hin as [Hin|Hin]; [discriminate|]). destruct Hin.
  - destruct S as (_ & _ & S & _). rewrite S in Htr. apply app_inv_head in Htr. subst evs.
    apply in_app_iff in Hin as [Hin|Hin].
    + apply prepared_events_quiet in Hin. discriminate Hin.
    + cbn in Hin. repeat (destruct Hin as [Hin|Hin]; [discriminate|]). destruct Hin.
  - pose proof S as (Hj & _ & S0 & _).
    rewrite S0 in Htr. apply app_inv_head in Htr. subst evs.
    assert (He : EvSolve wb' ef sol' inf' = EvSolve wb exitflag sol inf).
    { apply in_app_iff in Hin as [Hin|Hin].
      - apply prepared_events_quiet in Hin. discriminate Hin.
      - cbn in Hin. destruct Hin as [Hin|[Hin|Hin]]; [discriminate | exact Hin |].
        repeat (destruct Hin as [Hin|Hin]; [discriminate|]). destruct Hin. }
    inversion He; subst wb' ef sol' inf'. clear He.
    exists d, sb, s, []. split; [exact Hd|]. split; [exact Hsb|].
    split; [reflexivity|]. split; [intros e []|]. split.
    { unfold solver_code. destruct (Z.eqb_spec exitflag 0); [contradiction|reflexivity]. }
    split; [intros _; split; [reflexivity | exact Hj] | contradiction].
  - destruct (SetDoubleArrayRegion_trace _ _ _ _ _ _ _ H2) as (e1 & T1 & C1).
    destruct (SetDoubleArrayRegion_trace _ _ _ _ _ _ _ H3) as (e2 & T2 & C2).
    destruct S as (Hj & _ & S0 & _). destruct S' as (Hj' & _ & S1 & _).
    rewrite S1, T2, T1, S0, <- !app_assoc in Htr.
    apply app_inv_head in Htr. subst evs.
    assert (He : EvSolve wb' 0 sol' inf' = EvSolve wb exitflag sol inf).
    { apply in_app_iff in Hin as [Hin|Hin].
      - apply prepared_events_quiet in Hin. discriminate Hin.
      - cbn in Hin. destruct Hin as [Hin|[Hin|[Hin|[Hin|Hin]]]];
          [discriminate | exact Hin | rewrite Hin in C1; discriminate
          | rewrite Hin in C2; discriminate |].
        repeat (destruct Hin as [Hin|Hin]; [discriminate|]). destruct Hin. }
    inversion He; subst wb' exitflag sol' inf'. clear He.
    exists d, sb, s, [e1; e2]. split; [exact Hd|]. split; [exact Hsb|].
    split; [reflexivity|]. split.
    { intros e [<-|[<-|[]]]; assumption. }
    split; [reflexivity|]. split; [intros Hne; contradiction|].
    intros _. exists w1, w2, w3. auto.
Qed.

(** A run in which [osqp_setup] stored a workspace and reported success
    goes on to the solve step. *)
Lemma setup_success_reaches_solve P (c : Call) st w w' evs wb :
  run P c w = Some (st, w') ->
  trace w' = trace w ++ evs ->
  In (EvSetup (Some wb) 0) evs ->
  exists exitflag sol inf, In (EvSolve wb exitflag sol inf) evs.
Proof.
  intros Hrun Htr Hin. apply run_inv in Hrun.
  destruct Hrun as
    [ w' Hw S | w' Hw1 Hw2 S | rd rs k w' Hn Hd S
    | d sb s ef k w' Hd Hsb Ha S | d sb s wb' init ef k w' Hd Hsb Hwb Ha Hne S
    | d sb s wb' init ef sol' inf' k w' Hd Hsb Hwb Ha Hs Hne S
    | d sb s wb' init sol' inf' k w1 w2 w3 w' Hd Hsb Hwb Ha Hs S H2 H3 S' ].
  - destruct S as (_ & _ & S & _). rewrite S in Htr. apply app_inv_head in Htr. subst evs.
    cbn in Hin. destruct Hin as [Hin|[]]. discriminate.
  - destruct S as (_ & _ & S & _). rewrite S in Htr. apply app_inv_head in Htr. subst evs.
    cbn in Hin. destruct Hin as [Hin|[]]. discriminate.
  - destruct S as (_ & _ & S & _). rewrite S in Htr. apply app_inv_head in Htr. subst evs.
    apply in_app_iff in Hin as [Hin|Hin].
    + apply builder_events_quiet in Hin. discriminate Hin.
    + apply resolver_events_quiet in Hin. discriminate Hin.
  - destruct S as (_ & _ & S & _). rewrite S in Htr. apply app_inv_head in Htr. subst evs.
    apply in_app_iff in Hin as [Hin|Hin].
    + apply prepared_events_quiet in Hin. discriminate Hin.
    + cbn in Hin. repeat (destruct Hin as [Hin|Hin]; [discriminate|]). destruct Hin.
  - destruct S as (_ & _ & S & _). rewrite S in Htr. apply app_inv_head in Htr. subst evs.
    apply in_app_iff in Hin as [Hin|Hin].
    + apply prepared_events_quiet in Hin. discriminate Hin.
    + cbn in Hin. destruct Hin as [Hin|Hin].
      * inversion Hin. contradiction.
      * repeat (destruct Hin as [Hin|Hin]; [discriminate|]). destruct Hin.
  - destruct S as (_ & _ & S & _). rewrite S in Htr. apply app_inv_head in Htr. subst evs.
    assert (wb' = wb) as ->.
    { apply in_app_iff in Hin as [Hin|Hin].
      - apply prepared_events_quiet in Hin. discriminate Hin.
      - cbn in Hin. destruct Hin as [Hin|Hin]; [inversion Hin; reflexivity|].
        repeat (destruct Hin as [Hin|Hin]; [discriminate|]). destruct Hin. }
    exists ef, sol', inf'. rewrite in_app_iff. right. cbn. auto.
  - destruct (SetDoubleArrayRegion_trace _ _ _ _ _ _ _ H2) as (e1 & T1 & C1).
    destruct (SetDoubleArrayRegion_trace _ _ _ _ _ _ _ H3) as (e2 & T2 & C2).
    destruct S as (_ & _ & S0 & _). destruct S' as (_ & _ & S1 & _).
    rewrite S1, T2, T1, S0, <- !app_assoc in Htr.
    apply app_inv_head in Htr. subst evs.
    assert (wb' = wb) as ->.
    { apply in_app_iff in Hin as [Hin|Hin].
      - apply prepared_events_quiet in Hin. discriminate Hin.
      - cbn in Hin. destruct Hin as [Hin|[Hin|[Hin|[Hin|Hin]]]];
          [inversion Hin; reflexivity | discriminate | rewrite Hin in C1; discriminate
          | rewrite Hin in C2; discriminate |].
        repeat (destruct Hin as [Hin|Hin]; [discriminate|]). destruct Hin. }
    exists 0, sol', inf'. rewrite in_app_iff. right. cbn. auto.
Qed.

(** ** Resource accounting *)

Lemma balance_app r l1 l2 : balance r (l1 ++ l2) = balance r l1 + balance r l2.
Proof.
  induction l1 as [|e l1 IH]; cbn [balance app]; [reflexivity|]. rewrite IH. lia.
Qed.

Lemma balance_csc_events r ri ci co tb m :
  balance r (csc_events ri ci co tb m) = held_block r m.
Proof.
  unfold csc_events, held_block, held_struct, held_arrays, matrix_allocs, store_blocks.
  destruct m as [m|]; [destruct (csc_store m) as [[[bp bi] bx]|]|];
    cbn [balance delta app map]; lia.
Qed.

Lemma balance_settings_events r names : balance r (settings_events names) = 0.
Proof.
  unfold settings_events. induction names as [|n names IH]; cbn [flat_map balance].
  - reflexivity.
  - rewrite balance_app, IH. unfold setting_events.
    destruct (recognized n); cbn [balance delta app]; lia.
Qed.

Lemma balance_log_events r c : balance r (log_events c) = 0.
Proof.
  unfold log_events. destruct (0 <? Z.of_nat (String.length (logName c)));
    cbn [balance delta]; lia.
Qed.

Lemma balance_copies r copies :
  (forall e, In e copies -> copy_event e = true) -> balance r copies = 0.
Proof.
  induction copies as [|e copies IH]; intros H; cbn [balance]; [reflexivity|].
  rewrite IH by (intros e' He'; apply H; right; exact He').
  specialize (H e (or_introl eq_refl)).
  destruct e; cbn in H; try discriminate; reflexivity.
Qed.

(** After the preparation, exactly the settings block and the resources of
    the problem instance are held. *)
Lemma balance_prepared_events r c db d sb s :
  data_block d = db ->
  balance r (prepared_events c db d (sb, s))
  = ind (bool_decide (r = RBlock (data_block d)))
    + ind (bool_decide (r = RDoubles (linObjCoeff c)))
    + ind (bool_decide (r = RDoubles (linConLower c)))
    + ind (bool_decide (r = RDoubles (linConUpper c)))
    + held_block r (data_A d) + held_block r (data_P d)
    + ind (bool_decide (r = RBlock (db + builder_blocks (Some d))%nat)).
Proof.
  intros <-. unfold prepared_events, builder_events, resolver_events.
  rewrite !balance_app, !balance_csc_events, balance_settings_events, balance_log_events.
  cbn [balance delta]. lia.
Qed.

Lemma balance_teardown_events r c wb sb d :
  balance r (teardown_events c wb sb d)
  = - (ind (bool_decide (r = RBlock wb)) + ind (bool_decide (r = RBlock sb))
       + ind (bool_decide (r = RBlock (data_block d)))
       + ind (bool_decide (r = RDoubles (linObjCoeff c)))
       + ind (bool_decide (r = RDoubles (linConLower c)))
       + ind (bool_decide (r = RDoubles (linConUpper c)))
       + held_struct r (data_A d) + held_struct r (data_P d)).
Proof.
  unfold teardown_events, held_struct.
  destruct (data_A d), (data_P d); cbn [balance delta fmap option_fmap option_map]; lia.
Qed.

Lemma ind_nonneg b : 0 <= ind b.
Proof. destruct b; cbn; lia. Qed.

Lemma held_struct_nonneg r m : 0 <= held_struct r m.
Proof. destruct m; cbn; [apply ind_nonneg | lia]. Qed.

Lemma held_arrays_nonneg r m : 0 <= held_arrays r m.
Proof.
  unfold held_arrays. destruct m as [m|]; [|lia].
  destruct (csc_store m) as [[[bp bi] bx]|]; [|lia].
  pose proof (ind_nonneg (bool_decide (r = RBlock bp))).
  pose proof (ind_nonneg (bool_decide (r = RBlock bi))).
  pose proof (ind_nonneg (bool_decide (r = RBlock bx))).
  lia.
Qed.

Lemma held_block_nonneg r m : 0 <= held_block r m.
Proof.
  unfold held_block. pose proof (held_struct_nonneg r m).
  pose proof (held_arrays_nonneg r m). lia.
Qed.

Lemma ind_refl (r : resource) : ind (bool_decide (r = r)) = 1.
Proof. rewrite bool_decide_eq_true_2; reflexivity. Qed.

(** ** Region copies *)

(** A region copy changes the array it is given and no other, and no
    array changes its length. *)
Lemma SetDoubleArrayRegion_frame a start len buf u w w' :
  SetDoubleArrayRegion a start len buf w = Some (u, w') ->
  jlongs w' = jlongs w /\ next_block w' = next_block w /\
  (forall b, b <> a -> jdoubles w' !! b = jdoubles w !! b) /\
  (forall b, length <$> (jdoubles w' !! b) = length <$> (jdoubles w !! b)).
Proof.
  unfold SetDoubleArrayRegion. intros H.
  destruct (exception_pending w); [discriminate|].
  destruct (jdoubles w !! a) as [arr|] eqn:Ha; [|discriminate].
  destruct ((0 <=? start) && (0 <=? len) && (start + len <=? Z.of_nat (length arr)))
    eqn:Hin.
  - destruct (Z.ltb_spec (Z.of_nat (length buf)) len) as [|Hb]; [discriminate|].
    inversion H; subst; cbn. clear H.
    rewrite !andb_true_iff, !Z.leb_le in Hin. destruct Hin as [[H0 H1] H2].
    repeat split; try reflexivity.
    + intros b Hb'. apply lookup_insert_ne. congruence.
    + intros b. destruct (decide (b = a)) as [->|Hne].
      * rewrite lookup_insert_eq, Ha. cbn. f_equal.
        rewrite !length_app, !length_take, length_drop. lia.
      * rewrite lookup_insert_ne by congruence. reflexivity.
  - unfold emit in H. inversion H; subst; cbn. repeat split; reflexivity.
Qed.

(** The call a region copy from offset 0 leaves in the trace. *)
Lemma SetDoubleArrayRegion_event a len buf u w w' arr :
  SetDoubleArrayRegion a 0 len buf w = Some (u, w') ->
  jdoubles w !! a = Some arr ->
  trace w' = trace w ++ [copy_outcome a len (length arr)].
Proof.
  unfold SetDoubleArrayRegion, copy_outcome. intros H Ha.
  destruct (exception_pending w); [discriminate|]. rewrite Ha in H.
  change (0 <=? 0) with true in H. cbn [andb] in H.
  rewrite Z.add_0_l in H.
  destruct ((0 <=? len) && (len <=? Z.of_nat (length arr))).
  - destruct (Z.of_nat (length buf) <? len); [discriminate|].
    inversion H; subst; cbn. reflexivity.
  - unfold emit in H. inversion H; subst; cbn. reflexivity.
Qed.

Lemma SetDoubleArrayRegion_array a start len buf u w w' :
  SetDoubleArrayRegion a start len buf w = Some (u, w') ->
  is_Some (jdoubles w !! a).
Proof.
  unfold SetDoubleArrayRegion. intros H.
  destruct (exception_pending w); [discriminate|].
  destruct (jdoubles w !! a); [eauto | discriminate].
Qed.

(** A region copy is made with no exception pending. *)
Lemma SetDoubleArrayRegion_calm a start len buf u w w' :
  SetDoubleArrayRegion a start len buf w = Some (u, w') ->
  exception_pending w = false.
Proof.
  unfold SetDoubleArrayRegion. intros H.
  destruct (exception_pending w); [discriminate | reflexivity].
Qed.

(** ** The sequences of calls *)

Lemma run_events_inv P (c : Call) st w w' evs :
  run P c w = Some (st, w') ->
  trace w' = trace w ++ evs ->
  run_events c w st evs.
Proof.
  intros Hrun Htr. apply run_inv in Hrun.
  destruct Hrun as
    [ w' Hw S | w' Hw1 Hw2 S | rd rs k w' Hn Hd S
    | d sb s ef k w' Hd Hsb Ha S | d sb s wb init ef k w' Hd Hsb Hwb Ha Hne S
    | d sb s wb init ef sol inf k w' Hd Hsb Hwb Ha Hs Hne S
    | d sb s wb init sol inf k w1 w2 w3 w' Hd Hsb Hwb Ha Hs S H2 H3 S' ].
  - destruct S as (_ & _ & S & _). rewrite S in Htr. apply app_inv_head in Htr. subst evs.
    constructor.
  - destruct S as (_ & _ & S & _). rewrite S in Htr. apply app_inv_head in Htr. subst evs.
    constructor.
  - destruct S as (_ & _ & S & _). rewrite S in Htr. apply app_inv_head in Htr. subst evs.
    apply events_alloc_failed; [exact Hn|]. intros d E. exact (proj1 (Hd d E)).
  - destruct S as (_ & _ & S & _). rewrite S in Htr. apply app_inv_head in Htr. subst evs.
    apply events_no_workspace; [exact (proj1 Hd) | exact Hsb].
  - destruct S as (_ & _ & S & _). rewrite S in Htr. apply app_inv_head in Htr. subst evs.
    apply events_setup_rejected; [exact (proj1 Hd) | exact Hsb | exact Hne].
  - destruct S as (_ & _ & S & _). rewrite S in Htr. apply app_inv_head in Htr. subst evs.
    apply events_solve_error; [exact (proj1 Hd) | exact Hsb | exact Hne].
  - destruct (SetDoubleArrayRegion_array _ _ _ _ _ _ _ H2) as [primal Hp].
    destruct (SetDoubleArrayRegion_array _ _ _ _ _ _ _ H3) as [dual2 Hd2].
    pose proof (SetDoubleArrayRegion_event _ _ _ _ _ _ _ H2 Hp) as T1.
    pose proof (SetDoubleArrayRegion_event _ _ _ _ _ _ _ H3 Hd2) as T2.
    destruct (SetDoubleArrayRegion_frame _ _ _ _ _ _ _ H2) as (_ & _ & _ & L2).
    destruct S as (J0 & _ & S0 & _). destruct S' as (_ & _ & S1 & _).
    specialize (L2 (optDual c)). rewrite Hd2, J0 in L2. rewrite J0 in Hp.
    destruct (jdoubles w !! optDual c) as [dual|] eqn:Hdual; [|discriminate L2].
    cbn in L2. injection L2 as L2. rewrite L2 in T2.
    assert (Hroom : (0 <=? to_jint (numVar c))
                    && (to_jint (numVar c) <=? Z.of_nat (length primal)) = true).
    { pose proof (SetDoubleArrayRegion_calm _ _ _ _ _ _ _ H3) as Hcalm.
      unfold exception_pending in Hcalm. rewrite T1, existsb_app in Hcalm.
      apply orb_false_iff in Hcalm as [_ Hcalm]. unfold copy_outcome in Hcalm.
      destruct ((0 <=? to_jint (numVar c))
                && (to_jint (numVar c) <=? Z.of_nat (length primal)));
        [reflexivity | discriminate Hcalm]. }
    unfold copy_outcome in T1 at 1. rewrite Hroom in T1.
    apply andb_true_iff in Hroom as [R1 R2]. apply Z.leb_le in R1, R2.
    rewrite S1, T2, T1, S0, <- !app_assoc in Htr.
    apply app_inv_head in Htr. subst evs.
    eapply (events_solved c w d sb s wb sol inf primal dual);
      [exact (proj1 Hd) | exact Hsb | exact Hp | exact Hdual | split; assumption].
Qed.

(** ** Housekeeping calls *)

Lemma csc_events_housekeeping ri ci co tb r :
  forallb housekeeping_event (csc_events ri ci co tb r) = true.
Proof.
  unfold csc_events, matrix_allocs, store_blocks.
  destruct r as [m|]; [destruct (csc_store m) as [[[bp bi] bx]|]|]; reflexivity.
Qed.

Lemma settings_events_housekeeping names :
  forallb housekeeping_event (settings_events names) = true.
Proof.
  unfold settings_events. induction names as [|n names IH]; cbn [flat_map]; [reflexivity|].
  rewrite forallb_app, IH. unfold setting_events. destruct (recognized n); reflexivity.
Qed.

Lemma builder_events_housekeeping c db rd :
  forallb housekeeping_event (builder_events c db rd) = true.
Proof.
  destruct rd as [d|]; [|reflexivity]. unfold builder_events.
  rewrite !forallb_app, !csc_events_housekeeping. reflexivity.
Qed.

Lemma resolver_events_housekeeping c sb rs :
  forallb housekeeping_event (resolver_events c sb rs) = true.
Proof.
  destruct rs; [|reflexivity]. unfold resolver_events.
  rewrite !forallb_app, settings_events_housekeeping. reflexivity.
Qed.

Lemma filter_housekeeping (f : event -> bool) l :
  (forall e, housekeeping_event e = true -> f e = false) ->
  forallb housekeeping_event l = true -> List.filter f l = [].
Proof.
  intros Hf. induction l as [|e l IH]; cbn [forallb List.filter]; [reflexivity|].
  intros H. apply andb_true_iff in H as [He Hl]. rewrite (Hf e He). auto.
Qed.

Lemma existsb_housekeeping (f : event -> bool) l :
  (forall e, housekeeping_event e = true -> f e = false) ->
  forallb housekeeping_event l = true -> existsb f l = false.
Proof.
  intros Hf. induction l as [|e l IH]; cbn [forallb existsb]; [reflexivity|].
  intros H. apply andb_true_iff in H as [He Hl]. rewrite (Hf e He). auto.
Qed.

Lemma housekeeping_not_solver e : housekeeping_event e = true -> solver_event e = false.
Proof. destruct e; cbn; congruence. Qed.

Lemma housekeeping_not_log e : housekeeping_event e = true -> log_event e = false.
Proof. destruct e; cbn; congruence. Qed.

Lemma housekeeping_not_solve e : housekeeping_event e = true -> solve_event e = false.
Proof. destruct e; cbn; congruence. Qed.

Lemma housekeeping_not_setup e : housekeeping_event e = true -> setup_event e = false.
Proof. destruct e; cbn; congruence. Qed.

Lemma filter_prepared_events (f : event -> bool) c db d rs :
  (forall e, housekeeping_event e = true -> f e = false) ->
  List.filter f (prepared_events c db d rs) = List.filter f (log_events c).
Proof.
  intros Hf. unfold prepared_events. rewrite !List.filter_app.
  rewrite (filter_housekeeping f _ Hf (builder_events_housekeeping _ _ _)).
  rewrite (filter_housekeeping f _ Hf (resolver_events_housekeeping _ _ _)).
  reflexivity.
Qed.

Lemma existsb_prepared_events (f : event -> bool) c db d rs :
  (forall e, housekeeping_event e = true -> f e = false) ->
  existsb f (prepared_events c db d rs) = existsb f (log_events c).
Proof.
  intros Hf. unfold prepared_events. rewrite !existsb_app.
  rewrite (existsb_housekeeping f _ Hf (builder_events_housekeeping _ _ _)).
  rewrite (existsb_housekeeping f _ Hf (resolver_events_housekeeping _ _ _)).
  reflexivity.
Qed.

Lemma filter_solver_log_events c : List.filter solver_event (log_events c) = [].
Proof. unfold log_events. destruct (0 <? _); reflexivity. Qed.

Lemma filter_log_log_events c : List.filter log_event (log_events c) = opened_log c.
Proof. unfold log_events, opened_log. destruct (0 <? _); reflexivity. Qed.

Lemma existsb_solve_log_events c : existsb solve_event (log_events c) = false.
Proof. unfold log_events. destruct (0 <? _); reflexivity. Qed.

Lemma existsb_setup_log_events c : existsb setup_event (log_events c) = false.
Proof. unfold log_events. destruct (0 <? _); reflexivity. Qed.

(** ** Exceptions raised during a call *)

Lemma raised_app l1 l2 :
  raised (l1 ++ l2) = match raised l1 with Some exn => Some exn | None => raised l2 end.
Proof.
  induction l1 as [|e l1 IH]; cbn [app raised]; [reflexivity|].
  destruct e; try exact IH. reflexivity.
Qed.

Lemma raised_housekeeping l : forallb housekeeping_event l = true -> raised l = None.
Proof.
  induction l as [|e l IH]; cbn [forallb raised]; [reflexivity|].
  intros H. apply andb_true_iff in H as [He Hl].
  destruct e; try discriminate He; exact (IH Hl).
Qed.

Lemma raised_prepared_events c db d rs : raised (prepared_events c db d rs) = None.
Proof.
  unfold prepared_events.
  rewrite !raised_app, (raised_housekeeping _ (builder_events_housekeeping _ _ _)),
    (raised_housekeeping _ (resolver_events_housekeeping _ _ _)).
  unfold log_events. destruct (0 <? _); reflexivity.
Qed.

Lemma raised_teardown_events c wb sb d : raised (teardown_events c wb sb d) = None.
Proof. reflexivity. Qed.

Lemma raised_pending w : exception_pending w = false -> raised (trace w) = None.
Proof.
  unfold exception_pending. induction (trace w) as [|e l IH]; cbn [existsb raised];
    [reflexivity|].
  intros H. apply orb_false_iff in H as [He Hl].
  destruct e; try discriminate He; exact (IH Hl).
Qed.

(** ** Runs that reach the solve step *)

(** The calls of a run in which [osqp_solve] was called. *)
Lemma run_events_solve (c : Call) w st evs wb exitflag sol inf :
  run_events c w st evs ->
  In (EvSolve wb exitflag sol inf) evs ->
  exists d sb s,
    data_block d = next_block w /\
    sb = (next_block w + builder_blocks (Some d))%nat /\
    st = to_jint (solver_code exitflag inf) /\
    ((exitflag <> 0 /\
      evs = prepared_events c (next_block w) d (sb, s)
            ++ [EvSetup (Some wb) 0; EvSolve wb exitflag sol inf]
            ++ teardown_events c wb sb d) \/
     (exitflag = 0 /\
      exists primal dual,
        jdoubles w !! optPrimal c = Some primal /\
        jdoubles w !! optDual c = Some dual /\
        0 <= to_jint (numVar c) <= Z.of_nat (length primal) /\
        evs = prepared_events c (next_block w) d (sb, s)
              ++ [EvSetup (Some wb) 0; EvSolve wb 0 sol inf;
                  EvSetRegion (optPrimal c) 0 (to_jint (numVar c));
                  copy_outcome (optDual c) (to_jint (numDual c)) (length dual)]
              ++ teardown_events c wb sb d)).
Proof.
  intros Hev Hin.
  destruct Hev
    as [ | | rd rs Hn Hd | d sb s ef Hd Hsb | d sb s wb' ef Hd Hsb Hne
       | d sb s wb' ef sol' inf' Hd Hsb Hne
       | d sb s wb' sol' inf' primal dual Hd Hsb Hp Hq Hroom ].
  - exfalso. cbn in Hin. destruct Hin as [Hin|[]]. discriminate Hin.
  - exfalso. cbn in Hin. destruct Hin as [Hin|[]]. discriminate Hin.
  - exfalso. apply in_app_iff in Hin as [Hin|Hin].
    + apply builder_events_quiet in Hin. discriminate Hin.
    + apply resolver_events_quiet in Hin. discriminate Hin.
  - exfalso. apply in_app_iff in Hin as [Hin|Hin].
    + apply prepared_events_quiet in Hin. discriminate Hin.
    + cbn in Hin. repeat (destruct Hin as [Hin|Hin]; [discriminate Hin|]). destruct Hin.
  - exfalso. apply in_app_iff in Hin as [Hin|Hin].
    + apply prepared_events_quiet in Hin. discriminate Hin.
    + cbn in Hin. repeat (destruct Hin as [Hin|Hin]; [discriminate Hin|]). destruct Hin.
  - apply in_app_iff in Hin as [Hin|Hin].
    { apply prepared_events_quiet in Hin. discriminate Hin. }
    unfold teardown_events in Hin. cbn [app In] in Hin.
    destruct Hin as [Hin|[Hin|Hin]]; [discriminate Hin | |].
    2: { exfalso. repeat (destruct Hin as [Hin|Hin]; [discriminate Hin|]). destruct Hin. }
    injection Hin as -> -> -> ->.
    exists d, sb, s. split; [exact Hd|]. split; [exact Hsb|]. split.
    { unfold solver_code. destruct (Z.eqb_spec exitflag 0); [contradiction | reflexivity]. }
    left. split; [exact Hne | reflexivity].
  - apply in_app_iff in Hin as [Hin|Hin].
    { apply prepared_events_quiet in Hin. discriminate Hin. }
    unfold teardown_events, copy_outcome in Hin. cbn [app In] in Hin.
    destruct Hin as [Hin|[Hin|[Hin|[Hin|Hin]]]]; [discriminate Hin | | discriminate Hin | |].
    2: { exfalso. destruct ((0 <=? _) && _); discriminate Hin. }
    2: { exfalso. repeat (destruct Hin as [Hin|Hin]; [discriminate Hin|]). destruct Hin. }
    injection Hin as -> <- -> ->.
    exists d, sb, s. split; [exact Hd|]. split; [exact Hsb|]. split; [reflexivity|].
    right. split; [reflexivity|]. exists primal, dual. auto.
Qed.

Lemma solve_event_in evs wb exitflag sol inf :
  In (EvSolve wb exitflag sol inf) evs -> existsb solve_event evs = true.
Proof. intros H. apply existsb_exists. eexists. split; [exact H | reflexivity]. Qed.

(** ** What a call changes *)

(** The trace only grows, and the arrays are as before unless the two
    region copies were made. *)
Lemma run_effect P (c : Call) st w w' :
  run P c w = Some (st, w') ->
  jlongs w' = jlongs w /\
  (exists evs, trace w' = trace w ++ evs) /\
  (jdoubles w' = jdoubles w \/
   exists sol w1 w2 w3 evs,
     jdoubles w1 = jdoubles w /\ jlongs w1 = jlongs w /\
     SetDoubleArrayRegion (optPrimal c) 0 (to_jint (numVar c)) (x sol) w1 = Some (tt, w2) /\
     SetDoubleArrayRegion (optDual c) 0 (to_jint (numDual c)) (y sol) w2 = Some (tt, w3) /\
     jdoubles w' = jdoubles w3 /\ jlongs w' = jlongs w3 /\
     trace w' = trace w ++ evs /\ existsb solve_event evs = true).
Proof.
  intros Hrun. apply run_inv in Hrun.
  destruct Hrun as
    [ w' Hw S | w' Hw1 Hw2 S | rd rs k w' Hn Hd S
    | d sb s ef k w' Hd Hsb Ha S | d sb s wb init ef k w' Hd Hsb Hwb Ha Hne S
    | d sb s wb init ef sol inf k w' Hd Hsb Hwb Ha Hs Hne S
    | d sb s wb init sol inf k w1 w2 w3 w' Hd Hsb Hwb Ha Hs S H2 H3 S' ];
    try (destruct S as (J & L & T & _); split; [exact L|]; split; [eauto|];
         left; exact J).
  destruct (SetDoubleArrayRegion_trace _ _ _ _ _ _ _ H2) as (e1 & T1 & C1).
  destruct (SetDoubleArrayRegion_trace _ _ _ _ _ _ _ H3) as (e2 & T2 & C2).
  destruct (SetDoubleArrayRegion_frame _ _ _ _ _ _ _ H2) as (L2 & _).
  destruct (SetDoubleArrayRegion_frame _ _ _ _ _ _ _ H3) as (L3 & _).
  destruct S as (J0 & L0 & S0 & _). destruct S' as (J1 & L1 & S1 & _).
  assert (T : trace w'
              = trace w
                ++ (prepared_events c (next_block w) d (sb, s)
                    ++ [EvSetup (Some wb) 0; EvSolve wb 0 sol inf])
                ++ [e1; e2] ++ teardown_events c wb sb d).
  { rewrite S1, T2, T1, S0, <- !app_assoc. reflexivity. }
  split; [rewrite L1, L3, L2; exact L0|]. split; [eauto|].
  right. exists sol, w1, w2, w3. eexists. repeat split; try eassumption.
  rewrite !existsb_app. cbn [existsb solve_event]. rewrite !orb_true_r. reflexivity.
Qed.


(** ** Numbers *)

Lemma to_jint_fits z : fits_jint z = true -> to_jint z = z.
Proof.
  unfold fits_jint, to_jint, JINT_MIN, JINT_MAX.
  rewrite andb_true_iff, !Z.leb_le. intros [H1 H2].
  rewrite Z.mod_small; lia.
Qed.

Lemma to_jint_range z : JINT_MIN <= to_jint z <= JINT_MAX.
Proof.
  unfold to_jint, JINT_MIN, JINT_MAX.
  pose proof (Z.mod_pos_bound (z + 2 ^ 31) (2 ^ 32) ltac:(lia)). lia.
Qed.

(** ** Boundary adapter: the width check *)

(** C5: when the width of the solver's integer type differs from that of
    [long], or the width of its floating-point type from that of [double],
    the call returns -1 and all it has done is print one message: no block
    was requested, the solver was not called, and the Java arrays, the
    output buffers among them, are as before. *)
Theorem width_mismatch_aborts (P : Platform) (c : Call) (w : World) :
  sizeof_c_int P <> sizeof_long P \/ sizeof_c_float P <> sizeof_double P ->
  exists msg,
    run P c w
    = Some (-1, mk_world (jdoubles w) (jlongs w) (next_block w)
                  (trace w ++ [EvStderr msg])).
Proof.
  intros H. unfold run, Java_com_d3x_osqp_OsqpModel_run.
  destruct (Z.eqb_spec (sizeof_c_int P) (sizeof_long P)) as [Hi|Hi]; cbn [negb].
  - destruct (Z.eqb_spec (sizeof_c_float P) (sizeof_double P)) as [Hf|Hf]; cbn [negb].
    + destruct H; contradiction.
    + eexists. reflexivity.
  - eexists. reflexivity.
Qed.

Lemma width_mismatch_aborts_witness :
  exists msg,
    run (mk_platform 4 8 8 8 always osqp_defaults one_column
           (fun _ _ => (Some unsolved, 0)) (fun _ => (0, unsolved.1, unsolved.2)))
        (qp_call []) (qp_world 0 10 [])
    = Some (-1, mk_world (jdoubles (qp_world 0 10 [])) (jlongs (qp_world 0 10 []))
                  0 [EvStderr msg]).
Proof.
  apply (width_mismatch_aborts
           (mk_platform 4 8 8 8 always osqp_defaults one_column
              (fun _ _ => (Some unsolved, 0)) (fun _ => (0, unsolved.1, unsolved.2)))
           (qp_call []) (qp_world 0 10 [])).
  left. cbn. lia.
Defined.

(** ** Solver session: what comes back from the solve step *)

(** C3: when the solve step returns a non-zero code, no region of any Java
    array is written, so the output buffers are as before the call, and the
    status of the call is that code as the [return] statement converts it
    to [jint]: the code itself whenever it is a 32-bit value. *)
Theorem solve_failure_leaves_buffers (P : Platform) (c : Call) (w w' : World)
  (st : jint) (evs : list event) (wb : block) (exitflag : c_int)
  (sol : OSQPSolution) (inf : OSQPInfo) :
  run P c w = Some (st, w') ->
  trace w' = trace w ++ evs ->
  In (EvSolve wb exitflag sol inf) evs ->
  exitflag <> 0 ->
  jdoubles w' = jdoubles w /\
  (forall e, In e evs -> copy_event e = false) /\
  st = to_jint exitflag /\
  (fits_jint exitflag = true -> st = exitflag).
Proof.
  intros Hrun Htr Hin Hne.
  destruct (run_reaches_solve _ _ _ _ _ _ _ _ _ _ Hrun Htr Hin)
    as (d & sb & s & copies & Hd & Hsb & -> & Hc & -> & Hfail & _).
  destruct (Hfail Hne) as [-> Hj].
  unfold solver_code. destruct (Z.eqb_spec exitflag 0) as [|_]; [contradiction|].
  split; [exact Hj|]. split; [|split; [reflexivity | apply to_jint_fits]].
  intros e He. rewrite !in_app_iff in He. destruct He as [He|[He|[He|He]]].
  - apply prepared_events_quiet in He. unfold quiet_event in He.
    apply andb_prop in He as [_ He]. destruct (copy_event e); [discriminate|reflexivity].
  - cbn in He. destruct He as [<-|[<-|[]]]; reflexivity.
  - destruct He.
  - cbn in He. repeat (destruct He as [<-|He]; [reflexivity|]). destruct He.
Qed.

Lemma solve_failure_leaves_buffers_witness :
  exists st w',
    run (lp64 always (Some unsolved, 0) (7, unsolved.1, unsolved.2))
      (qp_call []) (qp_world 0 10 []) = Some (st, w') /\
    jdoubles w' = jdoubles (qp_world 0 10 []) /\ st = 7.
Proof.
  eexists _, _. split; [vm_compute; reflexivity|].
  edestruct (solve_failure_leaves_buffers
               (lp64 always (Some unsolved, 0) (7, unsolved.1, unsolved.2))
               (qp_call []) (qp_world 0 10 []))
    as (H1 & _ & _ & H2).
  - vm_compute; reflexivity.
  - vm_compute; reflexivity.
  - vm_compute. repeat (first [left; reflexivity | right]).
  - lia.
  - split; [exact H1|]. apply H2. reflexivity.
Defined.

(** The two region copies of the solved path, for output buffers that are
    distinct arrays large enough for the problem. *)
Lemma copies_inside (c : Call) (sol : OSQPSolution) (w1 w2 w3 : World)
  (primal dual : list jdouble) :
  SetDoubleArrayRegion (optPrimal c) 0 (to_jint (numVar c)) (x sol) w1 = Some (tt, w2) ->
  SetDoubleArrayRegion (optDual c) 0 (to_jint (numDual c)) (y sol) w2 = Some (tt, w3) ->
  jdoubles w1 !! optPrimal c = Some primal ->
  jdoubles w1 !! optDual c = Some dual ->
  optPrimal c <> optDual c ->
  0 <= numVar c <= Z.of_nat (length primal) ->
  0 <= numDual c <= Z.of_nat (length dual) ->
  Z.of_nat (length primal) <= JINT_MAX ->
  Z.of_nat (length dual) <= JINT_MAX ->
  (Z.to_nat (numVar c) <= length (x sol))%nat /\
  (Z.to_nat (numDual c) <= length (y sol))%nat /\
  jdoubles w3
  = <[optDual c := take (Z.to_nat (numDual c)) (y sol) ++ drop (Z.to_nat (numDual c)) dual]>
      (<[optPrimal c := take (Z.to_nat (numVar c)) (x sol)
                         ++ drop (Z.to_nat (numVar c)) primal]> (jdoubles w1)).
Proof.
  intros H2 H3 Hp Hd Hne Hn Hm Hpmax Hdmax.
  assert (Fn : to_jint (numVar c) = numVar c).
  { apply to_jint_fits. unfold fits_jint, JINT_MIN, JINT_MAX in *.
    rewrite andb_true_iff, !Z.leb_le. lia. }
  assert (Fm : to_jint (numDual c) = numDual c).
  { apply to_jint_fits. unfold fits_jint, JINT_MIN, JINT_MAX in *.
    rewrite andb_true_iff, !Z.leb_le. lia. }
  rewrite Fn in H2. rewrite Fm in H3.
  destruct (SetDoubleArrayRegion_inside _ _ _ _ _ _ _ H2 Hp Hn) as [Lx E2].
  assert (Hd2 : jdoubles w2 !! optDual c = Some dual).
  { rewrite E2, lookup_insert_ne; [exact Hd | exact Hne]. }
  destruct (SetDoubleArrayRegion_inside _ _ _ _ _ _ _ H3 Hd2 Hm) as [Ly E3].
  split; [exact Lx|]. split; [exact Ly|]. rewrite E3, E2. reflexivity.
Qed.

(** The solved path, for output buffers that are two distinct Java arrays
    with room for [numVar] and [numDual] elements. *)
Lemma solved_path (P : Platform) (c : Call) (w w' : World)
  (st : jint) (evs : list event) (wb : block)
  (sol : OSQPSolution) (inf : OSQPInfo) (primal dual : list jdouble) :
  run P c w = Some (st, w') ->
  trace w' = trace w ++ evs ->
  In (EvSolve wb 0 sol inf) evs ->
  jdoubles w !! optPrimal c = Some primal ->
  jdoubles w !! optDual c = Some dual ->
  optPrimal c <> optDual c ->
  0 <= numVar c <= Z.of_nat (length primal) ->
  0 <= numDual c <= Z.of_nat (length dual) ->
  Z.of_nat (length primal) <= JINT_MAX ->
  Z.of_nat (length dual) <= JINT_MAX ->
  (Z.to_nat (numVar c) <= length (x sol))%nat /\
  (Z.to_nat (numDual c) <= length (y sol))%nat /\
  jdoubles w' !! optPrimal c
  = Some (take (Z.to_nat (numVar c)) (x sol) ++ drop (Z.to_nat (numVar c)) primal) /\
  jdoubles w' !! optDual c
  = Some (take (Z.to_nat (numDual c)) (y sol) ++ drop (Z.to_nat (numDual c)) dual) /\
  (forall a, a <> optPrimal c -> a <> optDual c -> jdoubles w' !! a = jdoubles w !! a) /\
  st = to_jint (status_val inf).
Proof.
  intros Hrun Htr Hin Hp Hd Hne Hn Hm Hpmax Hdmax.
  destruct (run_reaches_solve _ _ _ _ _ _ _ _ _ _ Hrun Htr Hin)
    as (d & sb & s & copies & _ & _ & _ & _ & -> & _ & Hok).
  destruct (Hok eq_refl) as (w1 & w2 & w3 & Hj & H2 & H3 & ->).
  rewrite <- Hj in Hp, Hd.
  destruct (copies_inside _ _ _ _ _ _ _ H2 H3 Hp Hd Hne Hn Hm Hpmax Hdmax)
    as (Lx & Ly & ->).
  rewrite Hj. split; [exact Lx|]. split; [exact Ly|]. split.
  { rewrite lookup_insert_ne by (intros E; apply Hne; symmetry; exact E).
    apply lookup_insert_eq. }
  split; [apply lookup_insert_eq|]. split.
  { intros a Ha1 Ha2.
    rewrite !lookup_insert_ne by (intros E; symmetry in E; contradiction).
    reflexivity. }
  unfold solver_code. cbn. reflexivity.
Qed.

(** C4: when the solve step returns 0, the first [numVar] entries of the
    solution's primal vector and the first [numDual] entries of its dual
    vector are copied over the start of the caller's output buffers, every
    other array is left as it was, and the status of the call is the
    solver's internal status code (converted to [jint] by the [return]
    statement: the code itself whenever it is a 32-bit value).  The output
    buffers are two distinct Java arrays with room for [numVar] and
    [numDual] elements. *)
Theorem solved_copies_solution (P : Platform) (c : Call) (w w' : World)
  (st : jint) (evs : list event) (wb : block)
  (sol : OSQPSolution) (inf : OSQPInfo) (primal dual : list jdouble) :
  run P c w = Some (st, w') ->
  trace w' = trace w ++ evs ->
  In (EvSolve wb 0 sol inf) evs ->
  jdoubles w !! optPrimal c = Some primal ->
  jdoubles w !! optDual c = Some dual ->
  optPrimal c <> optDual c ->
  0 <= numVar c <= Z.of_nat (length primal) ->
  0 <= numDual c <= Z.of_nat (length dual) ->
  Z.of_nat (length primal) <= JINT_MAX ->
  Z.of_nat (length dual) <= JINT_MAX ->
  (Z.to_nat (numVar c) <= length (x sol))%nat /\
  (Z.to_nat (numDual c) <= length (y sol))%nat /\
  jdoubles w' !! optPrimal c
  = Some (take (Z.to_nat (numVar c)) (x sol) ++ drop (Z.to_nat (numVar c)) primal) /\
  jdoubles w' !! optDual c
  = Some (take (Z.to_nat (numDual c)) (y sol) ++ drop (Z.to_nat (numDual c)) dual) /\
  (forall a, a <> optPrimal c -> a <> optDual c -> jdoubles w' !! a = jdoubles w !! a) /\
  st = to_jint (status_val inf) /\
  (fits_jint (status_val inf) = true -> st = status_val inf).
Proof.
  intros Hrun Htr Hin Hp Hd Hne Hn Hm Hpmax Hdmax.
  destruct (solved_path P c w w' st evs wb sol inf primal dual
              Hrun Htr Hin Hp Hd Hne Hn Hm Hpmax Hdmax)
    as (Lx & Ly & H1 & H2 & H3 & ->).
  repeat (split; [assumption|]). split; [reflexivity | apply to_jint_fits].
Qed.

Lemma solved_copies_solution_witness :
  exists st w',
    run (lp64 always (Some unsolved, 0) (0, mk_solution [0%float] [1%float], mk_info 1))
      (qp_call []) (qp_world 0 10 []) = Some (st, w') /\
    jdoubles w' !! 6%nat = Some [0%float] /\
    jdoubles w' !! 7%nat = Some [1%float] /\
    st = 1.
Proof.
  eexists _, _. split; [vm_compute; reflexivity|].
  edestruct (solved_copies_solution
               (lp64 always (Some unsolved, 0)
                  (0, mk_solution [0%float] [1%float], mk_info 1))
               (qp_call []) (qp_world 0 10 []))
    as (_ & _ & H1 & H2 & _ & _ & H3).
  - vm_compute; reflexivity.
  - vm_compute; reflexivity.
  - vm_compute. repeat (first [left; reflexivity | right]).
  - vm_compute; reflexivity.
  - vm_compute; reflexivity.
  - cbn. lia.
  - cbn. lia.
  - cbn. lia.
  - cbn. unfold JINT_MAX. lia.
  - cbn. unfold JINT_MAX. lia.
  - split; [exact H1|]. split; [exact H2|]. apply H3. reflexivity.
Defined.


(** ** Boundary adapter: the status handed back *)

(** C9: for every call that reaches the solve step, the status handed back
    is the code the solver produced (the exit flag of the solve step, or
    the internal status when that flag is 0), unmodified, for every code
    the solver can produce: its codes are 32-bit values, as the status of
    the interface is.  The caller receives it as the value returned, with
    no exception in its place, when the solve step reports a failure and
    whenever the dual buffer has room for the copy. *)
Theorem status_is_solver_code (P : Platform) (c : Call) (w w' : World)
  (st : jint) (evs : list event) (wb : block) (exitflag : c_int)
  (sol : OSQPSolution) (inf : OSQPInfo) :
  run P c w = Some (st, w') ->
  trace w' = trace w ++ evs ->
  In (EvSolve wb exitflag sol inf) evs ->
  fits_jint (solver_code exitflag inf) = true ->
  st = solver_code exitflag inf /\
  (exitflag <> 0 -> received st evs = Returned (solver_code exitflag inf)) /\
  (forall dual,
      jdoubles w !! optDual c = Some dual ->
      0 <= to_jint (numDual c) <= Z.of_nat (length dual) ->
      received st evs = Returned (solver_code exitflag inf)).
Proof.
  intros Hrun Htr Hin Hfit.
  pose proof (run_events_inv _ _ _ _ _ _ Hrun Htr) as Hev.
  destruct (run_events_solve _ _ _ _ _ _ _ _ Hev Hin)
    as (d & sb & s & Hd & Hsb & -> & Hshape).
  rewrite (to_jint_fits _ Hfit). split; [reflexivity|].
  destruct Hshape as [[Hne ->]|[-> (primal & dual & Hp & Hq & Hroom & ->)]].
  - split.
    + intros _. unfold received.
      rewrite !raised_app, raised_prepared_events. reflexivity.
    + intros dual _ _. unfold received.
      rewrite !raised_app, raised_prepared_events. reflexivity.
  - split; [intros Hne; contradiction|].
    intros dual' Hq' [R1 R2]. rewrite Hq in Hq'. injection Hq' as <-.
    unfold received, copy_outcome.
    apply Z.leb_le in R1, R2. rewrite R1, R2.
    rewrite !raised_app, raised_prepared_events. reflexivity.
Qed.

Lemma status_is_solver_code_witness :
  exists st w',
    run (lp64 always (Some unsolved, 0) (0, mk_solution [0%float] [1%float], mk_info (-3)))
      (qp_call []) (qp_world 0 10 []) = Some (st, w') /\ st = -3.
Proof.
  eexists _, _. split; [vm_compute; reflexivity|].
  edestruct (status_is_solver_code
               (lp64 always (Some unsolved, 0)
                  (0, mk_solution [0%float] [1%float], mk_info (-3)))
               (qp_call []) (qp_world 0 10 []))
    with (wb := 12%nat) (exitflag := 0) (sol := mk_solution [0%float] [1%float])
         (inf := mk_info (-3))
    as (H & _).
  - vm_compute; reflexivity.
  - vm_compute; reflexivity.
  - vm_compute. repeat (first [left; reflexivity | right]).
  - vm_compute; reflexivity.
  - exact H.
Defined.

(** ** Infeasible problems *)

(** A run whose [osqp_setup] fails makes no solve step. *)
Lemma setup_failure_events (c : Call) w st evs o exitflag :
  run_events c w st evs ->
  In (EvSetup o exitflag) evs ->
  o = None \/ exitflag <> 0 ->
  st = -1 /\ existsb solve_event evs = false.
Proof.
  intros Hev Hin Hfail.
  destruct Hev
    as [ | | rd rs Hn Hd | d sb s ef Hd Hsb | d sb s wb' ef Hd Hsb Hne
       | d sb s wb' ef sol' inf' Hd Hsb Hne
       | d sb s wb' sol' inf' primal dual Hd Hsb Hp Hq Hroom ].
  - split; reflexivity.
  - split; reflexivity.
  - split; [reflexivity|]. rewrite existsb_app,
      (existsb_housekeeping _ _ housekeeping_not_solve (builder_events_housekeeping _ _ _)),
      (existsb_housekeeping _ _ housekeeping_not_solve (resolver_events_housekeeping _ _ _)).
    reflexivity.
  - split; [reflexivity|].
    rewrite existsb_app, (existsb_prepared_events _ _ _ _ _ housekeeping_not_solve),
      existsb_solve_log_events. reflexivity.
  - split; [reflexivity|].
    rewrite existsb_app, (existsb_prepared_events _ _ _ _ _ housekeeping_not_solve),
      existsb_solve_log_events. reflexivity.
  - exfalso. apply in_app_iff in Hin as [Hin|Hin].
    + apply prepared_events_quiet in Hin. discriminate Hin.
    + unfold teardown_events in Hin. cbn [app In] in Hin.
      destruct Hin as [Hin|Hin].
      * injection Hin as E1 E2. subst o exitflag.
        destruct Hfail as [F|F]; [discriminate F | apply F; reflexivity].
      * repeat (destruct Hin as [Hin|Hin]; [discriminate Hin|]). destruct Hin.
  - exfalso. apply in_app_iff in Hin as [Hin|Hin].
    + apply prepared_events_quiet in Hin. discriminate Hin.
    + unfold teardown_events, copy_outcome in Hin. cbn [app In] in Hin.
      destruct Hin as [Hin|[Hin|[Hin|[Hin|Hin]]]].
      * injection Hin as E1 E2. subst o exitflag.
        destruct Hfail as [F|F]; [discriminate F | apply F; reflexivity].
      * discriminate Hin.
      * discriminate Hin.
      * destruct ((0 <=? _) && _); discriminate Hin.
      * repeat (destruct Hin as [Hin|Hin]; [discriminate Hin|]). destruct Hin.
Qed.

(** C2, as the code has it.  A problem that [osqp_setup] rejects, as the
    validation of the data rejects a lower bound above its upper bound,
    ends the call with status -1 and every Java array, the output buffers
    among them, as before.  A problem whose infeasibility the solver
    reports from the solve step, through its internal status after an exit
    flag of 0, ends it with that status and with the start of the solver's
    primal and dual vectors copied over the output buffers. *)
Theorem infeasible_report (P : Platform) (c : Call) (w w' : World)
  (st : jint) (evs : list event) :
  run P c w = Some (st, w') ->
  trace w' = trace w ++ evs ->
  (forall o exitflag,
      In (EvSetup o exitflag) evs ->
      o = None \/ exitflag <> 0 ->
      st = -1 /\ jdoubles w' = jdoubles w) /\
  (forall wb sol inf primal dual,
      In (EvSolve wb 0 sol inf) evs ->
      fits_jint (status_val inf) = true ->
      jdoubles w !! optPrimal c = Some primal ->
      jdoubles w !! optDual c = Some dual ->
      optPrimal c <> optDual c ->
      0 <= numVar c <= Z.of_nat (length primal) ->
      0 <= numDual c <= Z.of_nat (length dual) ->
      Z.of_nat (length primal) <= JINT_MAX ->
      Z.of_nat (length dual) <= JINT_MAX ->
      st = status_val inf /\
      jdoubles w' !! optPrimal c
      = Some (take (Z.to_nat (numVar c)) (x sol) ++ drop (Z.to_nat (numVar c)) primal) /\
      jdoubles w' !! optDual c
      = Some (take (Z.to_nat (numDual c)) (y sol) ++ drop (Z.to_nat (numDual c)) dual)).
Proof.
  intros Hrun Htr. split.
  - intros o ef Hin Hfail.
    pose proof (run_events_inv _ _ _ _ _ _ Hrun Htr) as Hev.
    destruct (setup_failure_events _ _ _ _ _ _ Hev Hin Hfail) as [-> Hno].
    split; [reflexivity|].
    destruct (run_effect _ _ _ _ _ Hrun) as (_ & _ & [J|H]); [exact J|].
    destruct H as (sol & w1 & w2 & w3 & evs' & _ & _ & _ & _ & _ & _ & T & E).
    rewrite Htr in T. apply app_inv_head in T. subst evs'.
    rewrite E in Hno. discriminate Hno.
  - intros wb sol inf primal dual Hin Hfit Hp Hd Hne Hn Hm Hpmax Hdmax.
    destruct (solved_path P c w w' st evs wb sol inf primal dual
                Hrun Htr Hin Hp Hd Hne Hn Hm Hpmax Hdmax)
      as (_ & _ & H1 & H2 & _ & ->).
    split; [apply to_jint_fits; exact Hfit|]. split; [exact H1 | exact H2].
Qed.

Lemma infeasible_report_witness :
  (exists w',
      run (lp64 always (None, 1) (0, unsolved.1, unsolved.2))
        (qp_call []) (qp_world 5 1 []) = Some (-1, w') /\
      jdoubles w' = jdoubles (qp_world 5 1 [])) /\
  (exists st w',
      run (lp64 always (Some unsolved, 0)
             (0, mk_solution [nan] [nan; nan], mk_info OSQP_PRIMAL_INFEASIBLE))
        two_row_call two_row_world = Some (st, w') /\
      st = OSQP_PRIMAL_INFEASIBLE /\
      jdoubles w' !! optPrimal two_row_call = Some [nan] /\
      jdoubles w' !! optDual two_row_call = Some [nan; nan]).
Proof.
  split.
  - eexists. split; [vm_compute; reflexivity|].
    edestruct (infeasible_report (lp64 always (None, 1) (0, unsolved.1, unsolved.2))
                 (qp_call []))
      with (w := qp_world 5 1 []) as (H & _).
    + vm_compute; reflexivity.
    + vm_compute; reflexivity.
    + edestruct (H None 1) as (_ & HJ).
      * vm_compute. repeat (first [left; reflexivity | right]).
      * left; reflexivity.
      * exact HJ.
  - eexists _, _. split; [vm_compute; reflexivity|].
    edestruct (infeasible_report
                 (lp64 always (Some unsolved, 0)
                    (0, mk_solution [nan] [nan; nan], mk_info OSQP_PRIMAL_INFEASIBLE))
                 two_row_call)
      with (w := two_row_world) as (_ & H).
    + vm_compute; reflexivity.
    + vm_compute; reflexivity.
    + edestruct (H 12%nat (mk_solution [nan] [nan; nan]) (mk_info OSQP_PRIMAL_INFEASIBLE)
                   [7%float] [7%float; 7%float]) as (H1 & H2 & H3).
      * vm_compute. repeat (first [left; reflexivity | right]).
      * vm_compute; reflexivity.
      * vm_compute; reflexivity.
      * vm_compute; reflexivity.
      * vm_compute; discriminate.
      * cbn. lia.
      * cbn. lia.
      * cbn. unfold JINT_MAX. lia.
      * cbn. unfold JINT_MAX. lia.
      * split; [exact H1|]. split; [exact H2 | exact H3].
Defined.

(** C2 as stated fails when the solver reports the infeasibility from the
    solve step.  The problem [5 <= x <= 10], [0 <= x <= 1] passes the
    validation of the data; the solver finds it primal infeasible, which
    it reports by an exit flag of 0, the status [OSQP_PRIMAL_INFEASIBLE]
    and solution vectors filled with NaN.  The status of the call says so,
    and both output buffers, filled with 7.0 before the call, hold the
    solver's vectors after it. *)
Lemma infeasible_buffers_counterexample :
  exists w',
    run (lp64 always (Some unsolved, 0)
           (0, mk_solution [nan] [nan; nan], mk_info OSQP_PRIMAL_INFEASIBLE))
      two_row_call two_row_world = Some (OSQP_PRIMAL_INFEASIBLE, w') /\
    jdoubles two_row_world !! optPrimal two_row_call = Some [7%float] /\
    jdoubles two_row_world !! optDual two_row_call = Some [7%float; 7%float] /\
    jdoubles w' !! optPrimal two_row_call = Some [nan] /\
    jdoubles w' !! optDual two_row_call = Some [nan; nan] /\
    raised (trace w') = None.
Proof.
  eexists. split; [vm_compute; reflexivity|].
  repeat split; vm_compute; reflexivity.
Qed.

(** ** Solver session: lifecycle *)

(** A run that reaches the solve step gives back all it took but the
    arrays of the matrices: [d3x_free_data] frees the structure of each
    matrix with [c_free], which leaves the arrays [p], [i] and [x] that
    [triplet_to_csc] allocated for it. *)
Lemma completed_run_keeps_matrix_arrays (P : Platform) (c : Call) (w w' : World)
  (st : jint) (evs : list event) (wb : block) (exitflag : c_int)
  (sol : OSQPSolution) (inf : OSQPInfo) :
  run P c w = Some (st, w') ->
  trace w' = trace w ++ evs ->
  In (EvSolve wb exitflag sol inf) evs ->
  exists d,
    data_at (next_block w) d /\
    forall r, balance r evs = held_arrays r (data_A d) + held_arrays r (data_P d).
Proof.
  intros Hrun Htr Hin.
  destruct (run_reaches_solve _ _ _ _ _ _ _ _ _ _ Hrun Htr Hin)
    as (d & sb & s & copies & Hd & Hsb & -> & Hc & _).
  exists d. split; [exact Hd|]. intros r.
  rewrite !balance_app, (balance_prepared_events _ _ _ _ _ _ (proj1 Hd)),
    (balance_copies _ _ Hc), balance_teardown_events, <- Hsb.
  unfold held_block. cbn [balance delta]. lia.
Qed.

(** After the preparation nothing is released that was not taken, and the
    settings block and the resources of the problem instance are held. *)
Lemma prepared_events_nonneg r c db d sb s :
  data_block d = db -> 0 <= balance r (prepared_events c db d (sb, s)).
Proof.
  intros Hdb. rewrite (balance_prepared_events _ _ _ _ _ _ Hdb).
  pose proof (ind_nonneg (bool_decide (r = RBlock (data_block d)))).
  pose proof (ind_nonneg (bool_decide (r = RDoubles (linObjCoeff c)))).
  pose proof (ind_nonneg (bool_decide (r = RDoubles (linConLower c)))).
  pose proof (ind_nonneg (bool_decide (r = RDoubles (linConUpper c)))).
  pose proof (held_block_nonneg r (data_A d)).
  pose proof (held_block_nonneg r (data_P d)).
  pose proof (ind_nonneg (bool_decide (r = RBlock (db + builder_blocks (Some d))%nat))).
  lia.
Qed.

Lemma matrix_block_held r m : In r (matrix_block m) -> 0 < held_block r m.
Proof.
  unfold matrix_block, held_block, held_struct, held_arrays, store_blocks.
  destruct m as [m|]; [|intros []].
  destruct (csc_store m) as [[[bp bi] bx]|]; cbn [map In].
  - pose proof (ind_nonneg (bool_decide (r = RBlock (csc_block m)))).
    pose proof (ind_nonneg (bool_decide (r = RBlock bp))).
    pose proof (ind_nonneg (bool_decide (r = RBlock bi))).
    pose proof (ind_nonneg (bool_decide (r = RBlock bx))).
    intros [<-|[<-|[<-|[<-|[]]]]]; rewrite ind_refl in *; lia.
  - pose proof (ind_nonneg (bool_decide (r = RBlock (csc_block m)))).
    intros [<-|[]]. rewrite ind_refl in *. lia.
Qed.

Lemma prepared_events_hold r c db d sb s :
  data_block d = db ->
  sb = (db + builder_blocks (Some d))%nat ->
  In r (RBlock sb :: problem_resources c d) ->
  0 < balance r (prepared_events c db d (sb, s)).
Proof.
  intros Hdb -> Hr. rewrite (balance_prepared_events _ _ _ _ _ _ Hdb).
  pose proof (ind_nonneg (bool_decide (r = RBlock (data_block d)))).
  pose proof (ind_nonneg (bool_decide (r = RDoubles (linObjCoeff c)))).
  pose proof (ind_nonneg (bool_decide (r = RDoubles (linConLower c)))).
  pose proof (ind_nonneg (bool_decide (r = RDoubles (linConUpper c)))).
  pose proof (held_block_nonneg r (data_A d)).
  pose proof (held_block_nonneg r (data_P d)).
  pose proof (ind_nonneg (bool_decide (r = RBlock (db + builder_blocks (Some d))%nat))).
  unfold problem_resources in Hr.
  cbn [In app] in Hr. rewrite !in_app_iff in Hr.
  destruct Hr as [<-|[<-|[<-|[<-|[<-|[Hr|Hr]]]]]]; rewrite ?ind_refl in *; try lia.
  - pose proof (matrix_block_held _ _ Hr). lia.
  - pose proof (matrix_block_held _ _ Hr). lia.
Qed.

(** When [osqp_setup] stores no workspace or reports a failure, the call
    returns -1 with the settings block and every resource of the problem
    instance still held. *)
Lemma setup_failure_returns_holding (P : Platform) (c : Call) (w w' : World)
  (st : jint) (evs : list event) (o : option block) (exitflag : c_int) :
  run P c w = Some (st, w') ->
  trace w' = trace w ++ evs ->
  In (EvSetup o exitflag) evs ->
  o = None \/ exitflag <> 0 ->
  st = -1 /\
  exists sb d,
    forall r, In r (RBlock sb :: problem_resources c d) -> 0 < balance r evs.
Proof.
  intros Hrun Htr Hin Hfail.
  pose proof (run_events_inv _ _ _ _ _ _ Hrun Htr) as Hev.
  destruct (setup_failure_events _ _ _ _ _ _ Hev Hin Hfail) as [-> Hno].
  split; [reflexivity|].
  destruct Hev
    as [ | | rd rs Hn Hd | d sb s ef Hd Hsb | d sb s wb' ef Hd Hsb Hne
       | d sb s wb' ef sol' inf' Hd Hsb Hne
       | d sb s wb' sol' inf' primal dual Hd Hsb Hp Hq Hroom ].
  - cbn in Hin. destruct Hin as [Hin|[]]. discriminate Hin.
  - cbn in Hin. destruct Hin as [Hin|[]]. discriminate Hin.
  - exfalso. apply in_app_iff in Hin as [Hin|Hin].
    + apply builder_events_quiet in Hin. discriminate Hin.
    + apply resolver_events_quiet in Hin. discriminate Hin.
  - exists sb, d. intros r Hr. rewrite balance_app. cbn [balance delta].
    pose proof (prepared_events_hold r c _ d sb s Hd Hsb Hr). lia.
  - exists sb, d. intros r Hr. rewrite balance_app. cbn [balance delta].
    pose proof (prepared_events_hold r c _ d sb s Hd Hsb Hr). lia.
  - exfalso. rewrite !existsb_app in Hno. cbn [existsb solve_event] in Hno.
    rewrite !orb_true_r in Hno. discriminate Hno.
  - exfalso. rewrite !existsb_app in Hno. cbn [existsb solve_event] in Hno.
    rewrite !orb_true_r in Hno. discriminate Hno.
Qed.

(** C1 fails on the early exits of the entry point.  On the problem with
    lower bound 5 and upper bound 1, rejected by [osqp_setup] without a
    workspace, the call returns -1 holding the problem structure (block 0),
    the views of the objective and bound arrays (1, 4, 5), both matrices
    (the structures in blocks 2 and 7, their arrays in blocks 3 to 5 and 8
    to 10) and the settings record (block 11).  When the allocation of the
    settings record fails, the call returns -1 holding all of the problem
    instance. *)
Theorem early_exit_leaks :
  (exists w',
     run (lp64 always (None, 1) (0, unsolved.1, unsolved.2))
       (qp_call []) (qp_world 5 1 []) = Some (-1, w') /\
     leaked (trace w')
     = [RBlock 0; RDoubles 1; RDoubles 4; RDoubles 5;
        RBlock 2; RBlock 3; RBlock 4; RBlock 5;
        RBlock 7; RBlock 8; RBlock 9; RBlock 10; RBlock 11]) /\
  (exists w',
     run (lp64 (fun b => negb (b =? 11)%nat) (Some unsolved, 0) (0, unsolved.1, unsolved.2))
       (qp_call []) (qp_world 0 10 []) = Some (-1, w') /\
     leaked (trace w')
     = [RBlock 0; RDoubles 1; RDoubles 4; RDoubles 5;
        RBlock 2; RBlock 3; RBlock 4; RBlock 5;
        RBlock 7; RBlock 8; RBlock 9; RBlock 10]).
Proof.
  split; (eexists; split; [vm_compute; reflexivity|]); vm_compute; reflexivity.
Qed.

(** The order of the teardown after a setup that succeeded: the workspace
    is cleaned up, the settings record is freed, the problem instance is
    released (the three borrowed arrays, then the structures of the two
    matrices, then its own), and the log is closed.  The workspace is torn
    down nowhere before that, and at that moment the workspace, the
    settings record and every resource of the problem instance are still
    held. *)
Lemma teardown_order (P : Platform) (c : Call) (w w' : World)
  (st : jint) (evs : list event) (wb : block) :
  run P c w = Some (st, w') ->
  trace w' = trace w ++ evs ->
  In (EvSetup (Some wb) 0) evs ->
  exists pre sb d,
    evs = pre ++ [EvCleanup wb; EvFree (Some sb);
                  EvReleaseDoubles (linObjCoeff c); EvReleaseDoubles (linConLower c);
                  EvReleaseDoubles (linConUpper c);
                  EvFree (csc_block <$> data_A d); EvFree (csc_block <$> data_P d);
                  EvFree (Some (data_block d)); EvCloseLog] /\
    (forall b, ~ In (EvCleanup b) pre) /\
    (forall r, In r (RBlock wb :: RBlock sb :: problem_resources c d) ->
               0 < balance r pre).
Proof.
  intros Hrun Htr Hset.
  destruct (setup_success_reaches_solve _ _ _ _ _ _ _ Hrun Htr Hset)
    as (ef & sol & inf & Hin).
  destruct (run_reaches_solve _ _ _ _ _ _ _ _ _ _ Hrun Htr Hin)
    as (d & sb & s & copies & (Hdb & _) & Hsb & -> & Hc & _).
  exists (prepared_events c (next_block w) d (sb, s)
          ++ [EvSetup (Some wb) 0; EvSolve wb ef sol inf] ++ copies), sb, d.
  split; [rewrite <- !app_assoc; reflexivity|]. split.
  - intros b Hb. rewrite !in_app_iff in Hb. destruct Hb as [Hb|[Hb|Hb]].
    + apply prepared_events_quiet in Hb. discriminate Hb.
    + cbn in Hb. destruct Hb as [Hb|[Hb|[]]]; discriminate.
    + apply Hc in Hb. discriminate Hb.
  - intros r Hr.
    rewrite !balance_app, (balance_copies _ _ Hc). cbn [balance delta].
    pose proof (ind_nonneg (bool_decide (r = RBlock wb))).
    destruct Hr as [<-|Hr].
    + pose proof (prepared_events_nonneg (RBlock wb) c _ d sb s Hdb).
      rewrite ind_refl. lia.
    + pose proof (prepared_events_hold r c _ d sb s Hdb Hsb Hr). lia.
Qed.

(** C6 fails when [osqp_setup] stores a workspace and reports a failure.
    On the problem [0 <= x <= 10], with a setup that stores its workspace
    (block 12) and then fails with exit flag 4, the calls from the setup on
    are the setup, its diagnostic, the cleanup of the workspace inside
    [d3x_create_workspace] and the closing of the log: the workspace that
    was created is torn down, but the settings record is not freed and the
    problem instance is not released.  The call returns -1 holding the
    settings record (block 11) and all of the problem instance. *)
Theorem rejected_setup_skips_teardown :
  exists w',
    run (lp64 always (Some unsolved, 4) (0, unsolved.1, unsolved.2))
      (qp_call []) (qp_world 0 10 []) = Some (-1, w') /\
    drop 31 (trace w')
    = [EvSetup (Some 12%nat) 4; EvStderr setup_message; EvCleanup 12; EvCloseLog] /\
    (forall p, ~ In (EvFree p) (drop 31 (trace w'))) /\
    (forall a, ~ In (EvReleaseDoubles a) (drop 31 (trace w'))) /\
    leaked (trace w')
    = [RBlock 0; RDoubles 1; RDoubles 4; RDoubles 5;
       RBlock 2; RBlock 3; RBlock 4; RBlock 5;
       RBlock 7; RBlock 8; RBlock 9; RBlock 10; RBlock 11].
Proof.
  eexists. split; [vm_compute; reflexivity|].
  split; [vm_compute; reflexivity|]. split; [|split].
  - intros p H. vm_compute in H.
    repeat (destruct H as [H|H]; [discriminate H|]). destruct H.
  - intros a H. vm_compute in H.
    repeat (destruct H as [H|H]; [discriminate H|]). destruct H.
  - vm_compute; reflexivity.
Qed.

(** ** Settings resolver: the claims *)

Lemma last_value_absent name names vals :
  ~ In name names -> last_value name names vals = None.
Proof.
  revert vals. induction names as [|n names IH]; intros vals Hn; [reflexivity|].
  destruct vals as [|v vals]; [reflexivity|]. cbn [last_value].
  rewrite IH by (intros H; apply Hn; right; exact H).
  destruct (String.eqb_spec n name) as [->|_]; [|reflexivity].
  exfalso. apply Hn. left. reflexivity.
Qed.

(** [last_value] is the value at the last position that carries the name. *)
Lemma last_value_last name v names1 names2 vals1 vals2 :
  length names1 = length vals1 ->
  ~ In name names2 ->
  last_value name (names1 ++ name :: names2) (vals1 ++ v :: vals2) = Some v.
Proof.
  revert vals1. induction names1 as [|n names1 IH]; intros vals1 Hlen Hn.
  - destruct vals1; [|discriminate]. cbn [app last_value].
    rewrite (last_value_absent _ _ _ Hn), String.eqb_refl. reflexivity.
  - destruct vals1 as [|v1 vals1]; [discriminate|]. cbn [app last_value].
    rewrite IH; [reflexivity | | exact Hn]. cbn in Hlen. lia.
Qed.

Lemma resolved_holds_entry name v names vals s0 s :
  resolved names vals s0 s ->
  last_value name names vals = Some v ->
  holds_entry name v s.
Proof.
  unfold resolved, float_field, int_field, holds_entry.
  intros (R1 & R2 & R3 & R4 & R5 & R6 & R7 & R8 & R9) Hl.
  repeat split; intros ->; rewrite Hl in *; assumption.
Qed.

(** C7: when a name occurs more than once, or once, the record that comes
    out of the resolver holds in the field of that name what its last entry
    assigns, entries being taken in the caller's order; for the names
    RHO, EPS_ABS, RHO with the values 0.5, 1e-4, 0.9 the record has
    [rho = 0.9] and [eps_abs = 1e-4]. *)
Theorem last_entry_wins (P : Platform) :
  (forall names1 names2 vals1 vals2 name v pv w b s w',
     length names1 = length vals1 ->
     ~ In name names2 ->
     jdoubles w !! pv = Some (vals1 ++ v :: vals2) ->
     d3x_create_settings P (names1 ++ name :: names2) pv w = Some (Some (b, s), w') ->
     holds_entry name v s) /\
  (forall pv w,
     malloc_succeeds P (next_block w) = true ->
     jdoubles w !! pv = Some [0.5%float; 1e-4%float; 0.9%float] ->
     exists s w',
       d3x_create_settings P ["RHO"; "EPS_ABS"; "RHO"]%string pv w
       = Some (Some (next_block w, s), w') /\
       rho s = 0.9%float /\ eps_abs s = 1e-4%float).
Proof.
  split.
  - intros names1 names2 vals1 vals2 name v pv w b s w' Hlen Hn Hv H.
    apply d3x_create_settings_inv in H as [[H _]|(s1 & vals & H & Hv' & Hr & _)];
      [discriminate|].
    inversion H; subst s1 b. rewrite Hv in Hv'. inversion Hv'; subst vals.
    eapply resolved_holds_entry; [exact Hr|].
    apply last_value_last; assumption.
  - intros pv w Hm Hv.
    destruct (d3x_create_settings_defined P ["RHO"; "EPS_ABS"; "RHO"]%string pv _ w Hm Hv)
      as (s & w' & H); [reflexivity|].
    exists s, w'. split; [exact H|].
    apply d3x_create_settings_inv in H as [[H _]|(s1 & vals & H & Hv' & Hr & _)];
      [discriminate|].
    inversion H; subst s1. rewrite Hv in Hv'. inversion Hv'; subst vals.
    destruct Hr as (R1 & _ & _ & _ & _ & R6 & _). split; [exact R1 | exact R6].
Qed.

Lemma last_entry_wins_witness :
  exists s w',
    d3x_create_settings (lp64 always (Some unsolved, 0) (0, unsolved.1, unsolved.2))
      ["RHO"; "EPS_ABS"; "RHO"]%string 8 (qp_world 0 10 [0.5%float; 1e-4%float; 0.9%float])
    = Some (Some (0%nat, s), w') /\
    rho s = 0.9%float /\ eps_abs s = 1e-4%float /\
    holds_entry "EPS_ABS" 1e-4%float s.
Proof.
  destruct (proj2 (last_entry_wins (lp64 always (Some unsolved, 0)
                                      (0, unsolved.1, unsolved.2)))
              8%nat (qp_world 0 10 [0.5%float; 1e-4%float; 0.9%float]))
    as (s & w' & H & Hr & He).
  - reflexivity.
  - vm_compute; reflexivity.
  - exists s, w'. split; [exact H|]. split; [exact Hr|]. split; [exact He|].
    apply (proj1 (last_entry_wins (lp64 always (Some unsolved, 0)
                                     (0, unsolved.1, unsolved.2)))
             ["RHO"%string] ["RHO"%string] [0.5%float] [0.9%float]
             "EPS_ABS"%string 1e-4%float 8%nat
             (qp_world 0 10 [0.5%float; 1e-4%float; 0.9%float]) 0%nat s w').
    + reflexivity.
    + intros [E|[]]. discriminate E.
    + vm_compute; reflexivity.
    + exact H.
Defined.

(** C8: an entry whose name is none of the recognized ones prints the
    diagnostic on the error stream and leaves the record as it is; it does
    not make the resolver fail: whenever the allocations succeed and the
    entries are defined, the resolver returns a record, with one
    diagnostic in its trace for each such name. *)
Theorem unknown_name_is_ignored (P : Platform) :
  (forall name v s w,
     recognized name = false ->
     exists w',
       d3x_assign_setting name v s w = Some (s, w') /\
       steps w w' [EvGetChars name; EvStderr (unknown_message name);
                   EvReleaseChars name] 0) /\
  (forall names pv vals w,
     malloc_succeeds P (next_block w) = true ->
     jdoubles w !! pv = Some vals ->
     entries_defined names vals = true ->
     exists s w' evs,
       d3x_create_settings P names pv w = Some (Some (next_block w, s), w') /\
       trace w' = trace w ++ evs /\
       forall name, In name names -> recognized name = false ->
                    In (EvStderr (unknown_message name)) evs).
Proof.
  split.
  - intros name v s w Hn. apply d3x_assign_setting_unknown. exact Hn.
  - intros names pv vals w Hm Hv Hd.
    destruct (d3x_create_settings_defined P names pv vals w Hm Hv Hd) as (s & w' & H).
    exists s, w'. eexists. split; [exact H|].
    apply d3x_create_settings_inv in H as [[H _]|(s1 & vals1 & _ & _ & _ & S)];
      [discriminate|].
    destruct S as (_ & _ & S & _). split; [exact S|].
    intros name Hin Hn. rewrite !in_app_iff. right. left.
    unfold settings_events. apply in_flat_map. exists name. split; [exact Hin|].
    unfold setting_events. rewrite Hn. cbn. auto.
Qed.

Lemma unknown_name_is_ignored_witness :
  (exists w',
     d3x_assign_setting "FOO" 3%float osqp_defaults (qp_world 0 10 [])
     = Some (osqp_defaults, w')) /\
  (exists s w' evs,
     d3x_create_settings (lp64 always (Some unsolved, 0) (0, unsolved.1, unsolved.2))
       ["RHO"; "FOO"]%string 8 (qp_world 0 10 [0.5%float; 3%float])
     = Some (Some (0%nat, s), w') /\
     trace w' = evs /\
     In (EvStderr (unknown_message "FOO")) evs).
Proof.
  split.
  - destruct (proj1 (unknown_name_is_ignored
                       (lp64 always (Some unsolved, 0) (0, unsolved.1, unsolved.2)))
                "FOO"%string 3%float osqp_defaults (qp_world 0 10 []))
      as (w' & H & _).
    + vm_compute; reflexivity.
    + exists w'. exact H.
  - destruct (proj2 (unknown_name_is_ignored
                       (lp64 always (Some unsolved, 0) (0, unsolved.1, unsolved.2)))
                ["RHO"; "FOO"]%string 8%nat [0.5%float; 3%float]
                (qp_world 0 10 [0.5%float; 3%float]))
      as (s & w' & evs & H1 & H2 & H3).
    + reflexivity.
    + vm_compute; reflexivity.
    + vm_compute; reflexivity.
    + exists s, w', evs. split; [exact H1|]. split; [exact H2|].
      apply H3; [right; left; reflexivity | vm_compute; reflexivity].
Defined.

(** C10: the product default [polish = 1] is put in the record before the
    caller's entries are assigned.  Without a POLISH entry the record has
    [polish = 1]; with one, [polish] is the rounding of the value of the
    last POLISH entry, so that a value that rounds to 0 switches polishing
    off. *)
Theorem polish_override (P : Platform) :
  (forall names pv vals w b s w',
     ~ In "POLISH"%string names ->
     jdoubles w !! pv = Some vals ->
     d3x_create_settings P names pv w = Some (Some (b, s), w') ->
     polish s = 1) /\
  (forall names1 names2 vals1 vals2 v pv w b s w',
     length names1 = length vals1 ->
     ~ In "POLISH"%string names2 ->
     jdoubles w !! pv = Some (vals1 ++ v :: vals2) ->
     d3x_create_settings P (names1 ++ "POLISH"%string :: names2) pv w
     = Some (Some (b, s), w') ->
     c_round v = Some (polish s) /\
     (c_round v = Some 0 -> polish s = 0)).
Proof.
  split.
  - intros names pv vals w b s w' Hn Hv H.
    apply d3x_create_settings_inv in H as [[H _]|(s1 & vals' & H & Hv' & Hr & _)];
      [discriminate|].
    inversion H; subst s1 b. rewrite Hv in Hv'. inversion Hv'; subst vals'.
    destruct Hr as (_ & _ & _ & R4 & _). unfold int_field in R4.
    rewrite (last_value_absent _ _ _ Hn) in R4. exact R4.
  - intros names1 names2 vals1 vals2 v pv w b s w' Hlen Hn Hv H.
    apply d3x_create_settings_inv in H as [[H _]|(s1 & vals' & H & Hv' & Hr & _)];
      [discriminate|].
    inversion H; subst s1 b. rewrite Hv in Hv'. inversion Hv'; subst vals'.
    destruct Hr as (_ & _ & _ & R4 & _). unfold int_field in R4.
    rewrite (last_value_last _ v _ _ _ _ Hlen Hn) in R4.
    unfold d3x_to_int in R4. destruct (c_round v) as [z|]; [|discriminate].
    destruct (fits_jint z); [|discriminate]. inversion R4; subst z.
    split; [reflexivity|]. intros E. inversion E. reflexivity.
Qed.

Lemma polish_override_witness :
  (exists s w',
     d3x_create_settings (lp64 always (Some unsolved, 0) (0, unsolved.1, unsolved.2))
       ["RHO"; "POLISH"]%string 8 (qp_world 0 10 [0.5%float; 0.4%float])
     = Some (Some (0%nat, s), w') /\
     polish s = 0) /\
  (exists s w',
     d3x_create_settings (lp64 always (Some unsolved, 0) (0, unsolved.1, unsolved.2))
       ["RHO"]%string 8 (qp_world 0 10 [0.5%float])
     = Some (Some (0%nat, s), w') /\
     polish s = 1).
Proof.
  split.
  - eexists _, _. split; [vm_compute; reflexivity|].
    edestruct (proj2 (polish_override
                        (lp64 always (Some unsolved, 0) (0, unsolved.1, unsolved.2)))
                 ["RHO"%string] [] [0.5%float] [] 0.4%float 8%nat
                 (qp_world 0 10 [0.5%float; 0.4%float]))
      as (_ & H0).
    + reflexivity.
    + intros [].
    + vm_compute; reflexivity.
    + vm_compute; reflexivity.
    + apply H0. vm_compute. reflexivity.
  - eexists _, _. split; [vm_compute; reflexivity|].
    eapply (proj1 (polish_override
                     (lp64 always (Some unsolved, 0) (0, unsolved.1, unsolved.2)))
              ["RHO"%string] 8%nat [0.5%float] (qp_world 0 10 [0.5%float])).
    + intros [E|[]]. discriminate E.
    + vm_compute; reflexivity.
    + vm_compute; reflexivity.
Defined.
(** ** The entry point is defined on well-formed calls *)

Lemma bind_defined {A B} (m : M A) (k : A -> M B) a w w1 :
  m w = Some (a, w1) ->
  (exists b w', k a w1 = Some (b, w')) ->
  exists b w', bind m k w = Some (b, w').
Proof.
  intros Hm (b & w' & Hk). exists b, w'. unfold bind. rewrite Hm. exact Hk.
Qed.

Lemma emit_defined e w : exists w', emit e w = Some (tt, w').
Proof. unfold emit. eauto. Qed.

Lemma GetDoubleArrayElements_defined a w :
  is_Some (jdoubles w !! a) -> exists l w', GetDoubleArrayElements a w = Some (l, w').
Proof.
  intros [l Hl]. unfold GetDoubleArrayElements, read_doubles, bind, emit, ret.
  rewrite Hl. eauto.
Qed.

Lemma c_malloc_defined P w : exists p w', c_malloc P w = Some (p, w').
Proof.
  unfold c_malloc, fresh_block, bind, emit, ret.
  destruct (malloc_succeeds P (next_block w)); eauto.
Qed.

(** A triplet with its entries in range is one the conversion can read. *)
Lemma triplet_defined_readable (b : block) (nrow ncol nzmax : c_int)
  (Ti Tj : list c_int) (Tx : list c_float) st :
  (length Tx <= length Ti)%nat ->
  (length Tx <= length Tj)%nat ->
  Forall (fun i => 0 <= i < nrow) (take (length Tx) Ti) ->
  Forall (fun j => 0 <= j < ncol) (take (length Tx) Tj) ->
  triplet_readable (mk_csc b nrow ncol nzmax (Z.of_nat (length Tx)) Tj Ti Tx st) = true.
Proof.
  intros Li Lj Fi Fj. unfold triplet_readable. cbn.
  rewrite Nat2Z.id, !andb_true_iff, !Z.leb_le, !forallb_forall.
  repeat split; try lia.
  - intros j Hj. rewrite Forall_forall in Fj. specialize (Fj j).
    rewrite andb_true_iff, Z.leb_le, Z.ltb_lt. apply Fj.
    apply list_elem_of_In. exact Hj.
  - intros i Hi. rewrite Forall_forall in Fi. specialize (Fi i).
    rewrite andb_true_iff, Z.leb_le, Z.ltb_lt. apply Fi.
    apply list_elem_of_In. exact Hi.
Qed.

Lemma triplet_defined_ext w w' nrow ncol rowind colind coeffs :
  jdoubles w' = jdoubles w -> jlongs w' = jlongs w ->
  triplet_defined w nrow ncol rowind colind coeffs ->
  triplet_defined w' nrow ncol rowind colind coeffs.
Proof. unfold triplet_defined. intros -> ->. auto. Qed.

Lemma d3x_create_csc_defined P nrow ncol rowind colind coeffs w :
  triplet_defined w nrow ncol rowind colind coeffs ->
  malloc_succeeds P (next_block w) = true ->
  exists r w', d3x_create_csc P nrow ncol rowind colind coeffs w = Some (r, w').
Proof.
  intros (Ti & Tj & Tx & Hi & Hj & Hx & Li & Lj & Fi & Fj) Hm.
  unfold d3x_create_csc, GetArrayLength, GetLongArrayElements,
    GetDoubleArrayElements, read_doubles, read_longs, csc_matrix, c_malloc,
    fresh_block, triplet_to_csc, c_free, ReleaseLongArrayElements,
    ReleaseDoubleArrayElements, bind, emit, ret.
  cbn. rewrite Hx. cbn. rewrite Hi. cbn. rewrite Hj. cbn. rewrite Hx. cbn.
  rewrite Hm. cbn.
  rewrite (triplet_defined_readable _ _ _ _ _ _ _ _ Li Lj Fi Fj).
  match goal with
  | |- context [compress P ?T] => destruct (compress P T) as [[[cp ci] cx]|]
  end; cbn; eauto.
Qed.

Lemma d3x_create_data_defined P (c : Call) w :
  call_defined P c w ->
  exists rd w',
    d3x_create_data P (numVar c) (numDual c) (linObjCoeff c)
      (quadObjRowInd c) (quadObjColInd c) (quadObjCoeff c)
      (linConRowInd c) (linConColInd c) (linConCoeff c)
      (linConLower c) (linConUpper c) w = Some (rd, w').
Proof.
  intros (_ & Hd & HA & HP & Hm & _). unfold d3x_create_data.
  destruct (c_malloc_defined P w) as (p & w1 & E1).
  eapply bind_defined; [exact E1|].
  apply c_malloc_inv in E1 as [[-> S1]|[-> S1]].
  - destruct S1 as (Hj1 & Hl1 & _ & Hn1).
    destruct (GetDoubleArrayElements_defined (linObjCoeff c) w1) as (q & w2 & E2).
    { rewrite Hj1. apply Hd. cbn. auto. }
    eapply bind_defined; [exact E2|].
    apply GetDoubleArrayElements_inv in E2 as [_ (Hj2 & Hl2 & _ & Hn2)].
    destruct (GetDoubleArrayElements_defined (linConLower c) w2) as (l & w3 & E3).
    { rewrite Hj2, Hj1. apply Hd. cbn. auto. }
    eapply bind_defined; [exact E3|].
    apply GetDoubleArrayElements_inv in E3 as [_ (Hj3 & Hl3 & _ & Hn3)].
    destruct (GetDoubleArrayElements_defined (linConUpper c) w3) as (u & w4 & E4).
    { rewrite Hj3, Hj2, Hj1. apply Hd. cbn. auto. }
    eapply bind_defined; [exact E4|].
    apply GetDoubleArrayElements_inv in E4 as [_ (Hj4 & Hl4 & _ & Hn4)].
    destruct (d3x_create_csc_defined P (numDual c) (numVar c)
                (linConRowInd c) (linConColInd c) (linConCoeff c) w4)
      as (A & w5 & E5).
    { eapply triplet_defined_ext; [| |exact HA].
      - rewrite Hj4, Hj3, Hj2, Hj1. reflexivity.
      - rewrite Hl4, Hl3, Hl2, Hl1. reflexivity. }
    { rewrite Hn4, Hn3, Hn2, Hn1.
      replace (next_block w + 1 + 0 + 0 + 0)%nat with (next_block w + 1)%nat by lia.
      apply Hm. cbn. auto. }
    eapply bind_defined; [exact E5|].
    apply d3x_create_csc_inv in E5 as [(Hj5 & Hl5 & _ & Hn5) HA5].
    destruct (d3x_create_csc_defined P (numVar c) (numVar c)
                (quadObjRowInd c) (quadObjColInd c) (quadObjCoeff c) w5)
      as (Pm & w6 & E6).
    { eapply triplet_defined_ext; [| |exact HP].
      - rewrite Hj5, Hj4, Hj3, Hj2, Hj1. reflexivity.
      - rewrite Hl5, Hl4, Hl3, Hl2, Hl1. reflexivity. }
    { rewrite Hn5, Hn4, Hn3, Hn2, Hn1.
      replace (next_block w + 1 + 0 + 0 + 0 + (1 + blocks_of A))%nat
        with (next_block w + (2 + blocks_of A))%nat by lia.
      apply Hm. destruct A as [m|]; [|cbn; auto].
      destruct (HA5 m eq_refl) as [_ Hst]. unfold blocks_of, store_blocks.
      rewrite Hst. cbn. auto. }
    eapply bind_defined; [exact E6|]. unfold ret. eauto.
  - unfold fprintf_stderr, bind, emit, ret. eauto.
Qed.

Lemma steps_calm w w' evs k :
  steps w w' evs k -> existsb throw_event evs = false ->
  exception_pending w = false -> exception_pending w' = false.
Proof.
  intros (_ & _ & T & _) He Hw. unfold exception_pending in *.
  rewrite T, existsb_app, Hw, He. reflexivity.
Qed.

Lemma housekeeping_not_throw e : housekeeping_event e = true -> throw_event e = false.
Proof. destruct e; cbn; congruence. Qed.

(** Every well-formed call returns a status. *)
Lemma run_defined P (c : Call) w :
  call_defined P c w -> exists st w', run P c w = Some (st, w').
Proof.
  intros Hc. pose proof Hc as (Hcalm & Hd & _ & _ & Hm & (vals & Hv & He) & Hs).
  unfold run, Java_com_d3x_osqp_OsqpModel_run.
  destruct (negb (sizeof_c_int P =? sizeof_long P)).
  { unfold fprintf_stderr, bind, emit, ret. eauto. }
  destruct (negb (sizeof_c_float P =? sizeof_double P)).
  { unfold fprintf_stderr, bind, emit, ret. eauto. }
  destruct (d3x_create_data_defined P c w Hc) as (rd & w1 & E1).
  eapply bind_defined; [exact E1|].
  apply d3x_create_data_inv in E1 as [S1 _].
  pose proof (steps_calm _ _ _ _ S1
                (existsb_housekeeping _ _ housekeeping_not_throw
                   (builder_events_housekeeping _ _ _)) Hcalm) as C1.
  destruct S1 as (Hj1 & Hl1 & _ & Hn1).
  assert (E2 : exists rs w2, d3x_create_settings P (paramNames c) (paramValues c) w1
                             = Some (rs, w2)).
  { destruct (malloc_succeeds P (next_block w1)) eqn:Hm1.
    - rewrite <- Hj1 in Hv.
      destruct (d3x_create_settings_defined P _ _ _ w1 Hm1 Hv He) as (s & w2 & E).
      eauto.
    - unfold d3x_create_settings, c_malloc, fresh_block, fprintf_stderr, bind, emit, ret.
      cbn. rewrite Hm1. eauto. }
  destruct E2 as (rs & w2 & E2).
  eapply bind_defined; [exact E2|].
  assert (Hj2 : jdoubles w2 = jdoubles w /\ exception_pending w2 = false).
  { apply d3x_create_settings_inv in E2 as [[_ S2]|(s & v & _ & _ & _ & S2)].
    - split; [rewrite (proj1 S2); exact Hj1|].
      exact (steps_calm _ _ _ _ S2 eq_refl C1).
    - split; [rewrite (proj1 S2); exact Hj1|].
      refine (steps_calm _ _ _ _ S2 _ C1).
      rewrite !existsb_app,
        (existsb_housekeeping _ _ housekeeping_not_throw
           (settings_events_housekeeping _)).
      reflexivity. }
  destruct Hj2 as [Hj2 C2].
  destruct rd as [d|]; [|unfold ret; eauto].
  destruct rs as [[sb s]|]; [|unfold ret; eauto].
  unfold GetStringUTFLength. eapply bind_defined; [reflexivity|].
  match goal with
  | |- exists b w', bind ?m _ w2 = _ =>
      assert (E3 : exists w3, m w2 = Some (tt, w3))
  end.
  { unfold GetStringUTFChars, osqp_open_log, ReleaseStringUTFChars, bind, emit, ret.
    destruct (0 <? Z.of_nat (String.length (logName c))); cbn; eauto. }
  destruct E3 as (w3 & E3).
  eapply bind_defined; [exact E3|].
  apply open_log_inv in E3.
  assert (C3 : exception_pending w3 = false).
  { refine (steps_calm _ _ _ _ E3 _ C2). unfold log_events.
    destruct (0 <? _); reflexivity. }
  destruct E3 as (Hj3 & _).
  assert (E4 : exists r w4, d3x_create_workspace P d s w3 = Some (r, w4)).
  { unfold d3x_create_workspace, osqp_setup, osqp_cleanup, fresh_block,
      fprintf_stderr, bind, emit, ret.
    destruct (setup_answer P d s) as [[[sol inf]|] ef]; cbn.
    - destruct (negb (ef =? 0)); eauto.
    - eauto. }
  destruct E4 as (r & w4 & E4).
  eapply bind_defined; [exact E4|].
  assert (Hj4 : jdoubles w4 = jdoubles w3 /\ exception_pending w4 = false).
  { apply d3x_create_workspace_inv in E4
      as [(ef & _ & _ & S)|[(i & ef & _ & _ & _ & S)|(i & _ & _ & S)]];
      (split; [exact (proj1 S) | exact (steps_calm _ _ _ _ S eq_refl C3)]). }
  destruct Hj4 as [Hj4 C4].
  destruct r as [work|].
  2: { unfold osqp_close_log, bind, emit, ret. eauto. }
  destruct (osqp_solve P work w4) as [[r5 w5]|] eqn:E5.
  2: { unfold osqp_solve, bind, emit, ret in E5.
       destruct (solve_answer P work) as [[ef sol] inf]. discriminate E5. }
  eapply bind_defined; [exact E5|].
  apply osqp_solve_inv in E5 as (ef & sol & inf & Hsa & -> & S5).
  pose proof (steps_calm _ _ _ _ S5 eq_refl C4) as C5.
  destruct S5 as (Hj5 & _).
  cbn [fst snd solution info x y status_val].
  specialize (Hs work). rewrite Hsa in Hs. cbn in Hs.
  assert (E6 : exists (status : Z) w6,
             (if ef =? 0 then
                SetDoubleArrayRegion (optPrimal c) 0 (to_jint (numVar c)) (x sol) ;;
                SetDoubleArrayRegion (optDual c) 0 (to_jint (numDual c)) (y sol) ;;
                ret (status_val inf)
              else ret ef) w5 = Some (status, w6)).
  { destruct (Z.eqb_spec ef 0) as [->|_]; [|unfold ret; eauto].
    destruct (Hs eq_refl) as (Hx & Hy & primal & Hp & Hroom).
    destruct (Hd (optDual c)) as [dual Hdu]; [cbn; auto 10|].
    assert (Hj : jdoubles w5 = jdoubles w) by (rewrite Hj5, Hj4, Hj3; exact Hj2).
    rewrite <- Hj in Hp, Hdu.
    (* the copy into the primal buffer lies inside it *)
    assert (E6 : exists w6,
               SetDoubleArrayRegion (optPrimal c) 0 (to_jint (numVar c)) (x sol) w5
               = Some (tt, w6) /\
               exception_pending w6 = false /\ is_Some (jdoubles w6 !! optDual c)).
    { unfold SetDoubleArrayRegion. rewrite C5, Hp.
      replace ((0 <=? 0) && (0 <=? to_jint (numVar c))
               && (0 + to_jint (numVar c) <=? Z.of_nat (length primal))) with true.
      2: { symmetry. rewrite !andb_true_iff, !Z.leb_le. lia. }
      destruct (Z.ltb_spec (Z.of_nat (length (x sol))) (to_jint (numVar c))); [lia|].
      eexists. split; [reflexivity|]. cbn. split.
      - unfold exception_pending in *. cbn. rewrite existsb_app, C5. reflexivity.
      - destruct (decide (optPrimal c = optDual c)) as [->|Hne].
        + rewrite lookup_insert_eq. eauto.
        + rewrite lookup_insert_ne by exact Hne. eauto. }
    destruct E6 as (w6 & E6 & C6 & [dual' Hdu']).
    assert (E7 : exists w7,
               SetDoubleArrayRegion (optDual c) 0 (to_jint (numDual c)) (y sol) w6
               = Some (tt, w7)).
    { unfold SetDoubleArrayRegion. rewrite C6, Hdu'.
      destruct ((0 <=? 0) && (0 <=? to_jint (numDual c))
                && (0 + to_jint (numDual c) <=? Z.of_nat (length dual'))).
      - destruct (Z.ltb_spec (Z.of_nat (length (y sol))) (to_jint (numDual c))); [lia|].
        eauto.
      - unfold emit. eauto. }
    destruct E7 as (w7 & E7).
    exists (status_val inf), w7. unfold bind. rewrite E6, E7. reflexivity. }
  destruct E6 as (status & w6 & E6).
  eapply bind_defined; [exact E6|].
  unfold osqp_cleanup, c_free, d3x_free_data, ReleaseDoubleArrayElements,
    osqp_close_log, bind, emit, ret. cbn. eauto.
Qed.

Example qp_call_is_defined :
  call_defined (lp64 always (Some unsolved, 0) (0, mk_solution [0%float] [1%float], mk_info 1))
    (qp_call ["RHO"; "FOO"; "POLISH"]%string)
    (qp_world 0 10 [0.5%float; 3%float; 0.4%float]).
Proof.
  unfold call_defined. split; [reflexivity|]. split.
  { intros a Ha. cbn in Ha.
    repeat (destruct Ha as [<-|Ha]; [vm_compute; eauto|]). destruct Ha. }
  split.
  { exists [0], [0], [1%float].
    split; [vm_compute; reflexivity|]. split; [vm_compute; reflexivity|].
    split; [vm_compute; reflexivity|]. split; [cbn; lia|]. split; [cbn; lia|].
    split; cbn; repeat constructor; lia. }
  split.
  { exists [], [], [].
    split; [vm_compute; reflexivity|]. split; [vm_compute; reflexivity|].
    split; [vm_compute; reflexivity|]. split; [cbn; lia|]. split; [cbn; lia|].
    split; cbn; constructor. }
  split; [intros k Hk; reflexivity|]. split.
  { exists [0.5%float; 3%float; 0.4%float]. split; vm_compute; reflexivity. }
  intros work _. split; [vm_compute; discriminate|].
  split; [vm_compute; discriminate|].
  exists [7%float]. split; [vm_compute; reflexivity|]. vm_compute. split; discriminate.
Qed.

(** ** The rounding of [d3x_to_int] on examples *)

Example c_round_half : c_round 0.5 = Some 1 /\ c_round (-0.5) = Some (-1).
Proof. split; vm_compute; reflexivity. Qed.

Example c_round_ties_away : c_round 2.5 = Some 3 /\ c_round (-2.5) = Some (-3).
Proof. split; vm_compute; reflexivity. Qed.

Example c_round_below_half :
  c_round 0.4 = Some 0 /\ c_round 0.49999999999999994 = Some 0.
Proof. split; vm_compute; reflexivity. Qed.

Example c_round_not_finite :
  c_round infinity = None /\ c_round neg_infinity = None /\ c_round nan = None.
Proof. repeat split; vm_compute; reflexivity. Qed.

Example d3x_to_int_in_range :
  d3x_to_int 4000 = Some 4000 /\ d3x_to_int (-1.5) = Some (-2) /\
  d3x_to_int 2147483647.4 = Some 2147483647.
Proof. repeat split; vm_compute; reflexivity. Qed.

Example d3x_to_int_out_of_range :
  d3x_to_int 2147483647.5 = None /\ d3x_to_int 3e9 = None /\ d3x_to_int nan = None.
Proof. repeat split; vm_compute; reflexivity. Qed.

(** ** Output buffers shorter than the problem *)

(** With [numDual = 2] and a dual buffer of one element the region copy
    raises the Java exception and writes nothing; the exception is pending
    when the call returns. *)
Example short_buffer_not_written :
  exists w',
    run (lp64 always (Some unsolved, 0)
           (0, mk_solution [0%float] [1%float; 2%float], mk_info 1))
      (mk_call 1 2 EmptyString 1 11 12 2 13 14 3 4 5 6 7 [] 8) (qp_world 0 10 [])
    = Some (1, w') /\
    jdoubles w' !! 7%nat = Some [7%float] /\
    In (EvThrow "ArrayIndexOutOfBoundsException") (trace w') /\
    exception_pending w' = true.
Proof.
  eexists. split; [vm_compute; reflexivity|]. split; [vm_compute; reflexivity|].
  split; [|vm_compute; reflexivity].
  vm_compute. repeat (first [left; reflexivity | right]).
Qed.

(** With [numVar = 2] and a primal buffer of one element the first copy
    raises the exception, and the second one is then a JNI call made with
    an exception pending: the call has no defined result. *)
Example short_primal_buffer_undefined :
  run (lp64 always (Some unsolved, 0)
         (0, mk_solution [0%float; 0%float] [1%float], mk_info 1))
    (mk_call 2 1 EmptyString 1 11 12 2 13 14 3 4 5 6 7 [] 8) (qp_world 0 10 [])
  = None.
Proof. vm_compute. reflexivity. Qed.

(** * Further properties of the source file *)

(** ** [d3x_to_int] *)

(** X1: on a finite double of sign [s], mantissa [m] and exponent [e] (the
    value [m * 2^e]), a result of [d3x_to_int] lies in the range of [int],
    has the sign of the value, and is the nearest integer, a value halfway
    between two integers going to the one farther from zero. *)
Theorem d3x_to_int_nearest (value : jdouble) (s : bool) (m : positive) (e z : Z) :
  Prim2SF value = S754_finite s m e ->
  d3x_to_int value = Some z ->
  JINT_MIN <= z <= JINT_MAX /\
  (if s then z <= 0 else 0 <= z) /\
  (0 <= e -> Z.abs z = Z.pos m * 2 ^ e) /\
  (e < 0 -> - 2 ^ (- e) < 2 * (Z.abs z * 2 ^ (- e) - Z.pos m) <= 2 ^ (- e)).
Proof.
  intros Hsf H. unfold d3x_to_int, c_round in H. rewrite Hsf in H.
  set (mag := if 0 <=? e then Z.pos m * 2 ^ e
              else (Z.pos m + 2 ^ (- e - 1)) `div` 2 ^ (- e)) in H.
  destruct (fits_jint (if s then - mag else mag)) eqn:Hfit; [|discriminate].
  inversion H; subst z. clear H.
  assert (Hmag : 0 <= mag).
  { unfold mag. destruct (Z.leb_spec 0 e).
    - apply Z.mul_nonneg_nonneg; [lia | apply Z.pow_nonneg; lia].
    - apply Z.div_pos; [|apply Z.pow_pos_nonneg; lia].
      pose proof (Z.pow_nonneg 2 (- e - 1) ltac:(lia)). lia. }
  assert (Habs : Z.abs (if s then - mag else mag) = mag) by (destruct s; lia).
  split.
  { unfold fits_jint in Hfit. apply andb_prop in Hfit as [H1 H2].
    apply Z.leb_le in H1, H2. lia. }
  split; [destruct s; lia|]. rewrite Habs. split.
  - intros He. unfold mag. destruct (Z.leb_spec 0 e); [reflexivity | lia].
  - intros He. unfold mag. destruct (Z.leb_spec 0 e); [lia|].
    assert (Hpow : 2 ^ (- e) = 2 * 2 ^ (- e - 1)).
    { replace (- e) with (Z.succ (- e - 1)) at 1 by lia.
      apply Z.pow_succ_r. lia. }
    pose proof (Z.pow_pos_nonneg 2 (- e - 1) ltac:(lia) ltac:(lia)) as Hh.
    set (h := 2 ^ (- e - 1)) in *. rewrite Hpow.
    pose proof (Z.div_mod (Z.pos m + h) (2 * h) ltac:(lia)) as Hdm.
    pose proof (Z.mod_pos_bound (Z.pos m + h) (2 * h) ltac:(lia)) as Hr.
    set (q := (Z.pos m + h) `div` (2 * h)) in *.
    set (r := (Z.pos m + h) `mod` (2 * h)) in *.
    nia.
Qed.

Lemma d3x_to_int_nearest_witness :
  exists z, d3x_to_int 2.5 = Some z /\ JINT_MIN <= z <= JINT_MAX /\ 0 <= z.
Proof.
  exists 3.
  destruct (d3x_to_int_nearest 2.5 false 5629499534213120 (-51) 3)
    as (H1 & H2 & _).
  - vm_compute; reflexivity.
  - vm_compute; reflexivity.
  - split; [vm_compute; reflexivity|]. split; [exact H1 | exact H2].
Defined.

(** ** [d3x_assign_setting] *)

Lemma settings_ext (s1 s2 : OSQPSettings) :
  rho s1 = rho s2 -> sigma s1 = sigma s2 -> alpha s1 = alpha s2 ->
  polish s1 = polish s2 -> max_iter s1 = max_iter s2 ->
  eps_abs s1 = eps_abs s2 -> eps_rel s1 = eps_rel s2 ->
  eps_prim_inf s1 = eps_prim_inf s2 -> eps_dual_inf s1 = eps_dual_inf s2 ->
  s1 = s2.
Proof.
  destruct s1, s2. cbn. intros. subst. reflexivity.
Qed.

Lemma balance_setting_events r name : balance r (setting_events name) = 0.
Proof.
  unfold setting_events. destruct (recognized name); cbn [balance delta app]; lia.
Qed.

(** X2: one assignment changes no field but the one its name selects,
    touches no Java array and no block, and gives back the string view it
    takes: after it nothing more is held than before. *)
Theorem assignment_touches_one_field (name : string) (v : jdouble)
  (s s' : OSQPSettings) (w w' : World) :
  d3x_assign_setting name v s w = Some (s', w') ->
  (name <> "RHO"%string -> rho s' = rho s) /\
  (name <> "SIGMA"%string -> sigma s' = sigma s) /\
  (name <> "ALPHA"%string -> alpha s' = alpha s) /\
  (name <> "POLISH"%string -> polish s' = polish s) /\
  (name <> "MAX_ITER"%string -> max_iter s' = max_iter s) /\
  (name <> "EPS_ABS"%string -> eps_abs s' = eps_abs s) /\
  (name <> "EPS_REL"%string -> eps_rel s' = eps_rel s) /\
  (name <> "EPS_PRIM_INF"%string -> eps_prim_inf s' = eps_prim_inf s) /\
  (name <> "EPS_DUAL_INF"%string -> eps_dual_inf s' = eps_dual_inf s) /\
  jdoubles w' = jdoubles w /\ jlongs w' = jlongs w /\ next_block w' = next_block w /\
  exists evs, trace w' = trace w ++ evs /\ forall r, balance r evs = 0.
Proof.
  intros H. apply d3x_assign_setting_inv in H
    as [(A1 & A2 & A3 & A4 & A5 & A6 & A7 & A8 & A9) (Hd & Hl & Ht & Hn)].
  repeat match goal with
         | |- (name <> ?n -> _) /\ _ =>
             split; [intros Hne; apply String.eqb_neq in Hne;
                     rewrite Hne in *; assumption|]
         end.
  split; [exact Hd|]. split; [exact Hl|]. split; [lia|].
  exists (setting_events name). split; [exact Ht|].
  intros r. apply balance_setting_events.
Qed.

Lemma assignment_touches_one_field_witness :
  exists s' w',
    d3x_assign_setting "SIGMA" 2%float osqp_defaults (qp_world 0 10 []) = Some (s', w') /\
    rho s' = rho osqp_defaults /\ polish s' = polish osqp_defaults.
Proof.
  eexists _, _. split; [vm_compute; reflexivity|].
  edestruct (assignment_touches_one_field "SIGMA" 2%float osqp_defaults)
    with (w := qp_world 0 10 []) as (H1 & _ & _ & H4 & _).
  - vm_compute; reflexivity.
  - split; [apply H1; discriminate | apply H4; discriminate].
Defined.

Lemma float_assignments_commute (b1 b2 : bool) (v1 v2 a a1 a12 a2 a21 : jdouble) :
  (b1 = true -> b2 = true -> False) ->
  a1 = (if b1 then v1 else a) -> a12 = (if b2 then v2 else a1) ->
  a2 = (if b2 then v2 else a) -> a21 = (if b1 then v1 else a2) ->
  a12 = a21.
Proof.
  intros Hx -> -> -> ->. destruct b1, b2; try reflexivity. exfalso. auto.
Qed.

Lemma int_assignments_commute (b1 b2 : bool) (o1 o2 : option Z) (a a1 a12 a2 a21 : Z) :
  (b1 = true -> b2 = true -> False) ->
  (if b1 then o1 = Some a1 else a1 = a) ->
  (if b2 then o2 = Some a12 else a12 = a1) ->
  (if b2 then o2 = Some a2 else a2 = a) ->
  (if b1 then o1 = Some a21 else a21 = a2) ->
  a12 = a21.
Proof.
  intros Hx H1 H2 H3 H4. destruct b1, b2; try congruence. exfalso. auto.
Qed.

(** X3: two assignments under different names commute: whichever of the
    two entries is assigned first, the record is the same afterwards. *)
Theorem assignments_commute (n1 n2 : string) (v1 v2 : jdouble)
  (s sa sab sb sba : OSQPSettings) (w wa wab w0 wb wba : World) :
  n1 <> n2 ->
  d3x_assign_setting n1 v1 s w = Some (sa, wa) ->
  d3x_assign_setting n2 v2 sa wa = Some (sab, wab) ->
  d3x_assign_setting n2 v2 s w0 = Some (sb, wb) ->
  d3x_assign_setting n1 v1 sb wb = Some (sba, wba) ->
  sab = sba.
Proof.
  intros Hne H1 H2 H3 H4.
  apply d3x_assign_setting_inv in H1 as [(A1 & A2 & A3 & A4 & A5 & A6 & A7 & A8 & A9) _].
  apply d3x_assign_setting_inv in H2 as [(B1 & B2 & B3 & B4 & B5 & B6 & B7 & B8 & B9) _].
  apply d3x_assign_setting_inv in H3 as [(C1 & C2 & C3 & C4 & C5 & C6 & C7 & C8 & C9) _].
  apply d3x_assign_setting_inv in H4 as [(D1 & D2 & D3 & D4 & D5 & D6 & D7 & D8 & D9) _].
  assert (Hx : forall name, String.eqb n1 name = true -> String.eqb n2 name = true -> False).
  { intros name E1 E2. apply String.eqb_eq in E1, E2. congruence. }
  apply settings_ext.
  - exact (float_assignments_commute _ _ _ _ _ _ _ _ _ (Hx _) A1 B1 C1 D1).
  - exact (float_assignments_commute _ _ _ _ _ _ _ _ _ (Hx _) A2 B2 C2 D2).
  - exact (float_assignments_commute _ _ _ _ _ _ _ _ _ (Hx _) A3 B3 C3 D3).
  - exact (int_assignments_commute _ _ _ _ _ _ _ _ _ (Hx _) A4 B4 C4 D4).
  - exact (int_assignments_commute _ _ _ _ _ _ _ _ _ (Hx _) A5 B5 C5 D5).
  - exact (float_assignments_commute _ _ _ _ _ _ _ _ _ (Hx _) A6 B6 C6 D6).
  - exact (float_assignments_commute _ _ _ _ _ _ _ _ _ (Hx _) A7 B7 C7 D7).
  - exact (float_assignments_commute _ _ _ _ _ _ _ _ _ (Hx _) A8 B8 C8 D8).
  - exact (float_assignments_commute _ _ _ _ _ _ _ _ _ (Hx _) A9 B9 C9 D9).
Qed.

Lemma assignments_commute_witness :
  exists s1 s2 w1 w2,
    (d3x_assign_setting "RHO" 0.5 osqp_defaults (qp_world 0 10 []) = Some (s1, w1) /\
     d3x_assign_setting "POLISH" 0.4 osqp_defaults (qp_world 0 10 []) = Some (s2, w2)) /\
    exists s12 s21 w12 w21,
      d3x_assign_setting "POLISH" 0.4 s1 w1 = Some (s12, w12) /\
      d3x_assign_setting "RHO" 0.5 s2 w2 = Some (s21, w21) /\
      s12 = s21.
Proof.
  eexists _, _, _, _. split; [split; vm_compute; reflexivity|].
  eexists _, _, _, _. split; [vm_compute; reflexivity|].
  split; [vm_compute; reflexivity|].
  eapply (assignments_commute "RHO" "POLISH" 0.5 0.4 osqp_defaults)
    with (w := qp_world 0 10 []) (w0 := qp_world 0 10 []).
  - discriminate.
  - vm_compute; reflexivity.
  - vm_compute; reflexivity.
  - vm_compute; reflexivity.
  - vm_compute; reflexivity.
Defined.

(** ** [d3x_create_settings] *)

(** Two resolutions from the same defaults that agree on the last value of
    every recognized name give the same record. *)
Lemma resolved_determines names vals names' vals' s0 s s' :
  resolved names vals s0 s ->
  resolved names' vals' s0 s' ->
  (forall name, In name known_names ->
                last_value name names vals = last_value name names' vals') ->
  s = s'.
Proof.
  unfold resolved, float_field, int_field.
  intros (R1 & R2 & R3 & R4 & R5 & R6 & R7 & R8 & R9)
         (Q1 & Q2 & Q3 & Q4 & Q5 & Q6 & Q7 & Q8 & Q9) Hsame.
  assert (E1 := Hsame "RHO"%string ltac:(cbn; auto 10)).
  assert (E2 := Hsame "SIGMA"%string ltac:(cbn; auto 10)).
  assert (E3 := Hsame "ALPHA"%string ltac:(cbn; auto 10)).
  assert (E4 := Hsame "POLISH"%string ltac:(cbn; auto 10)).
  assert (E5 := Hsame "MAX_ITER"%string ltac:(cbn; auto 10)).
  assert (E6 := Hsame "EPS_ABS"%string ltac:(cbn; auto 10)).
  assert (E7 := Hsame "EPS_REL"%string ltac:(cbn; auto 10)).
  assert (E8 := Hsame "EPS_PRIM_INF"%string ltac:(cbn; auto 10)).
  assert (E9 := Hsame "EPS_DUAL_INF"%string ltac:(cbn; auto 10)).
  rewrite E1 in R1. rewrite E2 in R2. rewrite E3 in R3. rewrite E4 in R4.
  rewrite E5 in R5. rewrite E6 in R6. rewrite E7 in R7. rewrite E8 in R8.
  rewrite E9 in R9.
  apply settings_ext; try congruence.
  - destruct (last_value "POLISH" names' vals'); congruence.
  - destruct (last_value "MAX_ITER" names' vals'); congruence.
Qed.

Lemma last_value_skip name n v names1 names2 vals1 vals2 :
  String.eqb n name = false ->
  length names1 = length vals1 ->
  last_value name (names1 ++ n :: names2) (vals1 ++ v :: vals2)
  = last_value name (names1 ++ names2) (vals1 ++ vals2).
Proof.
  intros Hn. revert vals1. induction names1 as [|n1 names1 IH]; intros vals1 Hlen.
  - destruct vals1; [|discriminate]. cbn [app last_value]. rewrite Hn.
    destruct (last_value name names2 vals2); reflexivity.
  - destruct vals1 as [|v1 vals1]; [discriminate|]. cbn [app last_value].
    rewrite IH by (cbn in Hlen; lia). reflexivity.
Qed.

Lemma last_value_surplus name names vals surplus :
  (length names <= length vals)%nat ->
  last_value name names (vals ++ surplus) = last_value name names vals.
Proof.
  revert vals. induction names as [|n names IH]; intros vals Hlen; [reflexivity|].
  destruct vals as [|v vals]; [cbn in Hlen; lia|]. cbn [app last_value].
  rewrite IH by (cbn in Hlen; lia). reflexivity.
Qed.

Lemma created_settings_resolved P names pv w b s w' :
  d3x_create_settings P names pv w = Some (Some (b, s), w') ->
  exists vals, jdoubles w !! pv = Some vals /\ resolved names vals (forced_defaults P) s.
Proof.
  intros H.
  apply d3x_create_settings_inv in H as [[H _]|(s1 & vals & H & Hv & Hr & _)];
    [discriminate|].
  inversion H; subst. eauto.
Qed.

(** X4: an entry with an unrecognized name has no part in the result: the
    record resolved from a list of entries is the record resolved from the
    list without that entry. *)
Theorem unknown_entry_can_be_dropped (P : Platform) (n : string) (v : jdouble)
  (names1 names2 : list string) (vals1 vals2 : list jdouble)
  (pv pv0 : jarray) (w w' w0 w0' : World) (b b0 : block) (s s0 : OSQPSettings) :
  recognized n = false ->
  length names1 = length vals1 ->
  jdoubles w !! pv = Some (vals1 ++ v :: vals2) ->
  jdoubles w0 !! pv0 = Some (vals1 ++ vals2) ->
  d3x_create_settings P (names1 ++ n :: names2) pv w = Some (Some (b, s), w') ->
  d3x_create_settings P (names1 ++ names2) pv0 w0 = Some (Some (b0, s0), w0') ->
  s = s0.
Proof.
  intros Hn Hlen Hv Hv0 H H0.
  apply created_settings_resolved in H as (vals & Hv' & Hr).
  apply created_settings_resolved in H0 as (vals0 & Hv0' & Hr0).
  rewrite Hv in Hv'. inversion Hv'; subst vals.
  rewrite Hv0 in Hv0'. inversion Hv0'; subst vals0.
  eapply resolved_determines; [exact Hr | exact Hr0 |].
  intros name Hname. apply last_value_skip; [|exact Hlen].
  destruct (String.eqb_spec n name) as [->|]; [|reflexivity].
  unfold recognized in Hn.
  assert (Ht : existsb (String.eqb name) known_names = true).
  { apply existsb_exists. exists name. split; [exact Hname | apply String.eqb_refl]. }
  congruence.
Qed.

Lemma unknown_entry_can_be_dropped_witness :
  exists s s0 w' w0',
    d3x_create_settings (lp64 always (Some unsolved, 0) (0, unsolved.1, unsolved.2))
      ["RHO"; "FOO"; "POLISH"]%string 8 (qp_world 0 10 [0.5; 3; 0.4]%float)
    = Some (Some (0%nat, s), w') /\
    d3x_create_settings (lp64 always (Some unsolved, 0) (0, unsolved.1, unsolved.2))
      ["RHO"; "POLISH"]%string 8 (qp_world 0 10 [0.5; 0.4]%float)
    = Some (Some (0%nat, s0), w0') /\
    s = s0.
Proof.
  eexists _, _, _, _. split; [vm_compute; reflexivity|].
  split; [vm_compute; reflexivity|].
  eapply (unknown_entry_can_be_dropped
            (lp64 always (Some unsolved, 0) (0, unsolved.1, unsolved.2))
            "FOO" 3%float ["RHO"%string] ["POLISH"%string] [0.5%float] [0.4%float]
            8%nat 8%nat (qp_world 0 10 [0.5; 3; 0.4]%float) _
            (qp_world 0 10 [0.5; 0.4]%float)).
  - vm_compute; reflexivity.
  - reflexivity.
  - vm_compute; reflexivity.
  - vm_compute; reflexivity.
  - vm_compute; reflexivity.
  - vm_compute; reflexivity.
Defined.

Lemma d3x_assign_overrides_short names vals :
  forall remaining i s w,
    (remaining + i)%nat = length names ->
    (i <= length vals < remaining + i)%nat ->
    d3x_assign_overrides remaining i names vals s w = None.
Proof.
  induction remaining as [|remaining IH]; intros i s w Hlen Hi; [lia|].
  cbn [d3x_assign_overrides]. unfold bind, lift.
  assert (Hn : (i < length names)%nat) by lia.
  apply lookup_lt_is_Some_2 in Hn as [n ->].
  destruct (vals !! i) as [v|] eqn:Hv; [|reflexivity].
  apply lookup_lt_Some in Hv.
  destruct (d3x_assign_setting n v s w) as [[s1 w1]|]; [|reflexivity].
  apply IH; lia.
Qed.

(** X5: the loop reads one value for every name.  With fewer values than
    names it reads past the end of the value buffer, and the resolver has
    no defined result. *)
Theorem too_few_values_undefined (P : Platform) (names : list string)
  (pv : jarray) (vals : list jdouble) (w : World) :
  malloc_succeeds P (next_block w) = true ->
  jdoubles w !! pv = Some vals ->
  (length vals < length names)%nat ->
  d3x_create_settings P names pv w = None.
Proof.
  intros Hm Hv Hlen.
  unfold d3x_create_settings, c_malloc, fresh_block, osqp_set_default_settings,
    GetDoubleArrayElements, read_doubles, bind, emit, ret.
  cbn. rewrite Hm. cbn. rewrite Hv.
  rewrite d3x_assign_overrides_short; [reflexivity | lia | lia].
Qed.

Lemma too_few_values_undefined_witness :
  d3x_create_settings (lp64 always (Some unsolved, 0) (0, unsolved.1, unsolved.2))
    ["RHO"; "SIGMA"]%string 8 (qp_world 0 10 [0.5%float]) = None.
Proof.
  apply (too_few_values_undefined
           (lp64 always (Some unsolved, 0) (0, unsolved.1, unsolved.2))
           ["RHO"; "SIGMA"]%string 8%nat [0.5%float]).
  - reflexivity.
  - vm_compute; reflexivity.
  - cbn. lia.
Defined.

(** X6: values beyond the number of names are never read: the record is
    the one resolved from as many values as there are names. *)
Theorem surplus_values_ignored (P : Platform) (names : list string)
  (vals surplus : list jdouble) (pv pv0 : jarray) (w w' w0 w0' : World)
  (b b0 : block) (s s0 : OSQPSettings) :
  length names = length vals ->
  jdoubles w !! pv = Some (vals ++ surplus) ->
  jdoubles w0 !! pv0 = Some vals ->
  d3x_create_settings P names pv w = Some (Some (b, s), w') ->
  d3x_create_settings P names pv0 w0 = Some (Some (b0, s0), w0') ->
  s = s0.
Proof.
  intros Hlen Hv Hv0 H H0.
  apply created_settings_resolved in H as (vals1 & Hv' & Hr).
  apply created_settings_resolved in H0 as (vals0 & Hv0' & Hr0).
  rewrite Hv in Hv'. inversion Hv'; subst vals1.
  rewrite Hv0 in Hv0'. inversion Hv0'; subst vals0.
  eapply resolved_determines; [exact Hr | exact Hr0 |].
  intros name _. apply last_value_surplus. lia.
Qed.

Lemma surplus_values_ignored_witness :
  exists s s0 w' w0',
    d3x_create_settings (lp64 always (Some unsolved, 0) (0, unsolved.1, unsolved.2))
      ["RHO"]%string 8 (qp_world 0 10 [0.5; 3; 0.4]%float)
    = Some (Some (0%nat, s), w') /\
    d3x_create_settings (lp64 always (Some unsolved, 0) (0, unsolved.1, unsolved.2))
      ["RHO"]%string 8 (qp_world 0 10 [0.5%float])
    = Some (Some (0%nat, s0), w0') /\
    s = s0.
Proof.
  eexists _, _, _, _. split; [vm_compute; reflexivity|].
  split; [vm_compute; reflexivity|].
  eapply (surplus_values_ignored
            (lp64 always (Some unsolved, 0) (0, unsolved.1, unsolved.2))
            ["RHO"%string] [0.5%float] [3%float; 0.4%float]
            8%nat 8%nat (qp_world 0 10 [0.5; 3; 0.4]%float) _
            (qp_world 0 10 [0.5%float])).
  - reflexivity.
  - vm_compute; reflexivity.
  - vm_compute; reflexivity.
  - vm_compute; reflexivity.
  - vm_compute; reflexivity.
Defined.

(** X7: a field whose name is not among the entries keeps the default the
    library gives it ([polish], which the resolver forces to 1, apart). *)
Theorem untouched_fields_keep_defaults (P : Platform) (names : list string)
  (pv : jarray) (w w' : World) (b : block) (s : OSQPSettings) :
  d3x_create_settings P names pv w = Some (Some (b, s), w') ->
  (~ In "RHO"%string names -> rho s = rho (default_settings P)) /\
  (~ In "SIGMA"%string names -> sigma s = sigma (default_settings P)) /\
  (~ In "ALPHA"%string names -> alpha s = alpha (default_settings P)) /\
  (~ In "MAX_ITER"%string names -> max_iter s = max_iter (default_settings P)) /\
  (~ In "EPS_ABS"%string names -> eps_abs s = eps_abs (default_settings P)) /\
  (~ In "EPS_REL"%string names -> eps_rel s = eps_rel (default_settings P)) /\
  (~ In "EPS_PRIM_INF"%string names ->
   eps_prim_inf s = eps_prim_inf (default_settings P)) /\
  (~ In "EPS_DUAL_INF"%string names ->
   eps_dual_inf s = eps_dual_inf (default_settings P)).
Proof.
  intros H. apply created_settings_resolved in H as (vals & _ & Hr).
  destruct Hr as (R1 & R2 & R3 & _ & R5 & R6 & R7 & R8 & R9).
  unfold float_field, int_field in *.
  repeat split; intros Hn; rewrite (last_value_absent _ _ vals Hn) in *; assumption.
Qed.

Lemma untouched_fields_keep_defaults_witness :
  exists s w',
    d3x_create_settings (lp64 always (Some unsolved, 0) (0, unsolved.1, unsolved.2))
      ["RHO"; "POLISH"]%string 8 (qp_world 0 10 [0.5; 0.4]%float)
    = Some (Some (0%nat, s), w') /\
    max_iter s = 4000 /\ alpha s = 1.6%float.
Proof.
  eexists _, _. split; [vm_compute; reflexivity|].
  edestruct (untouched_fields_keep_defaults
               (lp64 always (Some unsolved, 0) (0, unsolved.1, unsolved.2))
               ["RHO"; "POLISH"]%string 8%nat (qp_world 0 10 [0.5; 0.4]%float))
    as (_ & _ & H3 & H4 & _).
  - vm_compute; reflexivity.
  - split.
    + apply H4. intros [E|[E|[]]]; discriminate E.
    + apply H3. intros [E|[E|[]]]; discriminate E.
Defined.

Lemma c_malloc_result P p w w' :
  c_malloc P w = Some (p, w') ->
  p = (if malloc_succeeds P (next_block w) then Some (next_block w) else None).
Proof.
  unfold c_malloc, fresh_block, bind, emit, ret. cbn.
  destruct (malloc_succeeds P (next_block w)); intros H; inversion H; reflexivity.
Qed.

(** X8: the resolver returns [NULL] exactly when the allocation of the
    record fails.  In either case it leaves the Java arrays as they are
    and gives back every view it takes (the value buffer and one string
    per entry): the record's block is all that is held afterwards. *)
Theorem resolver_holds_only_its_record (P : Platform) (names : list string)
  (pv : jarray) (rs : option (block * OSQPSettings)) (w w' : World)
  (evs : list event) :
  d3x_create_settings P names pv w = Some (rs, w') ->
  trace w' = trace w ++ evs ->
  (rs = None <-> malloc_succeeds P (next_block w) = false) /\
  jdoubles w' = jdoubles w /\ jlongs w' = jlongs w /\
  forall r, balance r evs
            = match rs with
              | Some (b, _) => ind (bool_decide (r = RBlock b))
              | None => 0
              end.
Proof.
  intros H Htr.
  assert (Hnull : rs = None <-> malloc_succeeds P (next_block w) = false).
  { pose proof H as H'. unfold d3x_create_settings in H'.
    peel H' p w1 H1. apply c_malloc_result in H1.
    destruct (malloc_succeeds P (next_block w)); subst p.
    - peel H' s0 w2 H2. peel H' l w3 H3. peel H' s1 w4 H4. peel H' u w5 H5.
      apply ret_inv in H' as [-> _]. split; discriminate.
    - peel H' u w2 H2. apply ret_inv in H' as [-> _]. split; reflexivity. }
  split; [exact Hnull|].
  apply d3x_create_settings_inv in H
    as [[-> (Hd & Hl & Ht & _)]|(s & vals & -> & _ & _ & (Hd & Hl & Ht & _))];
    rewrite Ht in Htr; apply app_inv_head in Htr; subst evs;
    (split; [exact Hd|]); (split; [exact Hl|]); intros r.
  - reflexivity.
  - rewrite !balance_app, balance_settings_events. cbn [balance delta]. lia.
Qed.

Lemma resolver_holds_only_its_record_witness :
  exists rs w',
    d3x_create_settings (lp64 always (Some unsolved, 0) (0, unsolved.1, unsolved.2))
      ["RHO"; "FOO"]%string 8 (qp_world 0 10 [0.5; 3]%float) = Some (rs, w') /\
    balance (RDoubles 8) (trace w') = 0 /\ balance (RBlock 0) (trace w') = 1.
Proof.
  eexists _, _. split; [vm_compute; reflexivity|].
  edestruct (resolver_holds_only_its_record
               (lp64 always (Some unsolved, 0) (0, unsolved.1, unsolved.2))
               ["RHO"; "FOO"]%string 8%nat)
    with (w := qp_world 0 10 [0.5; 3]%float) as (_ & _ & _ & H).
  - vm_compute; reflexivity.
  - vm_compute; reflexivity.
  - split; [rewrite H | rewrite H]; vm_compute; reflexivity.
Defined.

(** ** [d3x_create_csc] *)

(** What the builder reads and what it hands to the library. *)
Lemma d3x_create_csc_content P nrow ncol rowind colind coeffs r w w' :
  d3x_create_csc P nrow ncol rowind colind coeffs w = Some (r, w') ->
  exists Ti Tj Tx,
    jlongs w !! rowind = Some Ti /\ jlongs w !! colind = Some Tj /\
    jdoubles w !! coeffs = Some Tx /\
    malloc_succeeds P (next_block w) = true /\
    let T := mk_csc (next_block w) nrow ncol (Z.of_nat (length Tx))
               (Z.of_nat (length Tx)) Tj Ti Tx None in
    match r with
    | Some m =>
        compress P T = Some (csc_p m, csc_i m, csc_x m) /\
        triplet_readable T = true /\
        csc_m m = nrow /\ csc_n m = ncol /\
        csc_nzmax m = Z.max (Z.of_nat (length Tx)) 1 /\ csc_nz m = -1
    | None => compress P T = None
    end.
Proof.
  unfold d3x_create_csc. intros H.
  peel H nnz w1 H1. apply GetArrayLength_inv in H1 as [(Tx0 & Hx0 & ->) ->].
  peel H Ti w1 H1. apply GetLongArrayElements_inv in H1 as [Hi S1].
  peel H Tj w2 H2. apply GetLongArrayElements_inv in H2 as [Hj S2].
  peel H Tx w3 H3. apply GetDoubleArrayElements_inv in H3 as [Hx S3].
  destruct S1 as (Hd1 & Hl1 & _ & Hn1). destruct S2 as (Hd2 & Hl2 & _ & Hn2).
  destruct S3 as (Hd3 & Hl3 & _ & Hn3).
  rewrite Hl1 in Hj. rewrite Hd2, Hd1, Hx0 in Hx. inversion Hx; subst Tx0.
  assert (Hn : next_block w3 = next_block w) by lia.
  peel H t w4 H4. unfold csc_matrix in H4. peel H4 p w4' H4'.
  apply c_malloc_result in H4'. rewrite Hn in H4'.
  exists Ti, Tj, Tx. split; [exact Hi|]. split; [exact Hj|]. split; [exact Hx0|].
  destruct (malloc_succeeds P (next_block w)); subst p;
    apply ret_inv in H4 as [-> ->]; [|discriminate H].
  split; [reflexivity|].
  peel H m w5 H5. unfold triplet_to_csc in H5. cbn in H5.
  peel H u1 w6 H6. peel H u2 w7 H7. peel H u3 w8 H8. peel H u4 w9 H9.
  apply ret_inv in H as [-> _]. cbv zeta.
  destruct (compress P _) as [[[cp ci] cx]|] eqn:Hc.
  - destruct (triplet_readable _) eqn:Hr; [|discriminate H5].
    peel H5 b w5' H5'. peel H5 u w5'' H5''.
    peel H5 bp wa Ha. peel H5 ua wb Hb. peel H5 bi wc Hc'. peel H5 ub wd Hd'.
    peel H5 bx we He. peel H5 uc wf Hf.
    apply ret_inv in H5 as [-> _].
    cbn. auto 10.
  - apply ret_inv in H5 as [-> _]. reflexivity.
Qed.

(** X9: the builder converts the triplet matrix made of the three Java
    arrays: [nrow] by [ncol], with as many entries as there are
    coefficients, the row indices as [i], the column indices as [p] and
    the coefficients as [x].  The matrix it returns is the compressed form
    of that triplet: of the same shape, with room for as many entries as
    there are coefficients and for one at least, and returned only for
    a triplet whose indices the conversion can read; [NULL] is returned
    when the library has none. *)
Theorem matrix_builder_converts_the_triplet (P : Platform) (nrow ncol : jlong)
  (rowind colind coeffs : jarray) (Ti Tj : list jlong) (Tx : list jdouble)
  (r : option csc) (w w' : World) :
  jlongs w !! rowind = Some Ti ->
  jlongs w !! colind = Some Tj ->
  jdoubles w !! coeffs = Some Tx ->
  d3x_create_csc P nrow ncol rowind colind coeffs w = Some (r, w') ->
  let T := mk_csc (next_block w) nrow ncol (Z.of_nat (length Tx))
             (Z.of_nat (length Tx)) Tj Ti Tx None in
  match r with
  | Some m =>
      compress P T = Some (csc_p m, csc_i m, csc_x m) /\
      triplet_readable T = true /\
      csc_m m = nrow /\ csc_n m = ncol /\
      csc_nzmax m = Z.max (Z.of_nat (length Tx)) 1 /\ csc_nz m = -1
  | None => compress P T = None
  end.
Proof.
  intros Hi Hj Hx H.
  apply d3x_create_csc_content in H as (Ti' & Tj' & Tx' & Hi' & Hj' & Hx' & _ & H).
  rewrite Hi in Hi'. rewrite Hj in Hj'. rewrite Hx in Hx'.
  inversion Hi'; inversion Hj'; inversion Hx'; subst. exact H.
Qed.

Lemma matrix_builder_converts_the_triplet_witness :
  exists m w',
    d3x_create_csc (lp64 always (Some unsolved, 0) (0, unsolved.1, unsolved.2))
      1 1 11 12 2 (qp_world 0 10 []) = Some (Some m, w') /\
    csc_m m = 1 /\ csc_n m = 1 /\ csc_nzmax m = 1 /\
    csc_p m = [0; 0] /\ csc_i m = [] /\ csc_x m = [].
Proof.
  eexists _, _. split; [vm_compute; reflexivity|].
  pose proof (matrix_builder_converts_the_triplet
                (lp64 always (Some unsolved, 0) (0, unsolved.1, unsolved.2))
                1 1 11%nat 12%nat 2%nat [] [] [] _ (qp_world 0 10 []) _
                ltac:(vm_compute; reflexivity) ltac:(vm_compute; reflexivity)
                ltac:(vm_compute; reflexivity) ltac:(vm_compute; reflexivity)) as H.
  cbv beta iota zeta in H. destruct H as (_ & _ & H1 & H2 & H3 & _).
  split; [exact H1|]. split; [exact H2|]. split; [exact H3|].
  repeat split; vm_compute; reflexivity.
Defined.

(** X10: the builder leaves the Java arrays as they are and gives back
    what it takes on the way: the three array views are released and the
    triplet shell is freed, so that the matrix it returns is all that is
    held afterwards. *)
Theorem matrix_builder_holds_only_its_result (P : Platform) (nrow ncol : jlong)
  (rowind colind coeffs : jarray) (r : option csc) (w w' : World)
  (evs : list event) :
  d3x_create_csc P nrow ncol rowind colind coeffs w = Some (r, w') ->
  trace w' = trace w ++ evs ->
  jdoubles w' = jdoubles w /\ jlongs w' = jlongs w /\
  forall res, balance res evs = held_block res r.
Proof.
  intros H Htr. apply d3x_create_csc_inv in H as [(Hd & Hl & Ht & _) _].
  rewrite Ht in Htr. apply app_inv_head in Htr. subst evs.
  split; [exact Hd|]. split; [exact Hl|]. intros res. apply balance_csc_events.
Qed.

Lemma matrix_builder_holds_only_its_result_witness :
  exists r w',
    d3x_create_csc (lp64 always (Some unsolved, 0) (0, unsolved.1, unsolved.2))
      1 1 13 14 3 (qp_world 0 10 []) = Some (r, w') /\
    balance (RBlock 0) (trace w') = 0 /\ balance (RBlock 1) (trace w') = 1 /\
    balance (RLongs 13) (trace w') = 0.
Proof.
  eexists _, _. split; [vm_compute; reflexivity|].
  edestruct (matrix_builder_holds_only_its_result
               (lp64 always (Some unsolved, 0) (0, unsolved.1, unsolved.2))
               1 1 13%nat 14%nat 3%nat)
    with (w := qp_world 0 10 []) as (_ & _ & H).
  - vm_compute; reflexivity.
  - vm_compute; reflexivity.
  - rewrite !H. repeat split; vm_compute; reflexivity.
Defined.

(** X11: the result of [csc_matrix] is used without a check: when the
    shell of the triplet cannot be allocated, the assignment of its entry
    count goes through a null pointer and the builder has no defined
    result. *)
Theorem matrix_builder_needs_its_shell (P : Platform) (nrow ncol : jlong)
  (rowind colind coeffs : jarray) (w : World) :
  is_Some (jlongs w !! rowind) ->
  is_Some (jlongs w !! colind) ->
  is_Some (jdoubles w !! coeffs) ->
  malloc_succeeds P (next_block w) = false ->
  d3x_create_csc P nrow ncol rowind colind coeffs w = None.
Proof.
  intros [Ti Hi] [Tj Hj] [Tx Hx] Hm.
  unfold d3x_create_csc, GetArrayLength, GetLongArrayElements,
    GetDoubleArrayElements, read_doubles, read_longs, csc_matrix, c_malloc,
    fresh_block, bind, emit, ret.
  cbn. rewrite Hx. cbn. rewrite Hi. cbn. rewrite Hj. cbn. rewrite Hx. cbn.
  rewrite Hm. reflexivity.
Qed.

Lemma matrix_builder_needs_its_shell_witness :
  d3x_create_csc (lp64 (fun _ => false) (Some unsolved, 0) (0, unsolved.1, unsolved.2))
    1 1 13 14 3 (qp_world 0 10 []) = None.
Proof.
  apply (matrix_builder_needs_its_shell
           (lp64 (fun _ => false) (Some unsolved, 0) (0, unsolved.1, unsolved.2))).
  - vm_compute; eauto.
  - vm_compute; eauto.
  - vm_compute; eauto.
  - reflexivity.
Defined.

(** ** [d3x_create_data] and [d3x_free_data] *)

Lemma balance_builder_events r c d :
  balance r (builder_events c (data_block d) (Some d))
  = ind (bool_decide (r = RBlock (data_block d)))
    + ind (bool_decide (r = RDoubles (linObjCoeff c)))
    + ind (bool_decide (r = RDoubles (linConLower c)))
    + ind (bool_decide (r = RDoubles (linConUpper c)))
    + held_block r (data_A d) + held_block r (data_P d).
Proof.
  unfold builder_events. rewrite !balance_app, !balance_csc_events.
  cbn [balance delta]. lia.
Qed.

(** X12: a problem instance carries the dimensions of the call, the
    content of the objective and bound arrays as [q], [l] and [u], a
    constraint matrix of [numDual] rows and [numVar] columns and a
    quadratic objective matrix of [numVar] rows and columns. *)
Theorem problem_instance_shapes (P : Platform) (c : Call) (d : OSQPData)
  (w w' : World) :
  d3x_create_data P (numVar c) (numDual c) (linObjCoeff c)
    (quadObjRowInd c) (quadObjColInd c) (quadObjCoeff c)
    (linConRowInd c) (linConColInd c) (linConCoeff c)
    (linConLower c) (linConUpper c) w = Some (Some d, w') ->
  data_n d = numVar c /\ data_m d = numDual c /\
  jdoubles w !! linObjCoeff c = Some (data_q d) /\
  jdoubles w !! linConLower c = Some (data_l d) /\
  jdoubles w !! linConUpper c = Some (data_u d) /\
  (forall A, data_A d = Some A -> csc_m A = numDual c /\ csc_n A = numVar c) /\
  (forall Pm, data_P d = Some Pm -> csc_m Pm = numVar c /\ csc_n Pm = numVar c).
Proof.
  unfold d3x_create_data. intros H.
  peel H p w1 H1. apply c_malloc_inv in H1 as [[-> S1]|[-> S1]].
  2: { peel H u w2 H2. apply ret_inv in H as [H _]. discriminate H. }
  peel H q w2 H2. apply GetDoubleArrayElements_inv in H2 as [Hq S2].
  peel H l w3 H3. apply GetDoubleArrayElements_inv in H3 as [Hl S3].
  peel H u w4 H4. apply GetDoubleArrayElements_inv in H4 as [Hu S4].
  peel H A w5 H5. apply d3x_create_csc_content in H5
    as (Ti & Tj & Tx & _ & _ & _ & _ & HA). cbv zeta in HA.
  peel H Pm w6 H6. apply d3x_create_csc_content in H6
    as (Ti' & Tj' & Tx' & _ & _ & _ & _ & HP). cbv zeta in HP.
  apply ret_inv in H as [H _]. inversion H; subst d. cbn.
  destruct S1 as (D1 & _). destruct S2 as (D2 & _). destruct S3 as (D3 & _).
  rewrite D1 in Hq. rewrite D2, D1 in Hl. rewrite D3, D2, D1 in Hu.
  repeat (split; [first [reflexivity | assumption]|]). split.
  - intros A0 E. subst A. destruct HA as (_ & _ & H1 & H2 & _). auto.
  - intros P0 E. subst Pm. destruct HP as (_ & _ & H1 & H2 & _). auto.
Qed.

Lemma problem_instance_shapes_witness :
  exists d w',
    d3x_create_data (lp64 always (Some unsolved, 0) (0, unsolved.1, unsolved.2))
      1 1 1 11 12 2 13 14 3 4 5 (qp_world 0 10 []) = Some (Some d, w') /\
    data_n d = 1 /\ data_m d = 1 /\ data_l d = [0%float] /\ data_u d = [10%float].
Proof.
  eexists _, _. split; [vm_compute; reflexivity|].
  edestruct (problem_instance_shapes
               (lp64 always (Some unsolved, 0) (0, unsolved.1, unsolved.2))
               (qp_call []))
    with (w := qp_world 0 10 []) as (H1 & H2 & _).
  - vm_compute; reflexivity.
  - split; [exact H1|]. split; [exact H2|]. split; vm_compute; reflexivity.
Defined.

(** X13: the assembler returns [NULL] exactly when the allocation of the
    structure fails, and then it has taken no array view and built no
    matrix.  Otherwise what is held afterwards is the problem instance: its
    block, the views of the objective and bound arrays, and its two
    matrices; the Java arrays are as before in both cases. *)
Theorem assembler_holds_its_instance (P : Platform) (c : Call)
  (rd : option OSQPData) (w w' : World) (evs : list event) :
  d3x_create_data P (numVar c) (numDual c) (linObjCoeff c)
    (quadObjRowInd c) (quadObjColInd c) (quadObjCoeff c)
    (linConRowInd c) (linConColInd c) (linConCoeff c)
    (linConLower c) (linConUpper c) w = Some (rd, w') ->
  trace w' = trace w ++ evs ->
  (rd = None <-> malloc_succeeds P (next_block w) = false) /\
  jdoubles w' = jdoubles w /\ jlongs w' = jlongs w /\
  forall r, balance r evs
            = match rd with
              | None => 0
              | Some d =>
                  ind (bool_decide (r = RBlock (data_block d)))
                  + ind (bool_decide (r = RDoubles (linObjCoeff c)))
                  + ind (bool_decide (r = RDoubles (linConLower c)))
                  + ind (bool_decide (r = RDoubles (linConUpper c)))
                  + held_block r (data_A d) + held_block r (data_P d)
              end.
Proof.
  intros H Htr.
  assert (Hnull : rd = None <-> malloc_succeeds P (next_block w) = false).
  { pose proof H as H'. unfold d3x_create_data in H'.
    peel H' p w1 H1. apply c_malloc_result in H1.
    destruct (malloc_succeeds P (next_block w)); subst p.
    - peel H' q w2 H2. peel H' l w3 H3. peel H' u w4 H4.
      peel H' A w5 H5. peel H' Pm w6 H6.
      apply ret_inv in H' as [-> _]. split; discriminate.
    - peel H' u w2 H2. apply ret_inv in H' as [-> _]. split; reflexivity. }
  split; [exact Hnull|].
  apply d3x_create_data_inv in H as [(Hd & Hl & Ht & _) Hat].
  rewrite Ht in Htr. apply app_inv_head in Htr. subst evs.
  split; [exact Hd|]. split; [exact Hl|]. intros r.
  destruct rd as [d|]; [|reflexivity].
  destruct (Hat d eq_refl) as (<- & _). apply balance_builder_events.
Qed.

Lemma assembler_holds_its_instance_witness :
  exists rd w',
    d3x_create_data (lp64 always (Some unsolved, 0) (0, unsolved.1, unsolved.2))
      1 1 1 11 12 2 13 14 3 4 5 (qp_world 0 10 []) = Some (rd, w') /\
    rd <> None /\ balance (RLongs 13) (trace w') = 0.
Proof.
  eexists _, _. split; [vm_compute; reflexivity|].
  edestruct (assembler_holds_its_instance
               (lp64 always (Some unsolved, 0) (0, unsolved.1, unsolved.2))
               (qp_call []))
    with (w := qp_world 0 10 []) as (H1 & _ & _ & H2).
  - vm_compute; reflexivity.
  - vm_compute; reflexivity.
  - split; [intros E; apply H1 in E; discriminate E|].
    rewrite H2. vm_compute; reflexivity.
Defined.

Lemma store_block_held b m :
  In b (store_blocks m) -> 0 < held_arrays (RBlock b) (Some m).
Proof.
  unfold store_blocks, held_arrays. destruct (csc_store m) as [[[bp bi] bx]|]; [|intros []].
  pose proof (ind_nonneg (bool_decide (RBlock b = RBlock bp))).
  pose proof (ind_nonneg (bool_decide (RBlock b = RBlock bi))).
  pose proof (ind_nonneg (bool_decide (RBlock b = RBlock bx))).
  cbn [In]. intros [<-|[<-|[<-|[]]]]; rewrite ind_refl in *; lia.
Qed.

(** X14: [d3x_free_data] does not undo [d3x_create_data].  It gives back
    the three array views and frees the structure of the problem and the
    structure of each matrix, but it frees a matrix with [c_free], which
    leaves the three arrays that [triplet_to_csc] allocated for it: after
    a problem instance is created and released, the arrays of its matrices,
    and nothing else, are still held.  The Java arrays are as before. *)
Theorem free_data_leaves_matrix_arrays (P : Platform) (c : Call) (d : OSQPData)
  (w w1 w2 : World) (evs : list event) :
  d3x_create_data P (numVar c) (numDual c) (linObjCoeff c)
    (quadObjRowInd c) (quadObjColInd c) (quadObjCoeff c)
    (linConRowInd c) (linConColInd c) (linConCoeff c)
    (linConLower c) (linConUpper c) w = Some (Some d, w1) ->
  d3x_free_data (linObjCoeff c) (linConLower c) (linConUpper c) d w1 = Some (tt, w2) ->
  trace w2 = trace w ++ evs ->
  jdoubles w2 = jdoubles w /\ jlongs w2 = jlongs w /\
  (forall r, balance r evs = held_arrays r (data_A d) + held_arrays r (data_P d)) /\
  (forall m, data_A d = Some m \/ data_P d = Some m ->
             length (store_blocks m) = 3%nat /\
             forall b, In b (store_blocks m) -> 0 < balance (RBlock b) evs).
Proof.
  intros H1 H2 Htr.
  apply d3x_create_data_inv in H1 as [(Hd1 & Hl1 & Ht1 & _) Hat].
  apply d3x_free_data_inv in H2 as (Hd2 & Hl2 & Ht2 & _).
  rewrite Ht2, Ht1, <- app_assoc in Htr. apply app_inv_head in Htr. subst evs.
  split; [rewrite Hd2; exact Hd1|]. split; [rewrite Hl2; exact Hl1|].
  destruct (Hat d eq_refl) as (Hdb & HA & HP).
  assert (Hbal : forall r,
             balance r (builder_events c (next_block w) (Some d)
                        ++ [EvReleaseDoubles (linObjCoeff c);
                            EvReleaseDoubles (linConLower c);
                            EvReleaseDoubles (linConUpper c);
                            EvFree (csc_block <$> data_A d);
                            EvFree (csc_block <$> data_P d);
                            EvFree (Some (data_block d))])
             = held_arrays r (data_A d) + held_arrays r (data_P d)).
  { intros r. rewrite <- Hdb.
    rewrite balance_app, balance_builder_events. unfold held_block, held_struct.
    destruct (data_A d), (data_P d);
      cbn [balance delta fmap option_fmap option_map]; lia. }
  split; [exact Hbal|].
  intros m Hm. split.
  - assert (Hat' : exists b, matrix_at b m).
    { destruct Hm as [Hm|Hm]; [exists (next_block w + 2)%nat; exact (HA m Hm)|].
      eexists. exact (HP m Hm). }
    destruct Hat' as (b & _ & Hst). unfold store_blocks. rewrite Hst. reflexivity.
  - intros b Hb. rewrite Hbal.
    pose proof (held_arrays_nonneg (RBlock b) (data_A d)).
    pose proof (held_arrays_nonneg (RBlock b) (data_P d)).
    pose proof (store_block_held b m Hb).
    destruct Hm as [Hm|Hm]; rewrite Hm in *; lia.
Qed.

Lemma free_data_leaves_matrix_arrays_witness :
  exists d w1 w2,
    d3x_create_data (lp64 always (Some unsolved, 0) (0, unsolved.1, unsolved.2))
      1 1 1 11 12 2 13 14 3 4 5 (qp_world 0 10 []) = Some (Some d, w1) /\
    d3x_free_data 1 4 5 d w1 = Some (tt, w2) /\
    leaked (trace w2) = [RBlock 3; RBlock 4; RBlock 5; RBlock 8; RBlock 9; RBlock 10] /\
    balance (RBlock 3) (trace w2) = 1.
Proof.
  eexists _, _, _. split; [vm_compute; reflexivity|].
  split; [vm_compute; reflexivity|]. split; [vm_compute; reflexivity|].
  edestruct (free_data_leaves_matrix_arrays
               (lp64 always (Some unsolved, 0) (0, unsolved.1, unsolved.2))
               (qp_call []))
    with (w := qp_world 0 10 []) as (_ & _ & H & _).
  - vm_compute; reflexivity.
  - vm_compute; reflexivity.
  - vm_compute; reflexivity.
  - rewrite H. vm_compute; reflexivity.
Defined.

(** ** [d3x_create_workspace] *)

(** X15: a workspace is returned exactly when [osqp_setup] stores one and
    returns 0; it then carries the data and the settings it was set up
    with, and is all that is held.  A workspace stored by a failing setup
    is cleaned up on the spot, so that nothing is held when [NULL] is
    returned. *)
Theorem workspace_only_on_success (P : Platform) (d : OSQPData) (s : OSQPSettings)
  (r : option OSQPWorkspace) (w w' : World) (evs : list event) :
  d3x_create_workspace P d s w = Some (r, w') ->
  trace w' = trace w ++ evs ->
  (is_Some r <-> exists init, setup_answer P d s = (Some init, 0)) /\
  (forall work, r = Some work -> work_data work = d /\ work_settings work = s) /\
  jdoubles w' = jdoubles w /\ jlongs w' = jlongs w /\
  forall res, balance res evs
              = match r with
                | Some work => ind (bool_decide (res = RBlock (work_block work)))
                | None => 0
                end.
Proof.
  intros H Htr.
  apply d3x_create_workspace_inv in H
    as [(ef & -> & Ha & S)|[(init & ef & -> & Ha & Hne & S)|(init & -> & Ha & S)]];
    destruct S as (Hd & Hl & Ht & _);
    rewrite Ht in Htr; apply app_inv_head in Htr; subst evs.
  - split.
    { split; [intros [x Hx]; discriminate Hx|].
      intros (init & E). rewrite Ha in E. discriminate E. }
    split; [intros work E; discriminate E|].
    split; [exact Hd|]. split; [exact Hl|]. intros res. reflexivity.
  - split.
    { split; [intros [x Hx]; discriminate Hx|].
      intros (init' & E). rewrite Ha in E. inversion E. contradiction. }
    split; [intros work E; discriminate E|].
    split; [exact Hd|]. split; [exact Hl|]. intros res. cbn [balance delta]. lia.
  - split.
    { split; [intros _; eauto | intros _; eauto]. }
    split; [intros work E; inversion E; subst work; cbn; auto|].
    split; [exact Hd|]. split; [exact Hl|]. intros res. cbn [balance delta work_block].
    lia.
Qed.

Lemma workspace_only_on_success_witness :
  exists r w',
    d3x_create_workspace (lp64 always (Some unsolved, 4) (0, unsolved.1, unsolved.2))
      (mk_data 0 1 1 None None [1%float] [0%float] [10%float]) osqp_defaults
      (qp_world 0 10 []) = Some (r, w') /\
    r = None /\ leaked (trace w') = [].
Proof.
  eexists _, _. split; [vm_compute; reflexivity|].
  edestruct (workspace_only_on_success
               (lp64 always (Some unsolved, 4) (0, unsolved.1, unsolved.2))
               (mk_data 0 1 1 None None [1%float] [0%float] [10%float])
               osqp_defaults)
    with (w := qp_world 0 10 []) as (_ & _ & _ & _ & _).
  - vm_compute; reflexivity.
  - vm_compute; reflexivity.
  - split; vm_compute; reflexivity.
Defined.

(** * Further properties of the entry point *)

(** ** The solver session *)

(** X16: [osqp_setup] is called at most once and [osqp_solve] at most once,
    after a setup that stored a workspace and returned 0; a workspace that
    was stored is cleaned up exactly once, after the last call that uses
    it, and a setup that stored none is followed by no other solver call. *)
Theorem solver_call_protocol (P : Platform) (c : Call) (w w' : World)
  (st : jint) (evs : list event) :
  run P c w = Some (st, w') ->
  trace w' = trace w ++ evs ->
  List.filter solver_event evs = [] \/
  (exists exitflag, List.filter solver_event evs = [EvSetup None exitflag]) \/
  (exists wb exitflag,
      exitflag <> 0 /\
      List.filter solver_event evs = [EvSetup (Some wb) exitflag; EvCleanup wb]) \/
  (exists wb exitflag sol inf,
      List.filter solver_event evs
      = [EvSetup (Some wb) 0; EvSolve wb exitflag sol inf; EvCleanup wb]).
Proof.
  intros Hrun Htr.
  destruct (run_events_inv _ _ _ _ _ _ Hrun Htr)
    as [ | | rd rs Hn Hd | d sb s ef Hd Hsb | d sb s wb ef Hd Hsb Hne
       | d sb s wb ef sol inf Hd Hsb Hne | d sb s wb sol inf primal dual Hd Hsb Hp Hq Hroom ].
  - left. reflexivity.
  - left. reflexivity.
  - left. rewrite List.filter_app.
    rewrite (filter_housekeeping _ _ housekeeping_not_solver
               (builder_events_housekeeping _ _ _)).
    rewrite (filter_housekeeping _ _ housekeeping_not_solver
               (resolver_events_housekeeping _ _ _)).
    reflexivity.
  - right. left. exists ef.
    rewrite List.filter_app, (filter_prepared_events _ _ _ _ _ housekeeping_not_solver),
      filter_solver_log_events. reflexivity.
  - right. right. left. exists wb, ef. split; [exact Hne|].
    rewrite List.filter_app, (filter_prepared_events _ _ _ _ _ housekeeping_not_solver),
      filter_solver_log_events. reflexivity.
  - right. right. right. exists wb, ef, sol, inf.
    rewrite List.filter_app, (filter_prepared_events _ _ _ _ _ housekeeping_not_solver),
      filter_solver_log_events. reflexivity.
  - right. right. right. exists wb, 0, sol, inf.
    rewrite List.filter_app, (filter_prepared_events _ _ _ _ _ housekeeping_not_solver),
      filter_solver_log_events. unfold copy_outcome.
    destruct ((0 <=? _) && _); reflexivity.
Qed.

Lemma solver_call_protocol_witness :
  exists st w' wb,
    run (lp64 always (Some unsolved, 4) (0, unsolved.1, unsolved.2)) (qp_call [])
      (qp_world 0 10 []) = Some (st, w') /\
    List.filter solver_event (trace w') = [EvSetup (Some wb) 4; EvCleanup wb].
Proof.
  eexists _, _, 12%nat. split; [vm_compute; reflexivity|].
  edestruct (solver_call_protocol
               (lp64 always (Some unsolved, 4) (0, unsolved.1, unsolved.2)) (qp_call []))
    with (w := qp_world 0 10 []) as [H|[(ef & H)|[(wb & ef & _ & H)|(wb & ef & sol & inf & H)]]].
  - vm_compute; reflexivity.
  - vm_compute; reflexivity.
  - vm_compute in H. discriminate H.
  - vm_compute in H. discriminate H.
  - vm_compute. reflexivity.
  - vm_compute in H. discriminate H.
Defined.

(** X17: no log call is made by a call that does not reach [osqp_setup].
    One that does opens the log first when the log name is not empty, and
    closes it once, as its last log call, whether it opened it or not. *)
Theorem log_protocol (P : Platform) (c : Call) (w w' : World)
  (st : jint) (evs : list event) :
  run P c w = Some (st, w') ->
  trace w' = trace w ++ evs ->
  List.filter log_event evs
  = if existsb setup_event evs then opened_log c ++ [EvCloseLog] else [].
Proof.
  intros Hrun Htr.
  destruct (run_events_inv _ _ _ _ _ _ Hrun Htr)
    as [ | | rd rs Hn Hd | d sb s ef Hd Hsb | d sb s wb ef Hd Hsb Hne
       | d sb s wb ef sol inf Hd Hsb Hne | d sb s wb sol inf primal dual Hd Hsb Hp Hq Hroom ].
  - reflexivity.
  - reflexivity.
  - rewrite List.filter_app, existsb_app.
    rewrite (filter_housekeeping _ _ housekeeping_not_log
               (builder_events_housekeeping _ _ _)).
    rewrite (filter_housekeeping _ _ housekeeping_not_log
               (resolver_events_housekeeping _ _ _)).
    rewrite (existsb_housekeeping _ _ housekeeping_not_setup
               (builder_events_housekeeping _ _ _)).
    rewrite (existsb_housekeeping _ _ housekeeping_not_setup
               (resolver_events_housekeeping _ _ _)).
    reflexivity.
  - rewrite List.filter_app, existsb_app,
      (filter_prepared_events _ _ _ _ _ housekeeping_not_log),
      (existsb_prepared_events _ _ _ _ _ housekeeping_not_setup),
      filter_log_log_events, existsb_setup_log_events. reflexivity.
  - rewrite List.filter_app, existsb_app,
      (filter_prepared_events _ _ _ _ _ housekeeping_not_log),
      (existsb_prepared_events _ _ _ _ _ housekeeping_not_setup),
      filter_log_log_events, existsb_setup_log_events. reflexivity.
  - rewrite List.filter_app, existsb_app,
      (filter_prepared_events _ _ _ _ _ housekeeping_not_log),
      (existsb_prepared_events _ _ _ _ _ housekeeping_not_setup),
      filter_log_log_events, existsb_setup_log_events.
    unfold teardown_events. reflexivity.
  - rewrite List.filter_app, existsb_app,
      (filter_prepared_events _ _ _ _ _ housekeeping_not_log),
      (existsb_prepared_events _ _ _ _ _ housekeeping_not_setup),
      filter_log_log_events, existsb_setup_log_events.
    unfold teardown_events, copy_outcome.
    destruct ((0 <=? _) && _); reflexivity.
Qed.


Lemma log_protocol_witness :
  exists st w',
    run (lp64 always (None, 4) (0, unsolved.1, unsolved.2)) (qp_call [])
      (qp_world 0 10 []) = Some (st, w') /\
    List.filter log_event (trace w') = [EvCloseLog].
Proof.
  eexists _, _. split; [vm_compute; reflexivity|].
  eapply eq_trans.
  - eapply (log_protocol (lp64 always (None, 4) (0, unsolved.1, unsolved.2)) (qp_call []))
      with (w := qp_world 0 10 []).
    + vm_compute; reflexivity.
    + vm_compute; reflexivity.
  - vm_compute. reflexivity.
Defined.

(** ** Diagnostics *)

Lemma unknown_message_not_diagnostic name :
  diagnostic_event (EvStderr (unknown_message name)) = false.
Proof. reflexivity. Qed.

Lemma existsb_diagnostic_csc_events ri ci co tb r :
  existsb diagnostic_event (csc_events ri ci co tb r) = false.
Proof.
  unfold csc_events, matrix_allocs, store_blocks.
  destruct r as [m|]; [destruct (csc_store m) as [[[bp bi] bx]|]|]; reflexivity.
Qed.

Lemma existsb_diagnostic_settings_events names :
  existsb diagnostic_event (settings_events names) = false.
Proof.
  unfold settings_events. induction names as [|n names IH]; cbn [flat_map]; [reflexivity|].
  rewrite existsb_app, IH. unfold setting_events. destruct (recognized n); reflexivity.
Qed.

Lemma existsb_diagnostic_prepared_events c db d rs :
  existsb diagnostic_event (prepared_events c db d rs) = false.
Proof.
  unfold prepared_events, builder_events, resolver_events, log_events.
  rewrite !existsb_app, !existsb_diagnostic_csc_events, existsb_diagnostic_settings_events.
  destruct (0 <? _); reflexivity.
Qed.

Lemma existsb_solve_housekeeping l :
  forallb housekeeping_event l = true -> existsb solve_event l = false.
Proof. apply existsb_housekeeping, housekeeping_not_solve. Qed.

(** X18: one of the six failure messages of the adapter is written to the
    error stream exactly when the call does not reach [osqp_solve]; the
    message about an unknown setting is none of them. *)
Theorem diagnosed_unless_solved (P : Platform) (c : Call) (w w' : World)
  (st : jint) (evs : list event) :
  run P c w = Some (st, w') ->
  trace w' = trace w ++ evs ->
  existsb diagnostic_event evs = negb (existsb solve_event evs).
Proof.
  intros Hrun Htr.
  destruct (run_events_inv _ _ _ _ _ _ Hrun Htr)
    as [ | | rd rs Hn Hd | d sb s ef Hd Hsb | d sb s wb ef Hd Hsb Hne
       | d sb s wb ef sol inf Hd Hsb Hne | d sb s wb sol inf primal dual Hd Hsb Hp Hq Hroom ].
  - reflexivity.
  - reflexivity.
  - rewrite !existsb_app,
      (existsb_solve_housekeeping _ (builder_events_housekeeping _ _ _)),
      (existsb_solve_housekeeping _ (resolver_events_housekeeping _ _ _)).
    destruct rd as [d|]; [|reflexivity].
    destruct rs as [rs|]; [destruct Hn; discriminate|].
    cbn [resolver_events]. rewrite orb_comm. reflexivity.
  - rewrite !existsb_app, existsb_diagnostic_prepared_events,
      (existsb_prepared_events _ _ _ _ _ housekeeping_not_solve), existsb_solve_log_events.
    reflexivity.
  - rewrite !existsb_app, existsb_diagnostic_prepared_events,
      (existsb_prepared_events _ _ _ _ _ housekeeping_not_solve), existsb_solve_log_events.
    reflexivity.
  - rewrite !existsb_app, existsb_diagnostic_prepared_events,
      (existsb_prepared_events _ _ _ _ _ housekeeping_not_solve), existsb_solve_log_events.
    unfold teardown_events. reflexivity.
  - rewrite !existsb_app, existsb_diagnostic_prepared_events,
      (existsb_prepared_events _ _ _ _ _ housekeeping_not_solve), existsb_solve_log_events.
    unfold teardown_events, copy_outcome.
    destruct ((0 <=? _) && _); reflexivity.
Qed.

Lemma diagnosed_unless_solved_witness :
  exists st w',
    run (lp64 always (None, 4) (0, unsolved.1, unsolved.2)) (qp_call ["FOO"%string])
      (qp_world 0 10 [1%float]) = Some (st, w') /\
    existsb diagnostic_event (trace w') = true.
Proof.
  eexists _, _. split; [vm_compute; reflexivity|].
  eapply eq_trans.
  - eapply (diagnosed_unless_solved (lp64 always (None, 4) (0, unsolved.1, unsolved.2))
              (qp_call ["FOO"%string]))
      with (w := qp_world 0 10 [1%float]).
    + vm_compute; reflexivity.
    + vm_compute; reflexivity.
  - vm_compute. reflexivity.
Defined.

(** ** Resources are given back only while held *)

Ltac ind_atoms :=
  repeat match goal with
         | |- context [ind ?b] => generalize (ind_nonneg b); generalize (ind b); intros ? ?
         end.

Lemma lowest_nonpos r l : lowest r l <= 0.
Proof. destruct l; cbn [lowest]; lia. Qed.

Lemma lowest_app r l1 l2 :
  lowest r (l1 ++ l2) = Z.min (lowest r l1) (balance r l1 + lowest r l2).
Proof.
  induction l1 as [|e l1 IH]; cbn [app lowest balance].
  - pose proof (lowest_nonpos r l2). lia.
  - rewrite IH. lia.
Qed.

Lemma lowest_prefix r pre post : lowest r (pre ++ post) <= balance r pre.
Proof. rewrite lowest_app. pose proof (lowest_nonpos r post). lia. Qed.

Lemma delta_copy_outcome r a len n : delta r (copy_outcome a len n) = 0.
Proof. unfold copy_outcome. destruct ((0 <=? _) && _); reflexivity. Qed.

Lemma lowest_cons_safe r e l h :
  0 <= h -> 0 <= (h + delta r e) + lowest r l -> 0 <= h + lowest r (e :: l).
Proof. cbn [lowest]. lia. Qed.

Lemma lowest_nil_safe r h : 0 <= h -> 0 <= h + lowest r [].
Proof. cbn [lowest]. lia. Qed.

Ltac walk :=
  repeat (apply lowest_cons_safe;
          [cbn [delta fmap option_fmap option_map]; rewrite ?delta_copy_outcome;
           ind_atoms; lia|]);
  apply lowest_nil_safe;
  cbn [delta fmap option_fmap option_map]; rewrite ?delta_copy_outcome; ind_atoms; lia.

Lemma lowest_csc_events r ri ci co tb m : lowest r (csc_events ri ci co tb m) = 0.
Proof.
  pose proof (lowest_nonpos r (csc_events ri ci co tb m)).
  enough (0 <= 0 + lowest r (csc_events ri ci co tb m)) by lia.
  unfold csc_events, matrix_allocs, store_blocks.
  destruct m as [m|]; [destruct (csc_store m) as [[[bp bi] bx]|]|];
    cbn [app map]; walk.
Qed.

Lemma lowest_settings_events r names : lowest r (settings_events names) = 0.
Proof.
  unfold settings_events. induction names as [|n names IH]; cbn [flat_map lowest].
  - reflexivity.
  - rewrite lowest_app, IH. unfold setting_events.
    destruct (recognized n); cbn [app lowest balance delta]; ind_atoms; lia.
Qed.

Lemma lowest_log_events r c : lowest r (log_events c) = 0.
Proof.
  unfold log_events. destruct (0 <? _); cbn [lowest delta]; ind_atoms; lia.
Qed.

Lemma lowest_builder_events r c db rd : lowest r (builder_events c db rd) = 0.
Proof.
  destruct rd as [d|]; [|reflexivity]. unfold builder_events.
  rewrite !lowest_app, ?balance_app, !lowest_csc_events, ?balance_csc_events.
  cbn [lowest balance delta].
  generalize (held_block_nonneg r (data_A d)); generalize (held_block r (data_A d)).
  intros ? ?. ind_atoms. lia.
Qed.

Lemma lowest_resolver_events r c sb rs : lowest r (resolver_events c sb rs) = 0.
Proof.
  destruct rs; [|reflexivity]. unfold resolver_events.
  rewrite !lowest_app, ?balance_app, lowest_settings_events, ?balance_settings_events.
  cbn [lowest balance delta]. ind_atoms. lia.
Qed.

Lemma balance_builder_nonneg r c db rd : 0 <= balance r (builder_events c db rd).
Proof.
  destruct rd as [d|]; [|cbn; lia]. unfold builder_events.
  rewrite !balance_app, !balance_csc_events. cbn [balance delta].
  pose proof (held_block_nonneg r (data_A d)). pose proof (held_block_nonneg r (data_P d)).
  ind_atoms. lia.
Qed.

Lemma lowest_prepared_events r c db d rs : lowest r (prepared_events c db d rs) = 0.
Proof.
  unfold prepared_events.
  rewrite !lowest_app, lowest_builder_events, lowest_resolver_events, lowest_log_events.
  pose proof (balance_builder_nonneg r c db (Some d)).
  assert (0 <= balance r (resolver_events c (db + builder_blocks (Some d)) (Some rs))).
  { unfold resolver_events. rewrite !balance_app, balance_settings_events.
    cbn [balance delta]. ind_atoms. lia. }
  lia.
Qed.

(** X19: at no point of a call is a block freed or cleaned up, or a view
    of an array or string released, that is not held at that point. *)
Theorem gives_back_only_what_it_holds (P : Platform) (c : Call) (w w' : World)
  (st : jint) (evs pre post : list event) (r : resource) :
  run P c w = Some (st, w') ->
  trace w' = trace w ++ evs ->
  evs = pre ++ post ->
  0 <= balance r pre.
Proof.
  intros Hrun Htr Hsplit.
  enough (Hlow : 0 <= lowest r evs).
  { subst evs. pose proof (lowest_prefix r pre post). lia. }
  clear Hsplit pre post.
  destruct (run_events_inv _ _ _ _ _ _ Hrun Htr)
    as [ | | rd rs Hn Hd | d sb s ef Hd Hsb | d sb s wb ef Hd Hsb Hne
       | d sb s wb ef sol inf Hd Hsb Hne | d sb s wb sol inf primal dual Hd Hsb Hp Hq Hroom ].
  - cbn. lia.
  - cbn. lia.
  - rewrite lowest_app, lowest_builder_events, lowest_resolver_events.
    pose proof (balance_builder_nonneg r c (next_block w) rd). lia.
  - rewrite lowest_app, lowest_prepared_events.
    pose proof (prepared_events_nonneg r c _ d sb s Hd).
    cbn [lowest delta]. lia.
  - rewrite lowest_app, lowest_prepared_events.
    pose proof (prepared_events_nonneg r c _ d sb s Hd).
    cbn [lowest delta]. ind_atoms. lia.
  - rewrite lowest_app, lowest_prepared_events.
    rewrite (balance_prepared_events _ _ _ _ sb s Hd), <- Hsb, Hd.
    pose proof (held_arrays_nonneg r (data_A d)) as HA0.
    pose proof (held_arrays_nonneg r (data_P d)) as HP0.
    pose proof (held_struct_nonneg r (data_A d)) as HA1.
    pose proof (held_struct_nonneg r (data_P d)) as HP1.
    unfold held_block.
    apply Z.min_glb; [lia|]. clear HA1 HP1.
    generalize dependent (held_arrays r (data_A d)).
    generalize dependent (held_arrays r (data_P d)). intros hP HP0 hA HA0.
    unfold teardown_events, held_struct. rewrite Hd.
    destruct (data_A d), (data_P d); cbn [app]; walk.
  - rewrite lowest_app, lowest_prepared_events.
    rewrite (balance_prepared_events _ _ _ _ sb s Hd), <- Hsb, Hd.
    pose proof (held_arrays_nonneg r (data_A d)) as HA0.
    pose proof (held_arrays_nonneg r (data_P d)) as HP0.
    pose proof (held_struct_nonneg r (data_A d)) as HA1.
    pose proof (held_struct_nonneg r (data_P d)) as HP1.
    unfold held_block.
    apply Z.min_glb; [lia|]. clear HA1 HP1.
    generalize dependent (held_arrays r (data_A d)).
    generalize dependent (held_arrays r (data_P d)). intros hP HP0 hA HA0.
    unfold teardown_events, held_struct. rewrite Hd.
    destruct (data_A d), (data_P d); cbn [app]; walk.
Qed.

Lemma gives_back_only_what_it_holds_witness :
  exists st w',
    run (lp64 always (Some unsolved, 0) (0, mk_solution [0%float] [1%float], mk_info 1))
      (qp_call []) (qp_world 0 10 []) = Some (st, w') /\
    0 <= balance (RBlock 12) (take 33 (trace w')).
Proof.
  eexists _, _. split; [vm_compute; reflexivity|].
  eapply (gives_back_only_what_it_holds
            (lp64 always (Some unsolved, 0) (0, mk_solution [0%float] [1%float], mk_info 1))
            (qp_call []))
    with (w := qp_world 0 10 []); [ | | symmetry; apply take_drop].
  - vm_compute; reflexivity.
  - vm_compute; reflexivity.
Defined.

(** ** What a call still holds *)

Lemma existsb_alloc_prepared_events c db d rs :
  existsb alloc_event (prepared_events c db d rs) = true.
Proof. reflexivity. Qed.

Lemma balance_resolver_events r c sb rs :
  balance r (resolver_events c sb (Some rs)) = ind (bool_decide (r = RBlock sb)).
Proof.
  unfold resolver_events. rewrite !balance_app, balance_settings_events.
  cbn [balance delta]. lia.
Qed.

(** X20: what a call still holds when it returns.  A call that allocates
    nothing holds nothing.  A call that allocates and does not reach
    [osqp_solve] returns with a block still held.  A call that reaches
    [osqp_solve] returns holding the arrays of the matrices it built, and
    nothing else: the teardown frees each matrix with [c_free], which gives
    back the structure and not the arrays [p], [i] and [x] allocated with
    it. *)
Theorem what_a_call_still_holds (P : Platform) (c : Call) (w w' : World)
  (st : jint) (evs : list event) :
  run P c w = Some (st, w') ->
  trace w' = trace w ++ evs ->
  (existsb alloc_event evs = false -> forall r, balance r evs = 0) /\
  (existsb alloc_event evs = true -> existsb solve_event evs = false ->
   exists b, 0 < balance (RBlock b) evs) /\
  (existsb solve_event evs = true ->
   exists d,
     data_at (next_block w) d /\
     forall r, balance r evs = held_arrays r (data_A d) + held_arrays r (data_P d)).
Proof.
  intros Hrun Htr.
  destruct (run_events_inv _ _ _ _ _ _ Hrun Htr)
    as [ | | rd rs Hn Hd | d sb s ef Hd Hsb | d sb s wb ef Hd Hsb Hne
       | d sb s wb ef sol inf Hd Hsb Hne | d sb s wb sol inf primal dual Hd Hsb Hp Hq Hroom ].
  - split; [intros _ r; reflexivity|]. split; intros H; discriminate H.
  - split; [intros _ r; reflexivity|]. split; intros H; discriminate H.
  - assert (Hsolve : existsb solve_event
                       (builder_events c (next_block w) rd
                        ++ resolver_events c (next_block w + builder_blocks rd) rs)
                     = false).
    { rewrite existsb_app,
        (existsb_housekeeping _ _ housekeeping_not_solve
           (builder_events_housekeeping _ _ _)),
        (existsb_housekeeping _ _ housekeeping_not_solve
           (resolver_events_housekeeping _ _ _)). reflexivity. }
    rewrite Hsolve. split; [|split; [|intros H; discriminate H]].
    + destruct rd as [d|]; [intros H; discriminate H|].
      destruct rs as [rs|]; [intros H; discriminate H|].
      intros _ r. reflexivity.
    + intros Ha _. destruct rd as [d|].
      * exists (data_block d).
        rewrite balance_app, <- (Hd d eq_refl), balance_builder_events, ind_refl.
        pose proof (held_block_nonneg (RBlock (data_block d)) (data_A d)).
        pose proof (held_block_nonneg (RBlock (data_block d)) (data_P d)).
        assert (0 <= balance (RBlock (data_block d))
                       (resolver_events c (data_block d + builder_blocks (Some d)) rs)).
        { destruct rs as [rs|]; [|cbn; lia].
          rewrite balance_resolver_events. apply ind_nonneg. }
        ind_atoms. lia.
      * destruct rs as [rs|]; [|discriminate Ha].
        exists (next_block w + builder_blocks None)%nat.
        rewrite balance_app, balance_resolver_events, ind_refl.
        cbn [builder_events balance delta]. lia.
  - split; [|split].
    + intros H. rewrite existsb_app, existsb_alloc_prepared_events in H. discriminate H.
    + intros _ _. exists sb.
      pose proof (prepared_events_hold (RBlock sb) c _ d sb s Hd Hsb
                    (or_introl eq_refl)) as Hh.
      rewrite balance_app. cbn [balance delta]. lia.
    + intros H. rewrite existsb_app, (existsb_prepared_events _ _ _ _ _ housekeeping_not_solve),
        existsb_solve_log_events in H. discriminate H.
  - split; [|split].
    + intros H. rewrite existsb_app, existsb_alloc_prepared_events in H. discriminate H.
    + intros _ _. exists sb.
      pose proof (prepared_events_hold (RBlock sb) c _ d sb s Hd Hsb
                    (or_introl eq_refl)) as Hh.
      rewrite balance_app. cbn [balance delta]. lia.
    + intros H. rewrite existsb_app, (existsb_prepared_events _ _ _ _ _ housekeeping_not_solve),
        existsb_solve_log_events in H. discriminate H.
  - split; [|split].
    + intros H. rewrite existsb_app, existsb_alloc_prepared_events in H. discriminate H.
    + intros _ H. rewrite !existsb_app in H. cbn [existsb solve_event] in H.
      rewrite !orb_true_r in H. discriminate H.
    + intros _.
      apply (completed_run_keeps_matrix_arrays P c w w' _ _ wb ef sol inf Hrun Htr).
      apply in_app_iff. right. cbn. auto.
  - split; [|split].
    + intros H. rewrite existsb_app, existsb_alloc_prepared_events in H. discriminate H.
    + intros _ H. rewrite !existsb_app in H. cbn [existsb solve_event] in H.
      rewrite !orb_true_r in H. discriminate H.
    + intros _.
      apply (completed_run_keeps_matrix_arrays P c w w' _ _ wb 0 sol inf Hrun Htr).
      apply in_app_iff. right. cbn. auto.
Qed.

Lemma what_a_call_still_holds_witness :
  exists st w',
    run (lp64 always (Some unsolved, 0) (0, mk_solution [0%float] [1%float], mk_info 1))
      (qp_call []) (qp_world 0 10 []) = Some (st, w') /\
    leaked (trace w')
    = [RBlock 3; RBlock 4; RBlock 5; RBlock 8; RBlock 9; RBlock 10] /\
    exists d, forall r,
        balance r (trace w') = held_arrays r (data_A d) + held_arrays r (data_P d).
Proof.
  eexists _, _. split; [vm_compute; reflexivity|].
  split; [vm_compute; reflexivity|].
  edestruct (what_a_call_still_holds
               (lp64 always (Some unsolved, 0)
                  (0, mk_solution [0%float] [1%float], mk_info 1))
               (qp_call []))
    with (w := qp_world 0 10 []) as (_ & _ & H).
  - vm_compute; reflexivity.
  - vm_compute; reflexivity.
  - destruct H as (d & _ & H); [vm_compute; reflexivity|].
    exists d. exact H.
Defined.

(** ** What a call changes and returns *)

(** X21: a call that does not reach [osqp_solve] returns -1 and leaves
    every Java array as it was. *)
Theorem unsolved_call_changes_nothing (P : Platform) (c : Call) (w w' : World)
  (st : jint) (evs : list event) :
  run P c w = Some (st, w') ->
  trace w' = trace w ++ evs ->
  existsb solve_event evs = false ->
  st = -1 /\ jdoubles w' = jdoubles w /\ jlongs w' = jlongs w.
Proof.
  intros Hrun Htr Hno. split.
  - destruct (run_events_inv _ _ _ _ _ _ Hrun Htr)
      as [ | | rd rs Hn Hd | d sb s ef Hd Hsb | d sb s wb ef Hd Hsb Hne
         | d sb s wb ef sol inf Hd Hsb Hne | d sb s wb sol inf primal dual Hd Hsb Hp Hq Hroom ];
      try reflexivity; exfalso;
      rewrite !existsb_app in Hno; cbn [existsb solve_event] in Hno;
      rewrite !orb_true_r in Hno; discriminate Hno.
  - destruct (run_effect _ _ _ _ _ Hrun) as (L & _ & [J|H]).
    + split; [exact J | exact L].
    + destruct H as (sol & w1 & w2 & w3 & evs' & _ & _ & _ & _ & _ & _ & T & E).
      rewrite Htr in T. apply app_inv_head in T. subst evs'.
      rewrite E in Hno. discriminate Hno.
Qed.

Lemma unsolved_call_changes_nothing_witness :
  exists st w',
    run (lp64 always (None, 4) (0, unsolved.1, unsolved.2)) (qp_call [])
      (qp_world 0 10 []) = Some (st, w') /\
    st = -1 /\ jdoubles w' = jdoubles (qp_world 0 10 []).
Proof.
  eexists _, _. split; [vm_compute; reflexivity|].
  edestruct (unsolved_call_changes_nothing
               (lp64 always (None, 4) (0, unsolved.1, unsolved.2)) (qp_call []))
    with (w := qp_world 0 10 []) as (H1 & H2 & _).
  - vm_compute; reflexivity.
  - vm_compute; reflexivity.
  - vm_compute; reflexivity.
  - split; [vm_compute; reflexivity | exact H2].
Defined.

(** X22: the only Java arrays a call can change are the two result
    buffers; the long arrays and every other double array hold afterwards
    what they held before, and no array changes its length. *)
Theorem writes_only_result_buffers (P : Platform) (c : Call) (w w' : World)
  (st : jint) :
  run P c w = Some (st, w') ->
  jlongs w' = jlongs w /\
  (forall a, a <> optPrimal c -> a <> optDual c ->
             jdoubles w' !! a = jdoubles w !! a) /\
  (forall a, length <$> (jdoubles w' !! a) = length <$> (jdoubles w !! a)).
Proof.
  intros Hrun. destruct (run_effect _ _ _ _ _ Hrun) as (L & _ & [J|H]).
  - split; [exact L|]. rewrite J. split; reflexivity.
  - destruct H as (sol & w1 & w2 & w3 & evs' & J1 & _ & H2 & H3 & J3 & _).
    destruct (SetDoubleArrayRegion_frame _ _ _ _ _ _ _ H2) as (_ & _ & F2 & G2).
    destruct (SetDoubleArrayRegion_frame _ _ _ _ _ _ _ H3) as (_ & _ & F3 & G3).
    split; [exact L|]. rewrite J3. split.
    + intros a Hp Hd. rewrite (F3 a Hd), (F2 a Hp), J1. reflexivity.
    + intros a. rewrite G3, G2, J1. reflexivity.
Qed.

Lemma writes_only_result_buffers_witness :
  exists st w',
    run (lp64 always (Some unsolved, 0) (0, mk_solution [0%float] [1%float], mk_info 1))
      (qp_call []) (qp_world 0 10 []) = Some (st, w') /\
    jdoubles w' !! 4%nat = Some [0%float] /\
    length <$> (jdoubles w' !! 6%nat) = Some 1%nat.
Proof.
  eexists _, _. split; [vm_compute; reflexivity|].
  edestruct (writes_only_result_buffers
               (lp64 always (Some unsolved, 0) (0, mk_solution [0%float] [1%float], mk_info 1))
               (qp_call []))
    with (w := qp_world 0 10 []) as (_ & H1 & H2).
  - vm_compute; reflexivity.
  - split.
    + rewrite (H1 4%nat); [vm_compute; reflexivity | vm_compute; discriminate
                           | vm_compute; discriminate].
    + rewrite (H2 6%nat). vm_compute; reflexivity.
Defined.

(** No exception is raised by a call whose dual buffer has room for its
    region. *)
Lemma run_events_calm (c : Call) w st evs dual :
  run_events c w st evs ->
  jdoubles w !! optDual c = Some dual ->
  0 <= to_jint (numDual c) <= Z.of_nat (length dual) ->
  raised evs = None.
Proof.
  intros Hev Hq [R1 R2].
  destruct Hev
    as [ | | rd rs Hn Hd | d sb s ef Hd Hsb | d sb s wb ef Hd Hsb Hne
       | d sb s wb ef sol inf Hd Hsb Hne
       | d sb s wb sol inf primal dual' Hd Hsb Hp Hq' Hroom ].
  - reflexivity.
  - reflexivity.
  - rewrite raised_app, (raised_housekeeping _ (builder_events_housekeeping _ _ _)),
      (raised_housekeeping _ (resolver_events_housekeeping _ _ _)). reflexivity.
  - rewrite raised_app, raised_prepared_events. reflexivity.
  - rewrite raised_app, raised_prepared_events. reflexivity.
  - rewrite raised_app, raised_prepared_events. reflexivity.
  - rewrite Hq in Hq'. injection Hq' as <-.
    unfold copy_outcome. apply Z.leb_le in R1, R2. rewrite R1, R2.
    rewrite raised_app, raised_prepared_events. reflexivity.
Qed.



(** ** A result buffer that is too short *)

(** X24: when the solve step returns 0 and the dual buffer has fewer
    elements than [numDual] asks for (the count as converted to [jsize]),
    the copy into it raises [ArrayIndexOutOfBoundsException] and leaves it
    as it was, the primal buffer having been written by then.  The source
    does not check for the exception: it is pending when the native method
    returns, so that the caller is thrown the exception and does not
    receive the status. *)
Theorem short_dual_buffer_raises (P : Platform) (c : Call) (w w' : World)
  (st : jint) (evs : list event) (wb : block)
  (sol : OSQPSolution) (inf : OSQPInfo) (primal dual : list jdouble) :
  run P c w = Some (st, w') ->
  trace w' = trace w ++ evs ->
  In (EvSolve wb 0 sol inf) evs ->
  jdoubles w !! optPrimal c = Some primal ->
  jdoubles w !! optDual c = Some dual ->
  optPrimal c <> optDual c ->
  Z.of_nat (length dual) < to_jint (numDual c) ->
  received st evs = Raised "ArrayIndexOutOfBoundsException" /\
  jdoubles w' !! optDual c = Some dual /\
  jdoubles w' !! optPrimal c
  = Some (take (Z.to_nat (to_jint (numVar c))) (x sol)
          ++ drop (Z.to_nat (to_jint (numVar c))) primal).
Proof.
  intros Hrun Htr Hin Hp Hd Hne Hm.
  assert (Hout : (0 <=? to_jint (numDual c))
                 && (to_jint (numDual c) <=? Z.of_nat (length dual)) = false).
  { apply andb_false_iff. right. apply Z.leb_gt. exact Hm. }
  pose proof (run_events_inv _ _ _ _ _ _ Hrun Htr) as Hev.
  destruct (run_events_solve _ _ _ _ _ _ _ _ Hev Hin)
    as (d & sb & s & _ & _ & _ & [[Hne0 _]|[_ (primal' & dual' & Hp' & Hq' & Hn & E)]]);
    [contradiction|].
  rewrite Hp in Hp'. injection Hp' as <-. rewrite Hd in Hq'. injection Hq' as <-.
  split.
  { rewrite E. unfold received, copy_outcome. rewrite Hout.
    rewrite !raised_app, raised_prepared_events. reflexivity. }
  destruct (run_reaches_solve _ _ _ _ _ _ _ _ _ _ Hrun Htr Hin)
    as (d0 & sb0 & s0 & copies & _ & _ & _ & _ & _ & _ & Hok).
  destruct (Hok eq_refl) as (w1 & w2 & w3 & Hj & H2 & H3 & ->).
  rewrite <- Hj in Hp, Hd.
  destruct (SetDoubleArrayRegion_inside _ _ _ _ _ _ _ H2 Hp Hn) as [_ E2].
  assert (Hd2 : jdoubles w2 !! optDual c = Some dual).
  { rewrite E2, lookup_insert_ne; [exact Hd | exact Hne]. }
  rewrite (SetDoubleArrayRegion_outside _ _ _ _ _ _ _ _ H3 Hd2).
  2: { change (0 <=? 0) with true. cbn [andb]. rewrite Z.add_0_l. exact Hout. }
  split; [exact Hd2|]. rewrite E2. apply lookup_insert_eq.
Qed.

Lemma short_dual_buffer_raises_witness :
  exists st w',
    run (lp64 always (Some unsolved, 0)
           (0, mk_solution [0%float] [1%float; 2%float], mk_info 1))
      (mk_call 1 2 EmptyString 1 11 12 2 13 14 3 4 5 6 7 [] 8)
      (qp_world 0 10 []) = Some (st, w') /\
    received st (trace w') = Raised "ArrayIndexOutOfBoundsException" /\
    jdoubles w' !! 7%nat = Some [7%float] /\
    jdoubles w' !! 6%nat = Some [0%float].
Proof.
  eexists _, _. split; [vm_compute; reflexivity|].
  edestruct (short_dual_buffer_raises
               (lp64 always (Some unsolved, 0)
                  (0, mk_solution [0%float] [1%float; 2%float], mk_info 1))
               (mk_call 1 2 EmptyString 1 11 12 2 13 14 3 4 5 6 7 [] 8))
    with (w := qp_world 0 10 []) (wb := 12%nat)
         (sol := mk_solution [0%float] [1%float; 2%float]) (inf := mk_info 1)
         (primal := [7%float]) (dual := [7%float])
    as (H0 & H1 & H2).
  - vm_compute; reflexivity.
  - vm_compute; reflexivity.
  - vm_compute. repeat (first [left; reflexivity | right]).
  - vm_compute; reflexivity.
  - vm_compute; reflexivity.
  - vm_compute; discriminate.
  - vm_compute; reflexivity.
  - split; [exact H0|]. split; [exact H1|].
    eapply eq_trans; [exact H2 | vm_compute; reflexivity].
Defined.

(** X25: a call that copies the solution has a defined result only when
    the primal buffer has room for its region and the solver's vectors are
    as long as the regions copied from them.  A primal region outside its
    buffer raises an exception, after which the copy into the dual buffer
    is a JNI call made with an exception pending; a region longer than the
    solver's vector is read past its end. *)
Theorem copies_need_room (P : Platform) (c : Call) (w w' : World)
  (st : jint) (evs : list event) (wb : block)
  (sol : OSQPSolution) (inf : OSQPInfo) (primal dual : list jdouble) :
  run P c w = Some (st, w') ->
  trace w' = trace w ++ evs ->
  In (EvSolve wb 0 sol inf) evs ->
  jdoubles w !! optPrimal c = Some primal ->
  jdoubles w !! optDual c = Some dual ->
  0 <= to_jint (numVar c) <= Z.of_nat (length primal) /\
  to_jint (numVar c) <= Z.of_nat (length (x sol)) /\
  (0 <= to_jint (numDual c) <= Z.of_nat (length dual) ->
   to_jint (numDual c) <= Z.of_nat (length (y sol))).
Proof.
  intros Hrun Htr Hin Hp Hd.
  pose proof (run_events_inv _ _ _ _ _ _ Hrun Htr) as Hev.
  destruct (run_events_solve _ _ _ _ _ _ _ _ Hev Hin)
    as (d & sb & s & _ & _ & _ & [[Hne0 _]|[_ (primal' & dual' & Hp' & _ & Hn & _)]]);
    [contradiction|].
  rewrite Hp in Hp'. injection Hp' as <-.
  split; [exact Hn|].
  destruct (run_reaches_solve _ _ _ _ _ _ _ _ _ _ Hrun Htr Hin)
    as (d0 & sb0 & s0 & copies & _ & _ & _ & _ & _ & _ & Hok).
  destruct (Hok eq_refl) as (w1 & w2 & w3 & Hj & H2 & H3 & _).
  rewrite <- Hj in Hp, Hd.
  destruct (SetDoubleArrayRegion_inside _ _ _ _ _ _ _ H2 Hp Hn) as [Lx _].
  split; [lia|]. intros Hm.
  destruct (SetDoubleArrayRegion_frame _ _ _ _ _ _ _ H2) as (_ & _ & _ & G2).
  specialize (G2 (optDual c)). rewrite Hd in G2.
  destruct (jdoubles w2 !! optDual c) as [dual2|] eqn:Hd2; [|discriminate G2].
  cbn in G2. injection G2 as G2. rewrite <- G2 in Hm.
  destruct (SetDoubleArrayRegion_inside _ _ _ _ _ _ _ H3 Hd2 Hm) as [Ly _]. lia.
Qed.

Lemma copies_need_room_witness :
  exists st w',
    run (lp64 always (Some unsolved, 0) (0, mk_solution [0%float] [1%float], mk_info 1))
      (qp_call []) (qp_world 0 10 []) = Some (st, w') /\
    to_jint (numVar (qp_call [])) <= 1.
Proof.
  eexists _, _. split; [vm_compute; reflexivity|].
  edestruct (copies_need_room
               (lp64 always (Some unsolved, 0)
                  (0, mk_solution [0%float] [1%float], mk_info 1))
               (qp_call []))
    with (w := qp_world 0 10 []) (wb := 12%nat)
         (sol := mk_solution [0%float] [1%float]) (inf := mk_info 1)
         (primal := [7%float]) (dual := [7%float])
    as (_ & H & _).
  - vm_compute; reflexivity.
  - vm_compute; reflexivity.
  - vm_compute. repeat (first [left; reflexivity | right]).
  - vm_compute; reflexivity.
  - vm_compute; reflexivity.
  - exact H.
Defined.
